(** * Spine asset optimizer: sizing policy, resample pipeline and packaging

  A shallow embedding of [src/utils/optimizer.ts].

  - [JsNumber]: ECMAScript numbers as IEEE 754 binary64 values, with the
    [Math] functions the sizing code calls.
  - [Sizing]: [calculateOptimizationTargets].
  - [Resample]: the numeric stages of [resizeImage] (box-filter pyramid,
    Lanczos-3 tap weights, the two separable passes, dither and
    quantisation).  Sample arithmetic calls [Math.sin] and [Math.PI]; it is
    modelled over the real numbers, that is binary64 and binary32
    rounding is left out of this module.
  - [Packager]: [resizeImage] as a whole (its try/catch, its calls into
    the browser and the numeric stages) and [generateOptimizedZip] over
    a model of the JSZip folder as a finite map. *)

From Stdlib Require Import ZArith Reals Lra Lia Ascii String Floats.SpecFloat.
From stdpp Require Import base gmap strings list fin_maps.

(** ** ECMAScript numbers *)

Module JsNumber.

(** A [number] is a binary64 value; [spec_float] carries the two zeros,
    the two infinities and NaN. *)
Definition number : Type := spec_float.

(** Binary64: 53 bits of precision, exponent of the infinities 1024. *)
Definition prec : Z := 53.
Definition emax : Z := 1024.

Definition NaN : number := S754_nan.

(** The number denoted by an integer literal. *)
Definition of_Z (z : Z) : number := binary_normalize prec emax z 0 false.

Definition is_nan (x : number) : bool :=
  match x with S754_nan => true | _ => false end.

Definition add : number -> number -> number := SFadd prec emax.
Definition sub : number -> number -> number := SFsub prec emax.
Definition mul : number -> number -> number := SFmul prec emax.
Definition div : number -> number -> number := SFdiv prec emax.

(** [a < b], [a <= b], [a === b] and [a !== b] on numbers. *)
Definition lt (a b : number) : bool := SFltb a b.
Definition le (a b : number) : bool := SFleb a b.
Definition strict_eq (a b : number) : bool := SFeqb a b.
Definition strict_ne (a b : number) : bool := negb (SFeqb a b).

(** [Math.min(a, b)]: NaN when an argument is NaN; -0 is below +0. *)
Definition Math_min (a b : number) : number :=
  if is_nan a || is_nan b then NaN
  else match SFcompare a b with
       | Some Lt => a
       | Some Gt => b
       | _ => match a with S754_zero true => a | _ => b end
       end.

(** [Math.max(a, b)]: NaN when an argument is NaN; +0 is above -0. *)
Definition Math_max (a b : number) : number :=
  if is_nan a || is_nan b then NaN
  else match SFcompare a b with
       | Some Lt => b
       | Some Gt => a
       | _ => match a with S754_zero false => a | _ => b end
       end.

(** [Math.ceil(x)]: the least integral number not below [x]; zeros,
    infinities and NaN are returned as they are, and a negative [x]
    above -1 gives -0. *)
Definition Math_ceil (x : number) : number :=
  match x with
  | S754_finite s m e =>
      if (0 <=? e)%Z then x
      else
        let q := Z.shiftr (Z.pos m) (- e) in
        let exact := (Z.shiftl q (- e) =? Z.pos m)%Z in
        if s then
          if (q =? 0)%Z then S754_zero true else SFopp (of_Z q)
        else of_Z (if exact then q else q + 1)
  | _ => x
  end.

End JsNumber.

(** ** Sizing policy: [calculateOptimizationTargets] *)

Module Sizing.
Import JsNumber.

(** The payload of a [File]. *)
Definition Blob : Type := list Byte.byte.

(** Modelled from the spec: the declaration of [GlobalAssetStat] is in
    [src/types], outside the file embedded here.  The fields are the ones
    [calculateOptimizationTargets] reads; [isOverridden] is the truth value
    the [if] sees and [overridePercentage] is optional. *)
Record GlobalAssetStat : Type := {
  lookupKey : string;
  maxRenderWidth : number;
  maxRenderHeight : number;
  maxScaleX : number;
  maxScaleY : number;
  isOverridden : bool;
  overridePercentage : option number
}.

(** A value of the [loadedImages] map (the type is written out in the
    signature of [calculateOptimizationTargets]). *)
Record LoadedImage : Type := {
  width : number;
  height : number;
  sourceWidth : option number;
  sourceHeight : option number;
  file : Blob;
  originalPath : string
}.

(** Modelled from the spec: the declaration of [OptimizationTask] is in
    [src/types] too; the fields are those of the object literal pushed
    at lines 83-95, [taskOverridePercentage] being its
    [overridePercentage]. *)
Record OptimizationTask : Type := {
  fileName : string;
  relativePath : string;
  originalWidth : number;
  originalHeight : number;
  targetWidth : number;
  targetHeight : number;
  blob : Blob;
  maxScaleUsed : number;
  isResize : bool;
  taskOverridePercentage : option number
}.

(** *** Strings *)

(** [s.lastIndexOf(c)] for a one-character [c]: the index of the last
    occurrence, or -1. *)
Fixpoint lastIndexOf_from (c : ascii) (s : string) (i acc : Z) : Z :=
  match s with
  | EmptyString => acc
  | String a s' =>
      lastIndexOf_from c s' (i + 1) (if Ascii.eqb a c then i else acc)
  end.

Definition lastIndexOf (s : string) (c : ascii) : Z :=
  lastIndexOf_from c s 0 (-1).

(** [s.substring(0, n)] for [0 <= n]. *)
Definition substring0 (s : string) (n : Z) : string :=
  String.substring 0 (Z.to_nat n) s.

(** Lines 67-81: the output file name. *)
Definition outputFileName (sourcePath : string) : string :=
  let lastSlashIndex :=
    Z.max (lastIndexOf sourcePath "/") (lastIndexOf sourcePath "\") in
  let lastDotIndex := lastIndexOf sourcePath "." in
  let basePath :=
    if (lastSlashIndex <? lastDotIndex)%Z
    then substring0 sourcePath lastDotIndex
    else sourcePath in
  basePath +:+ ".png".

(** *** The body of the [loadedImages.forEach] callback *)

(** [x ?? y]. *)
Definition nullish {A : Type} (x : option A) (y : A) : A :=
  match x with Some v => v | None => y end.

(** Lines 33-34. *)
Definition physicalW (original : LoadedImage) : number :=
  nullish (sourceWidth original) (width original).
Definition physicalH (original : LoadedImage) : number :=
  nullish (sourceHeight original) (height original).

(** Lines 39-50: the requested size along one axis. *)
Definition calculated (overridden : bool) (maxRender bufferPercentage : number)
  : number :=
  if overridden then maxRender
  else
    let bufferMultiplier := add (of_Z 1) (div bufferPercentage (of_Z 100)) in
    Math_ceil (mul maxRender bufferMultiplier).

Definition calculatedW (stat : GlobalAssetStat) (bufferPercentage : number) :=
  calculated (isOverridden stat) (maxRenderWidth stat) bufferPercentage.
Definition calculatedH (stat : GlobalAssetStat) (bufferPercentage : number) :=
  calculated (isOverridden stat) (maxRenderHeight stat) bufferPercentage.

(** Lines 54-59: cap at the physical size, then clamp to at least 1. *)
Definition target (calc physical : number) : number :=
  Math_max (of_Z 1) (Math_min calc physical).

(** Lines 31-95 for an image whose stat was found. *)
Definition makeTask (stat : GlobalAssetStat) (original : LoadedImage)
    (bufferPercentage : number) : OptimizationTask :=
  let pW := physicalW original in
  let pH := physicalH original in
  let targetW := target (calculatedW stat bufferPercentage) pW in
  let targetH := target (calculatedH stat bufferPercentage) pH in
  {| fileName := outputFileName (originalPath original);
     relativePath := originalPath original;
     originalWidth := pW;
     originalHeight := pH;
     targetWidth := targetW;
     targetHeight := targetH;
     blob := file original;
     maxScaleUsed := Math_max (maxScaleX stat) (maxScaleY stat);
     isResize := strict_ne targetW pW || strict_ne targetH pH;
     taskOverridePercentage := overridePercentage stat |}.

(** Lines 17-18: later stats replace earlier ones with the same key. *)
Definition buildStatsMap (stats : list GlobalAssetStat)
  : gmap string GlobalAssetStat :=
  foldl (fun m s => <[lookupKey s := s]> m) ∅ stats.

(** Lines 23-96: one call of the callback; [tasks] is the array it pushes
    to.  The early [return] of line 29 leaves [tasks] as it is. *)
Definition forEachBody (statsMap : gmap string GlobalAssetStat)
    (bufferPercentage : number) (tasks : list OptimizationTask)
    (entry : string * LoadedImage) : list OptimizationTask :=
  let '(key, original) := entry in
  match statsMap !! key with
  | None => tasks
  | Some stat => tasks ++ [makeTask stat original bufferPercentage]
  end.

(** *** [Array.prototype.sort] *)

(** The sort is stable and the comparator below is consistent, so the
    result is the one a stable insertion sort gives: [x] goes in front
    of the first element it does not compare greater than. *)
Fixpoint sortInsert {A : Type} (cmp : A -> A -> Z) (x : A) (l : list A)
  : list A :=
  match l with
  | [] => [x]
  | y :: l' => if (cmp x y <=? 0)%Z then x :: l else y :: sortInsert cmp x l'
  end.

Definition Array_sort {A : Type} (cmp : A -> A -> Z) (l : list A) : list A :=
  foldr (sortInsert cmp) [] l.

(** Line 99: the comparator. *)
Definition compareTasks (a b : OptimizationTask) : Z :=
  if Bool.eqb (isResize a) (isResize b) then 0
  else if isResize a then (-1) else 1.

(** *** [calculateOptimizationTargets]

    [loadedImages] is the map in its iteration (insertion) order;
    [bufferPercentage] is [None] when the argument is left out. *)
Definition calculateOptimizationTargets (stats : list GlobalAssetStat)
    (loadedImages : list (string * LoadedImage))
    (bufferPercentage : option number) : list OptimizationTask :=
  let bufferPercentage := nullish bufferPercentage (of_Z 0) in
  let statsMap := buildStatsMap stats in
  let tasks := foldl (forEachBody statsMap bufferPercentage) [] loadedImages in
  Array_sort compareTasks tasks.

(** The task the callback emits for an entry, if any. *)
Definition taskOf (statsMap : gmap string GlobalAssetStat)
    (bufferPercentage : number) (entry : string * LoadedImage)
  : option OptimizationTask :=
  match statsMap !! entry.1 with
  | None => None
  | Some stat => Some (makeTask stat entry.2 bufferPercentage)
  end.

(** *** The sizing rule in the words of the specification

    [clamp x lo hi] and the non-override target
    [clamp(ceil(maxRender * (1 + buffer/100)), 1, physical)]. *)
Definition clamp (x lo hi : number) : number := Math_max lo (Math_min x hi).

Definition specTarget (maxRender buffer physical : number) : number :=
  clamp (Math_ceil (mul maxRender (add (of_Z 1) (div buffer (of_Z 100)))))
        (of_Z 1) physical.

(** The physical cap of every loaded image is at least 1. *)
Definition capsAtLeastOne (imgs : list (string * LoadedImage)) : Prop :=
  forall key original, (key, original) ∈ imgs ->
    le (of_Z 1) (physicalW original) = true /\
    le (of_Z 1) (physicalH original) = true.

(** [1 <= target <= original] on both axes of a task. *)
Definition withinPhysical (t : OptimizationTask) : Prop :=
  le (of_Z 1) (targetWidth t) = true /\
  le (targetWidth t) (originalWidth t) = true /\
  le (of_Z 1) (targetHeight t) = true /\
  le (targetHeight t) (originalHeight t) = true.

(** Sample inputs: a 100x100 source behind a 50x50 canonical size, a stat
    that asks for 200x200, and an overridden stat whose width is NaN. *)
Definition sampleImage : LoadedImage :=
  {| width := of_Z 50; height := of_Z 50;
     sourceWidth := Some (of_Z 100); sourceHeight := Some (of_Z 100);
     file := []; originalPath := "skeleton/arm.jpg" |}.

Definition smallImage : LoadedImage :=
  {| width := of_Z 8; height := of_Z 8;
     sourceWidth := None; sourceHeight := None;
     file := []; originalPath := "skeleton/eye.png" |}.

Definition sampleStat (key : string) (w h : Z) : GlobalAssetStat :=
  {| lookupKey := key; maxRenderWidth := of_Z w; maxRenderHeight := of_Z h;
     maxScaleX := of_Z 1; maxScaleY := of_Z 1;
     isOverridden := false; overridePercentage := None |}.

Definition nanStat : GlobalAssetStat :=
  {| lookupKey := "arm"; maxRenderWidth := NaN; maxRenderHeight := of_Z 10;
     maxScaleX := of_Z 1; maxScaleY := of_Z 1;
     isOverridden := true; overridePercentage := Some (of_Z 50) |}.

End Sizing.

(** ** The numeric stages of [resizeImage]

    Samples, weights and the dither are real numbers here: the stages are
    modelled as the exact computation the code approximates in binary64
    (and in binary32 where it stores into a [Float32Array]).

    The target sizes of [resizeImage] are numbers, and the sizing policy
    passes on a size that is not an integer when a stat is overridden
    (line 42 has no [Math.ceil]).  The module has the stages twice: first
    for natural target sizes ([horizontalPass], [verticalPass],
    [resample]), where every index is a natural number inside its buffer,
    then for any real target size ([horizontalPassAt], [verticalPassAt],
    [resampleAt]), where an index may fail to be an integer or fall
    outside the typed array.  [ResampleAtFacts.resampleAt_natural] shows that
    the two agree on natural sizes. *)

Module Resample.
Local Open Scope R_scope.

(** [buf[i]] on a typed array of samples.  On a buffer of [w * h * 4]
    samples every read of the stages below is in range (the pyramid reads
    at [2*x+1 < w] and [2*y+1 < h], the passes clamp their tap indices;
    see [ResampleFacts]), so the value of an out-of-range read does not
    matter; the model gives 0. *)
Definition sample (buf : list R) (i : nat) : R := default 0 (buf !! i).

(** Four consecutive stores [buf[base] = v0; ...; buf[base+3] = v3]; a
    typed array ignores a store past its end, as [<[_:=_]>] does. *)
Definition store4 {A : Type} (buf : list A) (base : nat) (v0 v1 v2 v3 : A)
  : list A :=
  <[(base + 3)%nat := v3]>
    (<[(base + 2)%nat := v2]> (<[(base + 1)%nat := v1]> (<[base := v0]> buf))).

(** *** B. The box-filter pyramid (lines 214-247) *)

Record Pyramid : Type := {
  floatSrc : list R;
  srcW : nat;
  srcH : nat
}.

(** Line 216: the loop test. *)
Definition pyramidContinues (p : Pyramid) (targetWidth targetHeight : R) : bool :=
  if Rlt_dec (targetWidth * 2) (INR (srcW p)) then
    if Rlt_dec (targetHeight * 2) (INR (srcH p)) then true else false
  else false.

(** Lines 232-241: the average of channel [c] over the block at [(x, y)]. *)
Definition boxAverage (src : list R) (w y x c : nat) : R :=
  let row1 := (y * 2 * w * 4)%nat in
  let row2 := ((y * 2 + 1) * w * 4)%nat in
  let col1 := (x * 2 * 4)%nat in
  let col2 := ((x * 2 + 1) * 4)%nat in
  let i1 := (row1 + col1)%nat in
  let i2 := (row1 + col2)%nat in
  let i3 := (row2 + col1)%nat in
  let i4 := (row2 + col2)%nat in
  (sample src (i1 + c)%nat + sample src (i2 + c)%nat + sample src (i3 + c)%nat
   + sample src (i4 + c)%nat) * 0.25.

(** Lines 227-242: the body of the inner loop. *)
Definition boxPixel (src : list R) (w nextW y : nat) (nextBuf : list R) (x : nat)
  : list R :=
  let dstRow := (y * nextW * 4)%nat in
  store4 nextBuf (dstRow + x * 4)%nat
    (boxAverage src w y x 0) (boxAverage src w y x 1)
    (boxAverage src w y x 2) (boxAverage src w y x 3).

(** Lines 217-246: one pass of the loop body. *)
Definition halve (p : Pyramid) : Pyramid :=
  let nextW := (srcW p / 2)%nat in
  let nextH := (srcH p / 2)%nat in
  let nextBuf :=
    foldl (fun buf y => foldl (boxPixel (floatSrc p) (srcW p) nextW y) buf (seq 0 nextW))
          (replicate (nextW * nextH * 4)%nat 0) (seq 0 nextH) in
  {| floatSrc := nextBuf; srcW := nextW; srcH := nextH |}.

(** The [while] loop, run for at most [fuel] passes; [None] when the fuel
    is used up with the test still true. *)
Fixpoint pyramid (fuel : nat) (p : Pyramid) (targetWidth targetHeight : R)
  : option Pyramid :=
  if pyramidContinues p targetWidth targetHeight then
    match fuel with
    | O => None
    | S fuel' => pyramid fuel' (halve p) targetWidth targetHeight
    end
  else Some p.

(** *** C. Lanczos-3 taps (lines 253-280 and 298-317) *)

(** Lines 253-258. *)
Definition lanczos (x : R) : R :=
  if Req_dec_T x 0 then 1
  else if Rle_dec 3 (Rabs x) then 0
  else let px := PI * x in (sin px / px) * (sin (px / 3) / (px / 3)).

(** The state of the tap loop: [weights], [indices] and [weightSum]. *)
Definition TapState : Type := (list R * list Z * R)%type.

(** Lines 270-276 (and 307-313): the body of the loop over [k]. *)
Definition tapStep (center : R) (centerInt : Z) (srcSize : nat)
    (st : TapState) (k : nat) : TapState :=
  let '(weights, indices, weightSum) := st in
  let neighbor := (centerInt - 2 + Z.of_nat k)%Z in
  let w := lanczos (center - IZR neighbor) in
  (<[k := w]> weights,
   <[k := Z.min (Z.max neighbor 0) (Z.of_nat srcSize - 1)]> indices,
   weightSum + w).

Definition rawTaps (center : R) (srcSize : nat) : TapState :=
  foldl (tapStep center (Zfloor center) srcSize)
        (replicate 6 0, replicate 6 0%Z, 0) (seq 0 6).

(** Lines 278-280 (and 315-317).  The second component lists the divisor of
    every division the loop performs, in order. *)
Definition renormalize (weights : list R) (weightSum : R) : list R * list R :=
  if Req_dec_T weightSum 0 then (weights, [])
  else foldl (fun '(ws, divs) k =>
                (<[k := sample ws k / weightSum]> ws, divs ++ [weightSum]))
             (weights, []) (seq 0 6).

Record Taps : Type := {
  weights : list R;
  indices : list Z;
  divisors : list R
}.

(** Lines 263-264 (and 300-301): the continuous source centre. *)
Definition tapCenter (srcSize targetSize out : nat) : R :=
  let ratio := INR srcSize / INR targetSize in
  (INR out + 0.5) * ratio - 0.5.

(** The taps of output coordinate [out] along an axis.  The horizontal
    pass runs this code with [srcW], [targetWidth] and [x], the vertical
    pass with [srcH], [targetHeight] and [y]. *)
Definition taps (srcSize targetSize out : nat) : Taps :=
  let '(ws, idx, weightSum) := rawTaps (tapCenter srcSize targetSize out) srcSize in
  let '(ws', divs) := renormalize ws weightSum in
  {| weights := ws'; indices := idx; divisors := divs |}.

Definition Rsum (l : list R) : R := foldr Rplus 0 l.

Definition tapIndex (t : Taps) (k : nat) : nat :=
  Z.to_nat (default 0%Z (indices t !! k)).

(** *** Pass 1: horizontal (lines 261-295) *)

(** Lines 283-291: channel [c] of the weighted sum over the six taps. *)
Definition horizontalSum (src : list R) (w : nat) (t : Taps) (y c : nat) : R :=
  foldl (fun acc k =>
           let off := (y * w * 4 + tapIndex t k * 4)%nat in
           acc + sample src (off + c)%nat * sample (weights t) k)
        0 (seq 0 6).

Definition horizontalPixel (src : list R) (w targetWidth : nat) (t : Taps)
    (x : nat) (tmpBuffer : list R) (y : nat) : list R :=
  store4 tmpBuffer ((y * targetWidth + x) * 4)%nat
    (horizontalSum src w t y 0) (horizontalSum src w t y 1)
    (horizontalSum src w t y 2) (horizontalSum src w t y 3).

Definition horizontalPass (src : list R) (w h targetWidth : nat) : list R :=
  foldl (fun tmp x =>
           foldl (horizontalPixel src w targetWidth (taps w targetWidth x) x)
                 tmp (seq 0 h))
        (replicate (targetWidth * h * 4)%nat 0) (seq 0 targetWidth).

(** *** Pass 2: vertical, with D. clamp, dither and quantisation
        (lines 298-341) *)

(** The conversion of a store into a [Uint8ClampedArray]: clamp to
    [0, 255], then round to the nearest integer, ties to even. *)
Definition ToUint8Clamp (v : R) : Z :=
  let clamped := Rmin (Rmax v 0) 255 in
  let f := Zfloor clamped in
  if Rlt_dec clamped (IZR f + 0.5) then f
  else if Rlt_dec (IZR f + 0.5) clamped then (f + 1)%Z
  else if Z.even f then f else (f + 1)%Z.

(** Lines 320-327: channel [c] of the weighted sum over the six taps. *)
Definition verticalSum (tmpBuffer : list R) (targetWidth : nat) (t : Taps)
    (x c : nat) : R :=
  foldl (fun acc k =>
           let off := ((tapIndex t k * targetWidth + x) * 4)%nat in
           acc + sample tmpBuffer (off + c)%nat * sample (weights t) k)
        0 (seq 0 6).

Section Dither.

(** [rand n] is what the [n]-th call of [Math.random] returns; the number
    of calls made so far is threaded through the pass. *)
Variable rand : nat -> R.

Definition Math_random (n : nat) : R * nat := (rand n, S n).

(** Line 330. *)
Definition drawDither (n : nat) : R * nat :=
  let '(u, n) := Math_random n in
  let '(v, n) := Math_random n in
  (u + v - 1.0, n).

(** Lines 320-339: the body of the inner loop. *)
Definition verticalPixel (tmpBuffer : list R) (targetWidth : nat) (t : Taps)
    (y : nat) (st : list Z * nat) (x : nat) : list Z * nat :=
  let '(finalData, n) := st in
  let r := verticalSum tmpBuffer targetWidth t x 0 in
  let g := verticalSum tmpBuffer targetWidth t x 1 in
  let b := verticalSum tmpBuffer targetWidth t x 2 in
  let a := verticalSum tmpBuffer targetWidth t x 3 in
  let '(dither, n) := drawDither n in
  let dstIdx := ((y * targetWidth + x) * 4)%nat in
  let finalA := a + dither in
  (store4 finalData dstIdx
     (ToUint8Clamp (Rmin r a + dither))
     (ToUint8Clamp (Rmin g a + dither))
     (ToUint8Clamp (Rmin b a + dither))
     (ToUint8Clamp finalA),
   n).

(** Lines 298-341; [n] counts the calls of [Math.random] before the pass. *)
Definition verticalPass (tmpBuffer : list R) (h targetWidth targetHeight : nat)
    (n : nat) : list Z * nat :=
  foldl (fun st y =>
           foldl (verticalPixel tmpBuffer targetWidth (taps h targetHeight y) y)
                 st (seq 0 targetWidth))
        (replicate (targetWidth * targetHeight * 4)%nat 0%Z, n)
        (seq 0 targetHeight).

(** Stages B to D on the raw bytes of a [w] x [h] image. *)
Definition resample (fuel : nat) (rawData : list Z) (w h : nat)
    (targetWidth targetHeight : nat) (n : nat) : option (list Z * nat) :=
  match pyramid fuel {| floatSrc := IZR <$> rawData; srcW := w; srcH := h |}
                (INR targetWidth) (INR targetHeight) with
  | None => None
  | Some p =>
      let tmpBuffer := horizontalPass (floatSrc p) (srcW p) (srcH p) targetWidth in
      Some (verticalPass tmpBuffer (srcH p) targetWidth targetHeight n)
  end.

End Dither.

(** The dither of the pixel that is drawn after [n] calls of [Math.random]. *)
Definition ditherAt (rand : nat -> R) (n : nat) : R := (drawDither rand n).1.

(** Channel [c] of the pixel at column [x], row [y] of a row-major RGBA
    buffer that is [w] pixels wide. *)
Definition pixelAt (buf : list R) (w x y c : nat) : R :=
  sample buf ((y * w + x) * 4 + c)%nat.

(** The four bytes of the pixel at column [x], row [y] in the output. *)
Definition bytesAt (buf : list Z) (w x y : nat)
  : option Z * option Z * option Z * option Z :=
  let i := ((y * w + x) * 4)%nat in
  (buf !! i, buf !! (i + 1)%nat, buf !! (i + 2)%nat, buf !! (i + 3)%nat).

(** A buffer of at least 1 x 1 pixels with four samples per pixel. *)
Definition wellFormed (p : Pyramid) : Prop :=
  (1 <= srcW p)%nat /\ (1 <= srcH p)%nat /\
  length (floatSrc p) = (srcW p * srcH p * 4)%nat.

(** The test of the pyramid loop is false. *)
Definition withinTwice (p : Pyramid) (targetWidth targetHeight : R) : Prop :=
  INR (srcW p) <= 2 * targetWidth \/ INR (srcH p) <= 2 * targetHeight.

(** *** The stages for any real target size (lines 249-341)

    What follows models the same lines for a target width and height that
    are real numbers, integral or not. *)

(** A number of the two passes: a real, or NaN ([None]).  NaN comes from
    a read outside a typed array: the read gives [undefined], and
    [undefined * w] is NaN. *)
Definition num : Type := option R.

Definition num_add (a b : num) : num :=
  match a, b with Some u, Some v => Some (u + v) | _, _ => None end.

Definition num_mul (a b : num) : num :=
  match a, b with Some u, Some v => Some (u * v) | _, _ => None end.

(** [Math.min(a, b)]: NaN when an argument is NaN. *)
Definition num_min (a b : num) : num :=
  match a, b with Some u, Some v => Some (Rmin u v) | _, _ => None end.

(** The conversion of a store into a [Uint8ClampedArray]; NaN is stored
    as 0. *)
Definition ToUint8ClampNum (v : num) : Z :=
  match v with Some r => ToUint8Clamp r | None => 0%Z end.

(** [ToIntegerOrInfinity] on a real: rounding towards zero. *)
Definition truncate (x : R) : Z :=
  if Rle_dec 0 x then Zfloor x else Zceil x.

(** The length of [new Float32Array(x)] and [new Uint8ClampedArray(x)] for
    a number [x] ([ToIndex]); a negative integer part is a [RangeError],
    here [None]. *)
Definition arrayLength (x : R) : option nat :=
  if (truncate x <? 0)%Z then None else Some (Z.to_nat (truncate x)).

(** The element a numeric key [i] names in a typed array of [len]
    elements: [i] has to be an integer with [0 <= i < len]. *)
Definition validIndex (len : nat) (i : R) : option nat :=
  if Req_dec_T (IZR (Zfloor i)) i then
    if ((0 <=? Zfloor i) && (Zfloor i <? Z.of_nat len))%Z
    then Some (Z.to_nat (Zfloor i)) else None
  else None.

(** [buf[i]] used in arithmetic: the element, and NaN when [i] names
    none. *)
Definition getAt (buf : list num) (i : R) : num :=
  match validIndex (length buf) i with
  | Some n => default None (buf !! n)
  | None => None
  end.

(** [buf[i] = v]: a store that names no element does nothing. *)
Definition setAt {A : Type} (buf : list A) (i : R) (v : A) : list A :=
  match validIndex (length buf) i with
  | Some n => <[n := v]> buf
  | None => buf
  end.

(** [floatSrc[i]] for an integer [i], used in arithmetic. *)
Definition readAt (buf : list R) (i : Z) : num :=
  if (0 <=? i)%Z then buf !! Z.to_nat i else None.

(** Four stores [buf[base] = v0; ...; buf[base+3] = v3]. *)
Definition store4At {A : Type} (buf : list A) (base : R) (v0 v1 v2 v3 : A)
  : list A :=
  setAt (setAt (setAt (setAt buf base v0) (base + 1) v1) (base + 2) v2)
        (base + 3) v3.

(** The number of passes of [for (let x = 0; x < bound; x++)]. *)
Definition loopCount (bound : R) : nat := Z.to_nat (Zceil bound).

(** Lines 261-264 (and 298-301) for a real target size. *)
Definition tapCenterAt (srcSize : nat) (targetSize : R) (out : nat) : R :=
  let ratio := INR srcSize / targetSize in
  (INR out + 0.5) * ratio - 0.5.

(** The taps around a centre (lines 264-280 and 301-317). *)
Definition tapsAround (center : R) (srcSize : nat) : Taps :=
  let '(ws, idx, weightSum) := rawTaps center srcSize in
  let '(ws', divs) := renormalize ws weightSum in
  {| weights := ws'; indices := idx; divisors := divs |}.

Definition tapsAt (srcSize : nat) (targetSize : R) (out : nat) : Taps :=
  tapsAround (tapCenterAt srcSize targetSize out) srcSize.

(** [indices[k]], an integer from -1 on. *)
Definition tapIndexZ (t : Taps) (k : nat) : Z := default 0%Z (indices t !! k).

(** Lines 283-291. *)
Definition horizontalSumAt (src : list R) (w : nat) (t : Taps) (y c : nat)
  : num :=
  foldl (fun acc k =>
           let off := (Z.of_nat (y * w * 4) + tapIndexZ t k * 4)%Z in
           num_add acc (num_mul (readAt src (off + Z.of_nat c))
                                (Some (sample (weights t) k))))
        (Some 0) (seq 0 6).

(** Lines 282-294. *)
Definition horizontalPixelAt (src : list R) (w : nat) (targetWidth : R)
    (t : Taps) (x : nat) (tmpBuffer : list num) (y : nat) : list num :=
  store4At tmpBuffer ((INR y * targetWidth + INR x) * 4)
    (horizontalSumAt src w t y 0) (horizontalSumAt src w t y 1)
    (horizontalSumAt src w t y 2) (horizontalSumAt src w t y 3).

(** Lines 261-295 on a [tmpBuffer] of [len] elements. *)
Definition horizontalPassAt (src : list R) (w h : nat) (targetWidth : R)
    (len : nat) : list num :=
  foldl (fun tmp x =>
           foldl (horizontalPixelAt src w targetWidth (tapsAt w targetWidth x) x)
                 tmp (seq 0 h))
        (replicate len (Some 0)) (seq 0 (loopCount targetWidth)).

(** Lines 320-327. *)
Definition verticalSumAt (tmpBuffer : list num) (targetWidth : R) (t : Taps)
    (x c : nat) : num :=
  foldl (fun acc k =>
           let off := (IZR (tapIndexZ t k) * targetWidth + INR x) * 4 in
           num_add acc (num_mul (getAt tmpBuffer (off + INR c))
                                (Some (sample (weights t) k))))
        (Some 0) (seq 0 6).

(** Lines 336-339: the four values one pass of the inner loop stores, from
    the sums [r], [g], [b], [a] and the dither [d]. *)
Definition quantised (r g b a : num) (d : R) : Z * Z * Z * Z :=
  (ToUint8ClampNum (num_add (num_min r a) (Some d)),
   ToUint8ClampNum (num_add (num_min g a) (Some d)),
   ToUint8ClampNum (num_add (num_min b a) (Some d)),
   ToUint8ClampNum (num_add a (Some d))).

(** Lines 320-339. *)
Definition verticalPixelAt (rand : nat -> R) (tmpBuffer : list num)
    (targetWidth : R) (t : Taps) (y : nat) (st : list Z * nat) (x : nat)
  : list Z * nat :=
  let '(finalData, n) := st in
  let r := verticalSumAt tmpBuffer targetWidth t x 0 in
  let g := verticalSumAt tmpBuffer targetWidth t x 1 in
  let b := verticalSumAt tmpBuffer targetWidth t x 2 in
  let a := verticalSumAt tmpBuffer targetWidth t x 3 in
  let '(dither, n) := drawDither rand n in
  let dstIdx := (INR y * targetWidth + INR x) * 4 in
  let '(qr, qg, qb, qa) := quantised r g b a dither in
  (store4At finalData dstIdx qr qg qb qa, n).

(** One row of the vertical pass, up to column [x]. *)
Definition verticalRow (rand : nat -> R) (tmpBuffer : list num) (h : nat)
    (targetWidth targetHeight : R) (st : list Z * nat) (y x : nat)
  : list Z * nat :=
  foldl (verticalPixelAt rand tmpBuffer targetWidth (tapsAt h targetHeight y) y)
        st (seq 0 x).

(** The state of the vertical pass when it takes up column [x] of row
    [y]: [finalData] and the number of calls of [Math.random] so far. *)
Definition verticalBefore (rand : nat -> R) (tmpBuffer : list num) (h : nat)
    (targetWidth targetHeight : R) (len n : nat) (y x : nat) : list Z * nat :=
  verticalRow rand tmpBuffer h targetWidth targetHeight
    (foldl (fun st y' =>
              verticalRow rand tmpBuffer h targetWidth targetHeight st y'
                (loopCount targetWidth))
           (replicate len 0%Z, n) (seq 0 y))
    y x.

(** Lines 298-341 on a [finalData] of [len] elements. *)
Definition verticalPassAt (rand : nat -> R) (tmpBuffer : list num) (h : nat)
    (targetWidth targetHeight : R) (len n : nat) : list Z * nat :=
  verticalBefore rand tmpBuffer h targetWidth targetHeight len n
    (loopCount targetHeight) 0.

(** How stages B to D end: with [finalData] and the number of calls of
    [Math.random], with the [RangeError] of a typed-array constructor given
    a negative length, or not within [fuel] passes of the pyramid. *)
Inductive StagesResult : Type :=
| Done (finalData : list Z) (draws : nat)
| RangeError
| StillRunning.

(** Lines 212-341 on the raw bytes of a [w] x [h] image. *)
Definition resampleAt (rand : nat -> R) (fuel : nat) (rawData : list Z)
    (w h : nat) (targetWidth targetHeight : R) (n : nat) : StagesResult :=
  match pyramid fuel {| floatSrc := IZR <$> rawData; srcW := w; srcH := h |}
                targetWidth targetHeight with
  | None => StillRunning
  | Some p =>
      match arrayLength (targetWidth * INR (srcH p) * 4),
            arrayLength (targetWidth * targetHeight * 4) with
      | Some tmpLen, Some finalLen =>
          let tmpBuffer :=
            horizontalPassAt (floatSrc p) (srcW p) (srcH p) targetWidth tmpLen in
          let out :=
            verticalPassAt rand tmpBuffer (srcH p) targetWidth targetHeight
              finalLen n in
          Done out.1 out.2
      | _, _ => RangeError
      end
  end.


End Resample.

(** ** [resizeImage] as a whole, and [generateOptimizedZip] *)

Module Packager.
Import JsNumber Sizing.

(** How a call completes: it returns a value or throws. *)
Inductive outcome (A : Type) : Type :=
| Returned (a : A)
| Thrown (e : string).
Arguments Returned {A} a.
Arguments Thrown {A} e.

(** An [ImageBitmap]. *)
Record ImageBitmap : Type := {
  bitmapWidth : nat;
  bitmapHeight : nat;
  bitmapHandle : Blob
}.

(** The natural number a [number] is, if it is one. *)
Definition toSize (x : number) : option nat :=
  match x with
  | S754_zero _ => Some 0
  | S754_finite false m e =>
      if (0 <=? e)%Z then Some (Z.to_nat (Z.shiftl (Z.pos m) e))
      else
        let q := Z.shiftr (Z.pos m) (- e) in
        if (Z.shiftl q (- e) =? Z.pos m)%Z then Some (Z.to_nat q) else None
  | _ => None
  end.

(** The real a [number] is, if it is finite. *)
Definition toReal (x : number) : option R :=
  match x with
  | S754_zero _ => Some 0%R
  | S754_finite s m e =>
      Some ((if s then - IZR (Z.pos m) else IZR (Z.pos m)) * powerRZ 2 e)%R
  | _ => None
  end.

Section Browser.

(** The state of everything outside the program: the browser, the GPU, the
    random generator. *)
Variable World : Type.

(** A computation that reads and changes the world and may throw. *)
Definition M (A : Type) : Type := World -> outcome A * World.

Definition ret {A : Type} (a : A) : M A := fun w => (Returned a, w).

Definition throw {A : Type} (e : string) : M A := fun w => (Thrown e, w).

Definition bind {A B : Type} (c : M A) (k : A -> M B) : M B :=
  fun w =>
    match c w with
    | (Returned a, w') => k a w'
    | (Thrown e, w') => (Thrown e, w')
    end.

Notation "x <- c ;; k" := (bind c (fun x => k))
  (at level 100, c at next level, right associativity).

(** The calls [resizeImage] makes into its environment.
    - [createImageBitmap]: decoding; a rejected promise is a throw at the
      [await].
    - [getContext]: whether [canvas.getContext('webgl2', ...)] gives a
      context.
    - [readPixels]: the bytes read back by [gl.readPixels].
    - [allocationFails]: whether a typed-array constructor of stages B to D
      throws a [RangeError] for these sizes; [allocationFailsAt] is the
      same for target sizes that are not both natural numbers.
    - [randomValues w n]: what the [n]-th call of [Math.random] from world
      [w] on returns, and [afterRandom n w]: the world after [n] calls.
    - [otherSizes]: stages B to D where the model does not follow them: a
      target size that is NaN or infinite, and two negative target sizes,
      for which the pyramid loop of the source does not end.
    - [toBlob]: the PNG encoding by [canvas.toBlob], which may give
      [null]. *)
Record Browser : Type := {
  createImageBitmap : Blob -> M ImageBitmap;
  getContext : M bool;
  readPixels : ImageBitmap -> nat -> nat -> M (list Z);
  allocationFails : nat -> nat -> nat -> nat -> M bool;
  allocationFailsAt : nat -> nat -> number -> number -> M bool;
  randomValues : World -> nat -> R;
  afterRandom : nat -> World -> World;
  otherSizes : list Z -> nat -> nat -> number -> number -> M (list Z);
  toBlob : list Z -> number -> number -> M (option Blob)
}.

Variable env : Browser.

(** Lines 105-136. *)
Definition getRawBytesViaWebGL (img : ImageBitmap) (width height : nat)
  : M (option (list Z)) :=
  gl <- getContext env ;;
  if negb gl then ret None
  else
    data <- readPixels env img width height ;;
    ret (Some data).

(** Lines 139-194. *)
Definition exportBytesViaWebGL (data : list Z) (width height : number)
  : M (option Blob) :=
  gl <- getContext env ;;
  if negb gl then ret None
  else toBlob env data width height.

(** Lines 211-341: stages B to D.  For natural target sizes they are
    [Resample.resample], with the draws of [Math.random] taken from the
    world; [srcW] passes are enough for the pyramid (see
    [ResampleFacts.resample_total]), so the branch for a loop that runs on
    is never taken.  For other finite target sizes, such as the 1.5 an
    overridden stat may ask for, they are [Resample.resampleAt];
    [srcW + srcH] passes are enough for the pyramid unless both sizes are
    negative, and then the loop of the source does not end (see
    [NumericStagesFacts.resampleAt_returns] and
    [NumericStagesFacts.pyramid_runs_on]). *)
Definition numericStages (rawData : list Z) (srcW srcH : nat)
    (targetWidth targetHeight : number) : M (list Z) :=
  match toSize targetWidth, toSize targetHeight with
  | Some tw, Some th =>
      failed <- allocationFails env srcW srcH tw th ;;
      if failed : bool then throw "RangeError"
      else fun w =>
        match Resample.resample (randomValues env w) srcW rawData srcW srcH tw th 0 with
        | Some (finalData, n) => (Returned finalData, afterRandom env n w)
        | None => (Thrown "pyramid loop still running", w)
        end
  | _, _ =>
      match toReal targetWidth, toReal targetHeight with
      | Some tw, Some th =>
          failed <- allocationFailsAt env srcW srcH targetWidth targetHeight ;;
          if failed : bool then throw "RangeError"
          else fun w =>
            match Resample.resampleAt (randomValues env w) (srcW + srcH)
                    rawData srcW srcH tw th 0 with
            | Resample.Done finalData n =>
                (Returned finalData, afterRandom env n w)
            | Resample.RangeError => (Thrown "RangeError", w)
            | Resample.StillRunning =>
                otherSizes env rawData srcW srcH targetWidth targetHeight w
            end
      | _, _ => otherSizes env rawData srcW srcH targetWidth targetHeight
      end
  end.

(** Lines 199-344: the body of the [try]. *)
Definition resizeImageBody (blob : Blob) (targetWidth targetHeight : number)
  : M (option Blob) :=
  img <- createImageBitmap env blob ;;
  rawData <- getRawBytesViaWebGL img (bitmapWidth img) (bitmapHeight img) ;;
  let srcW := bitmapWidth img in
  let srcH := bitmapHeight img in
  match rawData with
  | None => throw "WebGL Import Failed"
  | Some rawData =>
      finalData <- numericStages rawData srcW srcH targetWidth targetHeight ;;
      exportBytesViaWebGL finalData targetWidth targetHeight
  end.

(** Lines 197-347: [catch(e) { ...; return null; }] turns every throw into
    [null]. *)
Definition resizeImage (blob : Blob) (targetWidth targetHeight : number)
    (w : World) : option Blob * World :=
  match resizeImageBody blob targetWidth targetHeight w with
  | (Returned result, w') => (result, w')
  | (Thrown _, w') => (None, w')
  end.

(** *** JSZip

    JSZip is a library the program calls; of its behaviour the model keeps
    that a folder handle is a name prefix over the files of its archive and
    that [file(name, data)] sets the entry [prefix + name], replacing an
    entry of that name.  The directory entries JSZip adds are left out. *)
Abbreviation Archive := (gmap string Blob).

Definition JSZip_folder (root name : string) : option string :=
  Some (root +:+ name +:+ "/").

Definition JSZip_file (folder name : string) (data : Blob) (files : Archive)
  : Archive :=
  <[folder +:+ name := data]> files.

(** *** [generateOptimizedZip] *)

(** The state of the loop: the archive, [completed], the calls of
    [onProgress] and of [resizeImage] made so far, and the world. *)
Record ZipRun : Type := {
  files : Archive;
  completed : nat;
  progress : list (nat * nat);
  resizeCalls : list (Blob * number * number);
  world : World
}.

(** The bytes the pass stores for a task in state [st]. *)
Definition storedBytes (st : ZipRun) (task : OptimizationTask) : Blob :=
  if isResize task then
    match (resizeImage (blob task) (targetWidth task) (targetHeight task)
             (world st)).1 with
    | Some resized => resized
    | None => blob task
    end
  else blob task.

(** Lines 361-379: the body of the loop for one task. *)
Definition processTask (rootFolder : string) (total : nat) (st : ZipRun)
    (task : OptimizationTask) : ZipRun :=
  let zipEntryName := fileName task in
  let '(files', calls', world') :=
    if isResize task then
      let '(resizedBlob, w') :=
        resizeImage (blob task) (targetWidth task) (targetHeight task) (world st) in
      let calls' :=
        resizeCalls st ++ [(blob task, targetWidth task, targetHeight task)] in
      match resizedBlob with
      | Some resized => (JSZip_file rootFolder zipEntryName resized (files st), calls', w')
      | None => (JSZip_file rootFolder zipEntryName (blob task) (files st), calls', w')
      end
    else
      (JSZip_file rootFolder zipEntryName (blob task) (files st), resizeCalls st, world st) in
  let completed' := S (completed st) in
  {| files := files'; completed := completed';
     progress := progress st ++ [(completed', total)];
     resizeCalls := calls'; world := world' |}.

(** Lines 358-380: the loop; [break] when there is no root folder. *)
Definition runTasks (rootFolder : option string) (total : nat)
    (tasks : list OptimizationTask) (st : ZipRun) : ZipRun :=
  match rootFolder with
  | None => st
  | Some root => foldl (processTask root total) st tasks
  end.

Definition initialRun (w : World) : ZipRun :=
  {| files := ∅; completed := 0; progress := []; resizeCalls := [];
     world := w |}.

(** Lines 353-382.  The result is the state the archive is generated
    from. *)
Definition generateOptimizedZip (tasks : list OptimizationTask) (w : World)
  : ZipRun :=
  let rootFolder := JSZip_folder "" "images_optimized" in
  runTasks rootFolder (length tasks) tasks (initialRun w).

(** The state in which task number [i] of the list is taken up. *)
Definition stateBefore (tasks : list OptimizationTask) (w : World) (i : nat)
  : ZipRun :=
  runTasks (JSZip_folder "" "images_optimized") (length tasks) (take i tasks)
    (initialRun w).

(** The archive entry of a task. *)
Definition entryName (task : OptimizationTask) : string :=
  "images_optimized/" +:+ fileName task.

(** No task after number [i] has the file name of [task]. *)
Definition lastOfItsName (tasks : list OptimizationTask) (i : nat)
    (task : OptimizationTask) : Prop :=
  forall j task', i < j -> tasks !! j = Some task' ->
    fileName task' <> fileName task.

End Browser.

Arguments M World A : clear implicits.
Arguments ret {World A} a.
Arguments throw {World A} e.
Arguments bind {World A B} c k.
Arguments Browser World : clear implicits.
Arguments createImageBitmap {World} b.
Arguments getContext {World} b.
Arguments readPixels {World} b.
Arguments allocationFails {World} b.
Arguments allocationFailsAt {World} b.
Arguments randomValues {World} b.
Arguments afterRandom {World} b.
Arguments otherSizes {World} b.
Arguments toBlob {World} b.
Arguments getRawBytesViaWebGL {World} env img width height.
Arguments numericStages {World} env rawData srcW srcH targetWidth targetHeight.
Arguments exportBytesViaWebGL {World} env data width height.
Arguments resizeImageBody {World} env blob targetWidth targetHeight.
Arguments resizeImage {World} env blob targetWidth targetHeight w.
Arguments ZipRun World : clear implicits.
Arguments files {World} z.
Arguments completed {World} z.
Arguments progress {World} z.
Arguments resizeCalls {World} z.
Arguments world {World} z.
Arguments storedBytes {World} env st task.
Arguments processTask {World} env rootFolder total st task.
Arguments runTasks {World} env rootFolder total tasks st.
Arguments initialRun {World} w.
Arguments generateOptimizedZip {World} env tasks w.
Arguments stateBefore {World} env tasks w i.

(** *** Sample environments and tasks *)

(** A browser in which decoding always fails. *)
Definition brokenBrowser : Browser unit :=
  {| createImageBitmap := fun _ => throw "InvalidStateError";
     getContext := ret true;
     readPixels := fun _ _ _ => ret [];
     allocationFails := fun _ _ _ _ => ret false;
     allocationFailsAt := fun _ _ _ _ => ret false;
     randomValues := fun _ _ => 0%R;
     afterRandom := fun _ w => w;
     otherSizes := fun _ _ _ _ _ => ret [];
     toBlob := fun _ _ _ => ret None |}.

(** Two sources, [arm.jpg] (100 x 100, shown at 20 x 30) and [arm.png]
    (8 x 8, shown at full size), in one folder. *)
Definition armJpg : LoadedImage :=
  {| width := of_Z 100; height := of_Z 100;
     sourceWidth := None; sourceHeight := None;
     file := [Byte.x01]; originalPath := "arm.jpg" |}.

Definition armPng : LoadedImage :=
  {| width := of_Z 8; height := of_Z 8;
     sourceWidth := None; sourceHeight := None;
     file := [Byte.x02]; originalPath := "arm.png" |}.

Definition collidingTasks : list OptimizationTask :=
  calculateOptimizationTargets
    [sampleStat "arm.jpg" 20 30; sampleStat "arm.png" 8 8]
    [("arm.jpg", armJpg); ("arm.png", armPng)] None.

Definition fallbackTasks : list OptimizationTask :=
  calculateOptimizationTargets
    [sampleStat "arm.jpg" 20 30] [("arm.jpg", armJpg)] None.

Definition copiedTasks : list OptimizationTask :=
  calculateOptimizationTargets
    [sampleStat "arm.jpg" 100 100; sampleStat "arm.png" 8 8]
    [("arm.jpg", armJpg); ("arm.png", armPng)] None.

End Packager.

(** ** Vocabulary for further properties *)

Module Vocabulary.
Import JsNumber Sizing Resample.

(** The character [c] occurs in [s]. *)
Fixpoint occurs (c : ascii) (s : string) : bool :=
  match s with
  | EmptyString => false
  | String a s' => Ascii.eqb a c || occurs c s'
  end.

(** A name with no dot and no path separator in it. *)
Definition plainName (s : string) : Prop :=
  occurs "." s = false /\ occurs "/" s = false /\ occurs "\" s = false.

(** An extension: no dot and no path separator in it. *)
Definition extensionLike (s : string) : Prop := plainName s.

(** A directory prefix: empty, or ending in a path separator. *)
Definition directoryPrefix (d : string) : Prop :=
  d = "" \/ exists d', d = d' +:+ "/" \/ d = d' +:+ "\".

(** A value a [Uint8ClampedArray] can hold. *)
Definition isByte (v : Z) : Prop := (0 <= v <= 255)%Z.

(** The raw sum of the six weights at an output coordinate. *)
Definition rawWeightSum (srcSize targetSize out : nat) : R :=
  (rawTaps (tapCenter srcSize targetSize out) srcSize).2.

(** Channel [c] has the value [v] at every pixel of the [w] x [h] buffer. *)
Definition uniformChannel (buf : list R) (w h c : nat) (v : R) : Prop :=
  forall x y, x < w -> y < h -> pixelAt buf w x y c = v.

(** Every pixel of the [w] x [h] buffer has the colour [colour], given by
    channel. *)
Definition flat (buf : list R) (w h : nat) (colour : nat -> R) : Prop :=
  forall x y c, x < w -> y < h -> c < 4 -> pixelAt buf w x y c = colour c.

End Vocabulary.

(** ** A sample image *)

Module ResampleSamples.

Import Resample.

(** The raw bytes of an opaque white image of 3 x 2 pixels. *)
Definition opaqueSource : list Z := replicate (3 * 2 * 4) 255%Z.

(** The raw bytes of an opaque white image of 9 x 9 pixels, the image as
    the pyramid takes it up, and the image after one pass of the pyramid,
    4 x 4 pixels. *)
Definition whiteSquare : list Z := replicate (9 * 9 * 4) 255%Z.

Definition whiteSquareSource : Pyramid :=
  {| floatSrc := IZR <$> whiteSquare; srcW := 9; srcH := 9 |}.

Definition whiteSquareHalved : Pyramid := halve whiteSquareSource.

End ResampleSamples.

(** ** More sample environments *)

Module PackagerSamples.
Import JsNumber Sizing Packager.

(** A browser in which every call succeeds: an image decodes to a bitmap
    of 1 x 1 pixels, the pixel reads as (10, 20, 30, 255), and the encoder
    returns a blob of one byte. *)
Definition workingBrowser : Browser unit :=
  {| createImageBitmap := fun b =>
       ret {| bitmapWidth := 1; bitmapHeight := 1; bitmapHandle := b |};
     getContext := ret true;
     readPixels := fun _ _ _ => ret [10; 20; 30; 255]%Z;
     allocationFails := fun _ _ _ _ => ret false;
     allocationFailsAt := fun _ _ _ _ => ret false;
     randomValues := fun _ _ => 0%R;
     afterRandom := fun _ w => w;
     otherSizes := fun _ _ _ _ _ => throw "RangeError";
     toBlob := fun _ _ _ => ret (Some [Byte.x89]) |}.

(** The same browser without WebGL2: [getContext] gives no context. *)
Definition noWebGL : Browser unit :=
  {| createImageBitmap := createImageBitmap workingBrowser;
     getContext := ret false;
     readPixels := readPixels workingBrowser;
     allocationFails := allocationFails workingBrowser;
     allocationFailsAt := allocationFailsAt workingBrowser;
     randomValues := randomValues workingBrowser;
     afterRandom := afterRandom workingBrowser;
     otherSizes := otherSizes workingBrowser;
     toBlob := toBlob workingBrowser |}.

(** The archive that holds the blob of every task under the task's entry
    name, a later task replacing an earlier one of the same name. *)
Definition originalsArchive (tasks : list OptimizationTask)
  : gmap string Blob :=
  foldl (fun m t => <[entryName t := blob t]> m) ∅ tasks.

(** Two sources whose output names differ: [arm.jpg] (100 x 100, shown at
    20 x 30) and [leg.png] (8 x 8, shown at full size). *)
Definition legPng : LoadedImage :=
  {| width := of_Z 8; height := of_Z 8;
     sourceWidth := None; sourceHeight := None;
     file := [Byte.x03]; originalPath := "leg.png" |}.

Definition distinctTasks : list OptimizationTask :=
  calculateOptimizationTargets
    [sampleStat "arm.jpg" 20 30; sampleStat "leg.png" 8 8]
    [("arm.jpg", armJpg); ("leg.png", legPng)] None.

(** An overridden stat that asks for 1.5 x 2 pixels, the opaque white
    image of 3 x 2 pixels it is for, and a browser that decodes this image
    and draws 0 at every call of [Math.random]. *)
Definition fractionalStat : GlobalAssetStat :=
  {| lookupKey := "dot.png";
     maxRenderWidth := div (of_Z 3) (of_Z 2); maxRenderHeight := of_Z 2;
     maxScaleX := of_Z 1; maxScaleY := of_Z 1;
     isOverridden := true; overridePercentage := Some (of_Z 50) |}.

Definition opaqueImage : LoadedImage :=
  {| width := of_Z 3; height := of_Z 2;
     sourceWidth := None; sourceHeight := None;
     file := [Byte.x04]; originalPath := "dot.png" |}.

Definition fractionalTasks : list OptimizationTask :=
  calculateOptimizationTargets [fractionalStat] [("dot.png", opaqueImage)] None.

Definition opaqueBrowser : Browser unit :=
  {| createImageBitmap := fun b =>
       ret {| bitmapWidth := 3; bitmapHeight := 2; bitmapHandle := b |};
     getContext := ret true;
     readPixels := fun _ _ _ => ret ResampleSamples.opaqueSource;
     allocationFails := fun _ _ _ _ => ret false;
     allocationFailsAt := fun _ _ _ _ => ret false;
     randomValues := fun _ _ => 0%R;
     afterRandom := fun _ w => w;
     otherSizes := fun _ _ _ _ _ => throw "RangeError";
     toBlob := fun _ _ _ => ret (Some [Byte.x89]) |}.

End PackagerSamples.

(** ** Facts about numbers *)

Module JsNumberFacts.
Import JsNumber.

(** Order facts of [SFcompare] that the sizing proofs use. *)

Lemma SFcompare_refl (x : number) :
  is_nan x = false -> SFcompare x x = Some Eq.
Proof.
  destruct x as [s|s| |s m e]; simpl; try done.
  - by destruct s.
  - intros _. rewrite Z.compare_refl.
    change (Pos.compare_cont Eq m m) with (Pos.compare m m).
    rewrite Pos.compare_refl. by destruct s.
Qed.

Lemma SFcompare_nan_l (x y : number) :
  SFcompare x y = None -> is_nan x = true \/ is_nan y = true.
Proof.
  destruct x as [?|?| |? ? ?], y as [?|?| |? ? ?]; simpl; auto; discriminate.
Qed.

Lemma le_refl (x : number) : is_nan x = false -> le x x = true.
Proof. intros H. unfold le, SFleb. by rewrite SFcompare_refl. Qed.

Lemma le_not_nan (x y : number) :
  le x y = true -> is_nan x = false /\ is_nan y = false.
Proof.
  unfold le, SFleb.
  destruct x as [?|?| |? ? ?], y as [?|?| |? ? ?]; simpl; auto; discriminate.
Qed.

(** [Math.min] returns one of its arguments and is below the second. *)
Lemma Math_min_le_r (a b : number) :
  is_nan a = false -> is_nan b = false -> le (Math_min a b) b = true.
Proof.
  intros Ha Hb. unfold Math_min. rewrite Ha, Hb. simpl.
  destruct (SFcompare a b) as [[]|] eqn:E.
  - destruct a as [[]|?| |? ? ?]; try (by apply le_refl).
    unfold le, SFleb. by rewrite E.
  - unfold le, SFleb. by rewrite E.
  - by apply le_refl.
  - destruct (SFcompare_nan_l _ _ E); congruence.
Qed.

Lemma Math_min_not_nan (a b : number) :
  is_nan a = false -> is_nan b = false -> is_nan (Math_min a b) = false.
Proof.
  intros Ha Hb. unfold Math_min. rewrite Ha, Hb. simpl.
  destruct (SFcompare a b) as [[]|]; try done.
  all: by destruct a as [[]|?| |? ? ?].
Qed.

(** [Math.max(lo, x)] lies between [lo] and any bound of both. *)
Lemma Math_max_ge_l (lo x : number) :
  is_nan lo = false -> is_nan x = false -> le lo (Math_max lo x) = true.
Proof.
  intros Ha Hb. unfold Math_max. rewrite Ha, Hb. simpl.
  destruct (SFcompare lo x) as [[]|] eqn:E.
  - destruct lo as [[]|?| |? ? ?]; try (unfold le, SFleb; by rewrite E).
    by apply le_refl.
  - unfold le, SFleb. by rewrite E.
  - by apply le_refl.
  - destruct (SFcompare_nan_l _ _ E); congruence.
Qed.

Lemma Math_max_le (lo x hi : number) :
  is_nan x = false -> le lo hi = true -> le x hi = true ->
  le (Math_max lo x) hi = true.
Proof.
  intros Hx Hlo Hxh. destruct (le_not_nan _ _ Hlo) as [Hl _].
  unfold Math_max. rewrite Hl, Hx. simpl.
  destruct (SFcompare lo x) as [[]|]; try done.
  all: by destruct lo as [[]|?| |? ? ?].
Qed.

(** [Math.ceil] on 2.5, -2.5, -0.5, 1/3 and 7. *)
Example Math_ceil_samples :
  Math_ceil (div (of_Z 5) (of_Z 2)) = of_Z 3 /\
  Math_ceil (div (of_Z (-5)) (of_Z 2)) = of_Z (-2) /\
  Math_ceil (div (of_Z (-1)) (of_Z 2)) = S754_zero true /\
  Math_ceil (div (of_Z 1) (of_Z 3)) = of_Z 1 /\
  Math_ceil (of_Z 7) = of_Z 7.
Proof. repeat split; by vm_compute. Qed.

(** [100 * 1.1] is above 110 in binary64, so its ceiling is 111. *)
Example buffered_ceiling_rounds_up :
  Math_ceil (mul (of_Z 100) (add (of_Z 1) (div (of_Z 10) (of_Z 100)))) = of_Z 111.
Proof. by vm_compute. Qed.

(** In binary64 too, [0 + 0 - 1.0] is exactly -1. *)
Example dither_of_zero_draws :
  sub (add (of_Z 0) (of_Z 0)) (of_Z 1) = of_Z (-1).
Proof. by vm_compute. Qed.

Example Math_min_max_samples :
  Math_min (of_Z 200) (of_Z 100) = of_Z 100 /\
  Math_max (of_Z 1) (of_Z 0) = of_Z 1 /\
  Math_min NaN (of_Z 100) = NaN /\
  Math_max (of_Z 1) NaN = NaN /\
  Math_min (S754_zero false) (S754_zero true) = S754_zero true /\
  Math_max (S754_zero true) (S754_zero false) = S754_zero false.
Proof. repeat split; by vm_compute. Qed.

End JsNumberFacts.

(** ** Facts about the sizing policy *)

Module SizingFacts.
Import JsNumber JsNumberFacts Sizing.

(** *** The stats lookup *)

Lemma buildStatsMap_snoc (stats : list GlobalAssetStat) (s : GlobalAssetStat) :
  buildStatsMap (stats ++ [s]) = <[lookupKey s := s]> (buildStatsMap stats).
Proof. unfold buildStatsMap. by rewrite foldl_app. Qed.

Lemma buildStatsMap_Some (stats : list GlobalAssetStat) (k : string)
    (s : GlobalAssetStat) :
  buildStatsMap stats !! k = Some s -> s ∈ stats /\ lookupKey s = k.
Proof.
  induction stats as [|x stats IH] using rev_ind.
  - unfold buildStatsMap. simpl. by rewrite lookup_empty.
  - rewrite buildStatsMap_snoc.
    destruct (decide (lookupKey x = k)) as [<-|Hne].
    + rewrite lookup_insert_eq. intros [= <-].
      split; [|done]. apply elem_of_app. right. by apply list_elem_of_singleton.
    + rewrite lookup_insert_ne by done. intros H.
      destruct (IH H) as [Hin Hk]. split; [|done].
      apply elem_of_app. by left.
Qed.

Lemma buildStatsMap_None (stats : list GlobalAssetStat) (k : string) :
  buildStatsMap stats !! k = None <-> k ∉ (lookupKey <$> stats).
Proof.
  induction stats as [|x stats IH] using rev_ind.
  - unfold buildStatsMap. simpl. rewrite lookup_empty.
    split; [intros _; apply not_elem_of_nil | done].
  - rewrite buildStatsMap_snoc, fmap_app. simpl.
    rewrite not_elem_of_app, not_elem_of_cons.
    destruct (decide (lookupKey x = k)) as [<-|Hne].
    + rewrite lookup_insert_eq. split; [done | tauto].
    + rewrite lookup_insert_ne by done. rewrite IH.
      split; [intros H; repeat split; [done | congruence | apply not_elem_of_nil]
             | tauto].
Qed.

(** *** The [forEach] loop *)

Lemma forEach_tasks (statsMap : gmap string GlobalAssetStat) (b : number)
    (imgs : list (string * LoadedImage)) (acc : list OptimizationTask) :
  foldl (forEachBody statsMap b) acc imgs = acc ++ omap (taskOf statsMap b) imgs.
Proof.
  revert acc. induction imgs as [|[k o] imgs IH]; intros acc; simpl.
  - by rewrite app_nil_r.
  - rewrite IH. unfold taskOf. simpl.
    destruct (statsMap !! k); simpl; [by rewrite <- app_assoc | done].
Qed.

(** *** The sort *)

Lemma sortInsert_resize (x : OptimizationTask) (l : list OptimizationTask) :
  isResize x = true -> sortInsert compareTasks x l = x :: l.
Proof.
  intros Hx. destruct l as [|y l]; [done|]. simpl.
  unfold compareTasks. rewrite Hx. by destruct (isResize y).
Qed.

Lemma sortInsert_keep (x : OptimizationTask) (l1 l2 : list OptimizationTask) :
  isResize x = false ->
  Forall (fun t => isResize t = true) l1 ->
  Forall (fun t => isResize t = false) l2 ->
  sortInsert compareTasks x (l1 ++ l2) = l1 ++ x :: l2.
Proof.
  intros Hx H1 H2. induction H1 as [|y l1 Hy _ IH]; simpl.
  - destruct l2 as [|z l2]; [done|]. simpl. unfold compareTasks.
    apply Forall_cons in H2 as [Hz _]. by rewrite Hx, Hz.
  - unfold compareTasks at 1. rewrite Hx, Hy. simpl. by rewrite IH.
Qed.

(** The sort is the stable partition: tasks to resize, then the others,
    each group in discovery order. *)
Lemma Array_sort_partition (l : list OptimizationTask) :
  Array_sort compareTasks l =
  filter (fun t => isResize t = true) l ++ filter (fun t => isResize t = false) l.
Proof.
  induction l as [|x l IH]; [done|].
  unfold Array_sort in *. simpl. rewrite IH.
  destruct (isResize x) eqn:Hx.
  - rewrite sortInsert_resize by done.
    rewrite filter_cons_True by done. rewrite (filter_cons_False _ x) by congruence.
    done.
  - rewrite sortInsert_keep; try done.
    + rewrite filter_cons_False by congruence. by rewrite (filter_cons_True _ x).
    + apply Forall_forall. intros t Ht. by apply list_elem_of_filter in Ht as [? _].
    + apply Forall_forall. intros t Ht. by apply list_elem_of_filter in Ht as [? _].
Qed.

Lemma Array_sort_Permutation (l : list OptimizationTask) :
  Array_sort compareTasks l ≡ₚ l.
Proof.
  rewrite Array_sort_partition.
  induction l as [|x l IH]; [done|].
  destruct (isResize x) eqn:Hx.
  - rewrite filter_cons_True by done. rewrite (filter_cons_False _ x) by congruence.
    simpl. by rewrite IH.
  - rewrite filter_cons_False by congruence. rewrite (filter_cons_True _ x) by done.
    rewrite <- Permutation_middle. by rewrite IH.
Qed.

(** The returned list holds the tasks of the images that have a stat. *)
Lemma calculate_Permutation (stats : list GlobalAssetStat)
    (imgs : list (string * LoadedImage)) (b : option number) :
  calculateOptimizationTargets stats imgs b
  ≡ₚ omap (taskOf (buildStatsMap stats) (nullish b (of_Z 0))) imgs.
Proof.
  unfold calculateOptimizationTargets.
  rewrite Array_sort_Permutation. by rewrite forEach_tasks.
Qed.

(** Every returned task was made from a loaded image and its stat. *)
Lemma calculate_elem (stats : list GlobalAssetStat)
    (imgs : list (string * LoadedImage)) (b : option number)
    (t : OptimizationTask) :
  t ∈ calculateOptimizationTargets stats imgs b <->
  exists key original stat,
    (key, original) ∈ imgs /\ buildStatsMap stats !! key = Some stat /\
    t = makeTask stat original (nullish b (of_Z 0)).
Proof.
  rewrite calculate_Permutation. rewrite list_elem_of_omap. split.
  - intros [[k o] [Hin Ht]]. unfold taskOf in Ht. simpl in Ht.
    destruct (buildStatsMap stats !! k) as [s|] eqn:E; [|done].
    exists k, o, s. by inversion Ht.
  - intros (k & o & s & Hin & Hs & ->). exists (k, o). split; [done|].
    unfold taskOf. simpl. by rewrite Hs.
Qed.

Lemma length_omap_filter {A B : Type} (f : A -> option B) (l : list A) :
  length (omap f l) = length (filter (fun x => is_Some (f x)) l).
Proof.
  induction l as [|x l IH]; [done|]. cbn [omap list_omap].
  destruct (f x) as [y|] eqn:E.
  - rewrite filter_cons_True by (rewrite E; eauto). cbn [length]. by f_equal.
  - rewrite filter_cons_False; [done|]. rewrite E. by intros [? ?].
Qed.

Lemma length_filter_split {A : Type} (P : A -> Prop) `{!forall x, Decision (P x)}
    (l : list A) :
  length (filter P l) + length (filter (fun x => ~ P x) l) = length l.
Proof.
  induction l as [|x l IH]; [done|].
  destruct (decide (P x)).
  - rewrite filter_cons_True by done. rewrite (filter_cons_False _ x) by tauto.
    simpl. lia.
  - rewrite filter_cons_False by done. rewrite (filter_cons_True _ x) by done.
    simpl. lia.
Qed.

Lemma target_bounds (calc physical : number) :
  is_nan calc = false -> le (of_Z 1) physical = true ->
  le (of_Z 1) (target calc physical) = true /\
  le (target calc physical) physical = true.
Proof.
  intros Hc Hp. destruct (le_not_nan _ _ Hp) as [H1 Hphys].
  assert (Hm : is_nan (Math_min calc physical) = false)
    by by apply Math_min_not_nan.
  unfold target. split.
  - by apply Math_max_ge_l.
  - apply Math_max_le; [done | done |]. by apply Math_min_le_r.
Qed.

(** The extension is stripped only when the last dot is in the file name. *)
Example outputFileName_samples :
  outputFileName "a/b.c.png" = "a/b.c.png" /\
  outputFileName "a/b.c.jpg" = "a/b.c.png" /\
  outputFileName "a.b/c" = "a.b/c.png" /\
  outputFileName "a.b\c" = "a.b\c.png" /\
  outputFileName "arm" = "arm.png".
Proof. repeat split; by vm_compute. Qed.

(** A 100 x 100 source asked for at 200 x 200 keeps its size and needs no
    resize. *)
Example oversized_request_is_capped :
  (fun t => (targetWidth t, targetHeight t, isResize t))
    <$> calculateOptimizationTargets [sampleStat "arm" 200 200]
          [("arm", sampleImage)] (Some (of_Z 0))
  = [(of_Z 100, of_Z 100, false)].
Proof. by vm_compute. Qed.

End SizingFacts.

(** ** The claims about the sizing policy *)

Module SizingClaims.
Import JsNumber JsNumberFacts Sizing SizingFacts.

(** C1, as amended: when every physical cap is at least 1 and the requested
    size of each image's stat (its [maxRenderWidth]/[maxRenderHeight] under
    an override, else the buffered ceiling) is not NaN, every emitted task
    has [1 <= targetWidth <= originalWidth] and
    [1 <= targetHeight <= originalHeight]. *)
Theorem target_within_physical (stats : list GlobalAssetStat)
    (imgs : list (string * LoadedImage)) (b : option number)
    (t : OptimizationTask) :
  capsAtLeastOne imgs ->
  (forall key original stat,
     (key, original) ∈ imgs -> buildStatsMap stats !! key = Some stat ->
     is_nan (calculatedW stat (nullish b (of_Z 0))) = false /\
     is_nan (calculatedH stat (nullish b (of_Z 0))) = false) ->
  t ∈ calculateOptimizationTargets stats imgs b ->
  withinPhysical t.
Proof.
  intros Hcaps Hreq Ht.
  apply calculate_elem in Ht as (key & original & stat & Hin & Hstat & ->).
  destruct (Hcaps _ _ Hin) as [HW HH].
  destruct (Hreq _ _ _ Hin Hstat) as [HcW HcH].
  destruct (target_bounds _ _ HcW HW) as [? ?].
  destruct (target_bounds _ _ HcH HH) as [? ?].
  unfold withinPhysical. by cbn [makeTask targetWidth targetHeight
    originalWidth originalHeight].
Qed.

Lemma target_within_physical_witness :
  withinPhysical
    (makeTask (sampleStat "arm" 200 30) sampleImage (of_Z 0)).
Proof.
  apply (target_within_physical [sampleStat "arm" 200 30]
           [("arm", sampleImage)] None).
  - intros key original Hin. apply list_elem_of_singleton in Hin.
    inversion Hin; subst. by vm_compute.
  - intros key original stat Hin Hs. apply list_elem_of_singleton in Hin.
    inversion Hin; subst. vm_compute in Hs. inversion Hs; subst.
    by vm_compute.
  - apply list_elem_of_In. vm_compute. by left.
Defined.

(** C1 as it is stated fails: an overridden stat whose [maxRenderWidth] is
    NaN gives a task whose [targetWidth] is NaN, although the physical cap
    is 100. *)
Lemma target_within_physical_counterexample :
  ~ (forall (stats : list GlobalAssetStat) (imgs : list (string * LoadedImage))
            (b : option number) (t : OptimizationTask),
       capsAtLeastOne imgs ->
       t ∈ calculateOptimizationTargets stats imgs b ->
       withinPhysical t).
Proof.
  intros H.
  destruct (H [nanStat] [("arm", sampleImage)] (Some (of_Z 0))
              (makeTask nanStat sampleImage (of_Z 0))) as [H1 _].
  - intros key original Hin. apply list_elem_of_singleton in Hin.
    inversion Hin; subst. by vm_compute.
  - apply list_elem_of_In. vm_compute. by left.
  - vm_compute in H1. discriminate.
Qed.

(** C2: for a loaded image whose stat is not overridden, the callback
    pushes one task, that task is in the returned list, and its target is
    [max(1, min(ceil(maxRender * (1 + bufferPercentage/100)), physical))] on
    both axes, the physical size being the source size when present and the
    canonical size otherwise; with [sourceWidth = 100], [maxRenderWidth = 200]
    and a buffer of 0 the target width is 100. *)
Theorem non_override_target (stats : list GlobalAssetStat)
    (imgs : list (string * LoadedImage)) (b : option number)
    (key : string) (original : LoadedImage) (stat : GlobalAssetStat) :
  (key, original) ∈ imgs ->
  buildStatsMap stats !! key = Some stat ->
  isOverridden stat = false ->
  let buffer := nullish b (of_Z 0) in
  exists t : OptimizationTask,
    (forall acc, forEachBody (buildStatsMap stats) buffer acc (key, original)
                 = acc ++ [t]) /\
    t ∈ calculateOptimizationTargets stats imgs b /\
    relativePath t = originalPath original /\ blob t = file original /\
    targetWidth t =
      specTarget (maxRenderWidth stat) buffer
        (match sourceWidth original with Some w => w | None => width original end) /\
    targetHeight t =
      specTarget (maxRenderHeight stat) buffer
        (match sourceHeight original with Some h => h | None => height original end) /\
    (sourceWidth original = Some (of_Z 100) ->
     maxRenderWidth stat = of_Z 200 -> buffer = of_Z 0 ->
     targetWidth t = of_Z 100).
Proof.
  intros Hin Hstat Hov buffer.
  exists (makeTask stat original buffer). repeat split.
  - intros acc. unfold forEachBody. by rewrite Hstat.
  - apply calculate_elem. by exists key, original, stat.
  - cbn [makeTask targetWidth]. unfold calculatedW, calculated. by rewrite Hov.
  - cbn [makeTask targetHeight]. unfold calculatedH, calculated. by rewrite Hov.
  - intros Hsw Hmr Hb. cbn [makeTask targetWidth].
    unfold calculatedW, calculated, physicalW. rewrite Hov, Hsw, Hmr, Hb.
    by vm_compute.
Qed.

Lemma non_override_target_witness :
  exists t : OptimizationTask,
    t ∈ calculateOptimizationTargets [sampleStat "arm" 200 30]
          [("arm", sampleImage)] None /\
    targetWidth t = of_Z 100 /\ targetHeight t = of_Z 30.
Proof.
  destruct (non_override_target [sampleStat "arm" 200 30]
              [("arm", sampleImage)] None "arm" sampleImage
              (sampleStat "arm" 200 30))
    as (t & _ & Hin & _ & _ & HW & HH & _).
  - apply list_elem_of_singleton. reflexivity.
  - vm_compute. reflexivity.
  - reflexivity.
  - exists t. split; [exact Hin|]. rewrite HW, HH. split; vm_compute; reflexivity.
Defined.

(** C7: the callback leaves the task array untouched for an image whose key
    has no stat and pushes exactly one task otherwise; the returned list is
    a rearrangement of the tasks of the images that have a stat, so its
    length is the number of those images, that is the number of loaded
    images less the absent ones. *)
Theorem unused_images_excluded (stats : list GlobalAssetStat)
    (imgs : list (string * LoadedImage)) (b : option number) :
  let statsMap := buildStatsMap stats in
  let buffer := nullish b (of_Z 0) in
  let present := fun e : string * LoadedImage => e.1 ∈ (lookupKey <$> stats) in
  let tasks := calculateOptimizationTargets stats imgs b in
  (forall e acc, ~ present e -> forEachBody statsMap buffer acc e = acc) /\
  (forall e acc, present e ->
     exists t, forEachBody statsMap buffer acc e = acc ++ [t]) /\
  tasks ≡ₚ omap (taskOf statsMap buffer) imgs /\
  length tasks = length (filter present imgs) /\
  length tasks + length (filter (fun e => ~ present e) imgs) = length imgs.
Proof.
  intros statsMap buffer present tasks.
  assert (Hlen : length tasks = length (filter present imgs)).
  { unfold tasks. rewrite calculate_Permutation, length_omap_filter.
    f_equal. apply list_filter_iff. intros [k o]. unfold taskOf, present. simpl.
    destruct (buildStatsMap stats !! k) as [s|] eqn:E.
    - split; [intros _ | by eauto].
      destruct (decide (k ∈ lookupKey <$> stats)) as [|Hn]; [done|].
      apply buildStatsMap_None in Hn. congruence.
    - split; [by intros [? ?] | intros Hk].
      apply buildStatsMap_None in E. done. }
  repeat split.
  - intros [k o] acc Hn. unfold forEachBody, statsMap.
    unfold present in Hn. simpl in Hn.
    apply buildStatsMap_None in Hn. by rewrite Hn.
  - intros [k o] acc Hp. unfold forEachBody, statsMap.
    unfold present in Hp. simpl in Hp.
    destruct (buildStatsMap stats !! k) as [s|] eqn:E; [by eauto|].
    apply buildStatsMap_None in E. done.
  - apply calculate_Permutation.
  - exact Hlen.
  - rewrite Hlen. apply length_filter_split.
Qed.

(** C8: in the returned list no task that needs no resize stands before a
    task that needs one. *)
Theorem resized_tasks_first (stats : list GlobalAssetStat)
    (imgs : list (string * LoadedImage)) (b : option number)
    (i j : nat) (ti tj : OptimizationTask) :
  i < j ->
  calculateOptimizationTargets stats imgs b !! i = Some ti ->
  calculateOptimizationTargets stats imgs b !! j = Some tj ->
  ~ (isResize ti = false /\ isResize tj = true).
Proof.
  unfold calculateOptimizationTargets. rewrite Array_sort_partition.
  set (l := foldl _ _ _). intros Hij Hi Hj [Hfi Htj].
  destruct (decide (j < length (filter (fun t => isResize t = true) l))) as [Hlt|Hge].
  - rewrite lookup_app_l in Hi by lia.
    apply list_elem_of_lookup_2, list_elem_of_filter in Hi as [Hi _]. congruence.
  - rewrite lookup_app_r in Hj by lia.
    apply list_elem_of_lookup_2, list_elem_of_filter in Hj as [Hj _]. congruence.
Qed.

Lemma resized_tasks_first_witness :
  ~ (isResize (makeTask (sampleStat "arm" 20 30) sampleImage (of_Z 0)) = false /\
     isResize (makeTask (sampleStat "eye" 200 200) smallImage (of_Z 0)) = true).
Proof.
  apply (resized_tasks_first
           [sampleStat "arm" 20 30; sampleStat "eye" 200 200]
           [("eye", smallImage); ("arm", sampleImage)] None 0 1).
  - lia.
  - vm_compute. reflexivity.
  - vm_compute. reflexivity.
Defined.

End SizingClaims.

(** ** Facts about the numeric stages *)

Module ResampleFacts.
Import Resample.

(** *** Stores *)

Lemma length_store4 {A : Type} (buf : list A) (base : nat) (v0 v1 v2 v3 : A) :
  length (store4 buf base v0 v1 v2 v3) = length buf.
Proof. unfold store4. by rewrite !length_insert. Qed.

Lemma store4_lookup_out {A : Type} (buf : list A) (base i : nat)
    (v0 v1 v2 v3 : A) :
  i < base \/ base + 4 <= i ->
  store4 buf base v0 v1 v2 v3 !! i = buf !! i.
Proof.
  intros Hi. unfold store4.
  rewrite !list_lookup_insert_ne by lia. done.
Qed.

Lemma store4_lookup_in {A : Type} (buf : list A) (base : nat)
    (v0 v1 v2 v3 : A) :
  base + 3 < length buf ->
  store4 buf base v0 v1 v2 v3 !! base = Some v0 /\
  store4 buf base v0 v1 v2 v3 !! (base + 1) = Some v1 /\
  store4 buf base v0 v1 v2 v3 !! (base + 2) = Some v2 /\
  store4 buf base v0 v1 v2 v3 !! (base + 3) = Some v3.
Proof.
  intros Hlen. unfold store4. repeat split.
  - rewrite !list_lookup_insert_ne by lia.
    apply list_lookup_insert_eq. lia.
  - rewrite !list_lookup_insert_ne by lia.
    apply list_lookup_insert_eq. rewrite length_insert. lia.
  - rewrite !list_lookup_insert_ne by lia.
    apply list_lookup_insert_eq. rewrite !length_insert. lia.
  - apply list_lookup_insert_eq. rewrite !length_insert. lia.
Qed.

(** *** Nested [for] loops in row-major order

    An invariant indexed by the number of pixels done so far: if every run
    of the inner body takes it from [y * W + x] to [y * W + x + 1], the two
    loops take it from [0] to [H * W]. *)

Lemma inner_loop_invariant {St : Type} (W : nat) (body : St -> nat -> St)
    (P : nat -> St -> Prop) (start : nat) (s : St) (w : nat) :
  w <= W ->
  P start s ->
  (forall x s', x < W -> P (start + x) s' -> P (start + x + 1) (body s' x)) ->
  P (start + w) (foldl body s (seq 0 w)).
Proof.
  intros Hw H0 Hstep. induction w as [|w IH].
  - simpl. by rewrite Nat.add_0_r.
  - rewrite seq_S, foldl_app. simpl.
    replace (start + S w) with (start + w + 1) by lia.
    apply Hstep; [lia|]. apply IH. lia.
Qed.

Lemma row_major_invariant {St : Type} (W H : nat) (body : nat -> St -> nat -> St)
    (P : nat -> St -> Prop) (s : St) :
  P 0 s ->
  (forall y x s', y < H -> x < W ->
     P (y * W + x) s' -> P (y * W + x + 1) (body y s' x)) ->
  P (H * W) (foldl (fun s' y => foldl (body y) s' (seq 0 W)) s (seq 0 H)).
Proof.
  intros H0 Hstep.
  assert (Hgen : forall h, h <= H ->
    P (h * W) (foldl (fun s' y => foldl (body y) s' (seq 0 W)) s (seq 0 h))).
  { induction h as [|h IH]; intros Hh; [done|].
    rewrite seq_S, foldl_app. simpl.
    replace (W + h * W) with (h * W + W) by lia.
    apply (inner_loop_invariant W); [lia | apply IH; lia |].
    intros x s' Hx HP. apply Hstep; [lia | done | done]. }
  by apply Hgen.
Qed.

(** Distinct pixels of a row-major buffer have distinct cells. *)
Lemma pixel_index_inj (W y x y' x' : nat) :
  x < W -> x' < W -> y * W + x = y' * W + x' -> y = y' /\ x = x'.
Proof.
  intros Hx Hx' Heq.
  assert (Hy : y = y').
  { destruct (Nat.lt_trichotomy y y') as [Hlt|[Heq'|Hgt]]; [|done|].
    - assert ((y + 1) * W <= y' * W) by (apply Nat.mul_le_mono_r; lia). lia.
    - assert ((y' + 1) * W <= y * W) by (apply Nat.mul_le_mono_r; lia). lia. }
  subst y'. split; [done | lia].
Qed.

(** *** The pyramid *)

Lemma halve_dimensions (p : Pyramid) :
  srcW (halve p) = srcW p / 2 /\ srcH (halve p) = srcH p / 2.
Proof. done. Qed.

Lemma halve_pixels (p : Pyramid) :
  length (floatSrc (halve p)) = (srcW p / 2) * (srcH p / 2) * 4 /\
  forall y x c, y < srcH p / 2 -> x < srcW p / 2 -> c < 4 ->
    floatSrc (halve p) !! ((y * (srcW p / 2) + x) * 4 + c)
    = Some (boxAverage (floatSrc p) (srcW p) y x c).
Proof.
  unfold halve. cbn [floatSrc srcW srcH].
  set (W := srcW p / 2). set (H := srcH p / 2). set (src := floatSrc p).
  pose (P := fun (done : nat) (buf : list R) =>
    length buf = W * H * 4 /\
    forall y x c, x < W -> y * W + x < done -> c < 4 ->
      buf !! ((y * W + x) * 4 + c) = Some (boxAverage src (srcW p) y x c)).
  assert (HP : P (H * W)
    (foldl (fun buf y => foldl (boxPixel src (srcW p) W y) buf (seq 0 W))
       (replicate (W * H * 4) 0%R) (seq 0 H))).
  { apply row_major_invariant.
    - split; [by rewrite length_replicate | intros; lia].
    - intros y x buf Hy Hx [Hlen Hcells]. unfold boxPixel. split.
      + by rewrite length_store4.
      + intros y' x' c Hx' Hlt Hc.
        destruct (decide (y' * W + x' = y * W + x)) as [Heq|Hne].
        * apply pixel_index_inj in Heq as [-> ->]; [|done|done].
          assert (Hin : y * W * 4 + x * 4 + 3 < length buf) by nia.
          destruct (store4_lookup_in buf (y * W * 4 + x * 4)
            (boxAverage src (srcW p) y x 0) (boxAverage src (srcW p) y x 1)
            (boxAverage src (srcW p) y x 2) (boxAverage src (srcW p) y x 3) Hin)
            as (E0 & E1 & E2 & E3).
          replace ((y * W + x) * 4 + c) with (y * W * 4 + x * 4 + c) by lia.
          destruct c as [|[|[|[|c]]]]; [|done|done|done|lia].
          by rewrite Nat.add_0_r.
        * rewrite store4_lookup_out by lia.
          apply Hcells; [done | lia | done]. }
  destruct HP as [Hlen Hcells]. split; [done|].
  intros y x c Hy Hx Hc. apply Hcells; [done | nia | done].
Qed.

Lemma boxAverage_block (src : list R) (w y x c : nat) :
  boxAverage src w y x c =
  ((pixelAt src w (2 * x) (2 * y) c + pixelAt src w (2 * x + 1) (2 * y) c
    + pixelAt src w (2 * x) (2 * y + 1) c
    + pixelAt src w (2 * x + 1) (2 * y + 1) c) / 4)%R.
Proof.
  unfold boxAverage, pixelAt.
  replace (y * 2 * w * 4 + x * 2 * 4 + c) with ((2 * y * w + 2 * x) * 4 + c) by lia.
  replace (y * 2 * w * 4 + (x * 2 + 1) * 4 + c)
    with ((2 * y * w + (2 * x + 1)) * 4 + c) by lia.
  replace ((y * 2 + 1) * w * 4 + x * 2 * 4 + c)
    with (((2 * y + 1) * w + 2 * x) * 4 + c) by lia.
  replace ((y * 2 + 1) * w * 4 + (x * 2 + 1) * 4 + c)
    with (((2 * y + 1) * w + (2 * x + 1)) * 4 + c) by lia.
  lra.
Qed.

Lemma pyramid_stops (p : Pyramid) (tw th : R) (fuel : nat) :
  pyramidContinues p tw th = false -> pyramid fuel p tw th = Some p.
Proof. intros H. destruct fuel; simpl; by rewrite H. Qed.

Lemma pyramidContinues_false (p : Pyramid) (tw th : R) :
  pyramidContinues p tw th = false <-> withinTwice p tw th.
Proof.
  unfold pyramidContinues, withinTwice.
  destruct (Rlt_dec (tw * 2) (INR (srcW p))), (Rlt_dec (th * 2) (INR (srcH p)));
    split; try done; try (intros [?|?]; lra); intros _; lra.
Qed.

Lemma pyramidContinues_positive (p : Pyramid) (tw th : R) :
  (0 <= tw)%R -> pyramidContinues p tw th = true -> 0 < srcW p.
Proof.
  unfold pyramidContinues. intros Htw H.
  destruct (Rlt_dec (tw * 2) (INR (srcW p))) as [Hlt|]; [|done].
  destruct (srcW p); [simpl in Hlt; lra | lia].
Qed.

(** With a target width that is not negative, [srcW] passes of the loop
    are enough. *)
Lemma pyramid_terminates (tw th : R) (n : nat) (p : Pyramid) :
  (0 <= tw)%R -> srcW p <= n ->
  exists p', (forall fuel, n <= fuel -> pyramid fuel p tw th = Some p') /\
             pyramidContinues p' tw th = false.
Proof.
  intros Htw. revert p. induction n as [|n IH]; intros p Hn.
  - destruct (pyramidContinues p tw th) eqn:E.
    + apply pyramidContinues_positive in E; [lia | done].
    + exists p. split; [|done]. intros fuel _. by apply pyramid_stops.
  - destruct (pyramidContinues p tw th) eqn:E.
    + pose proof (pyramidContinues_positive _ _ _ Htw E) as Hpos.
      destruct (IH (halve p)) as (p' & Hrun & Hexit).
      { cbn [halve srcW]. pose proof (Nat.div_lt (srcW p) 2). lia. }
      exists p'. split; [|done]. intros [|fuel] Hfuel; [lia|].
      simpl. rewrite E. apply Hrun. lia.
    + exists p. split; [|done]. intros fuel _. by apply pyramid_stops.
Qed.

(** *** Quantisation *)

Lemma clamp255_mono (u v : R) :
  (u <= v)%R -> (Rmin (Rmax u 0) 255 <= Rmin (Rmax v 0) 255)%R.
Proof.
  intros H. unfold Rmin, Rmax. repeat destruct (Rle_dec _ _); lra.
Qed.

Lemma ToUint8Clamp_mono (u v : R) :
  (u <= v)%R -> (ToUint8Clamp u <= ToUint8Clamp v)%Z.
Proof.
  intros Huv. unfold ToUint8Clamp.
  pose proof (clamp255_mono u v Huv) as Hc.
  set (cu := Rmin (Rmax u 0) 255) in *. set (cv := Rmin (Rmax v 0) 255) in *.
  pose proof (Zfloor_bound cu) as Hu. pose proof (Zfloor_bound cv) as Hv.
  pose proof (Zfloor_le _ _ Hc) as Hf.
  destruct (Z.eq_dec (Zfloor cu) (Zfloor cv)) as [E|NE].
  - rewrite E in *.
    repeat destruct (Rlt_dec _ _); try lia; try lra;
      destruct (Z.even (Zfloor cv)); lia.
  - assert (Hlt : (Zfloor cu + 1 <= Zfloor cv)%Z) by lia.
    repeat destruct (Rlt_dec _ _); try lia;
      repeat destruct (Z.even _); lia.
Qed.

(** *** Taps *)

Lemma Rsum_div (ws : list R) (s : R) :
  Rsum ((fun w => w / s)%R <$> ws) = (Rsum ws / s)%R.
Proof.
  unfold Rsum. induction ws as [|w ws IH].
  - simpl. unfold Rdiv. ring.
  - rewrite fmap_cons. cbn [foldr]. rewrite IH. unfold Rdiv. ring.
Qed.

Lemma renormalize_zero (ws : list R) : renormalize ws 0 = (ws, []).
Proof. unfold renormalize. by destruct (Req_dec_T 0 0). Qed.

Lemma renormalize_nonzero (ws : list R) (s : R) :
  length ws = 6 -> s <> 0%R ->
  renormalize ws s = ((fun w => w / s)%R <$> ws, replicate 6 s).
Proof.
  intros Hlen Hs. unfold renormalize.
  destruct (Req_dec_T s 0) as [|_]; [done|].
  destruct ws as [|w0 [|w1 [|w2 [|w3 [|w4 [|w5 [|w6 ws]]]]]]]; try done.
Qed.

(** Weights that cancel are left alone; weights that sum to 2 are halved. *)
Example renormalize_samples :
  renormalize [1; -1; 0; 0; 0; 0]%R 0 = ([1; -1; 0; 0; 0; 0]%R, []) /\
  renormalize [1; 1; 0; 0; 0; 0]%R 2
  = ((fun w => w / 2)%R <$> [1; 1; 0; 0; 0; 0]%R, replicate 6 2%R).
Proof.
  split; [apply renormalize_zero | apply renormalize_nonzero; [done | lra]].
Qed.

(** What the tap loop leaves in [weights], [indices] and [weightSum]. *)
Lemma rawTaps_unfold (center : R) (srcSize : nat) :
  let tap := fun k : Z =>
    lanczos (center - IZR (Zfloor center - 2 + k)) in
  let idx := fun k : Z =>
    Z.min (Z.max (Zfloor center - 2 + k) 0) (Z.of_nat srcSize - 1) in
  rawTaps center srcSize =
  ([tap 0%Z; tap 1%Z; tap 2%Z; tap 3%Z; tap 4%Z; tap 5%Z],
   [idx 0%Z; idx 1%Z; idx 2%Z; idx 3%Z; idx 4%Z; idx 5%Z],
   (0 + tap 0%Z + tap 1%Z + tap 2%Z + tap 3%Z + tap 4%Z + tap 5%Z)%R).
Proof. done. Qed.

Lemma rawTaps_sum (center : R) (srcSize : nat) :
  length (rawTaps center srcSize).1.1 = 6 /\
  (rawTaps center srcSize).2 = Rsum (rawTaps center srcSize).1.1.
Proof.
  rewrite rawTaps_unfold. cbn [fst snd length Rsum foldr]. split; [done | ring].
Qed.

Lemma taps_unfold (srcSize targetSize out : nat) :
  let raw := rawTaps (tapCenter srcSize targetSize out) srcSize in
  taps srcSize targetSize out =
  {| weights := (renormalize raw.1.1 raw.2).1;
     indices := raw.1.2;
     divisors := (renormalize raw.1.1 raw.2).2 |}.
Proof.
  intros raw. unfold taps. fold raw.
  destruct raw as [[ws idx] s]. cbn [fst snd]. by destruct (renormalize ws s).
Qed.

(** The kernel vanishes at every integer but 0. *)
Lemma lanczos_integer (k : Z) : k <> 0%Z -> lanczos (IZR k) = 0%R.
Proof.
  intros Hk. unfold lanczos.
  destruct (Req_dec_T (IZR k) 0) as [E|_].
  { apply eq_IZR_R0 in E. done. }
  destruct (Rle_dec 3 (Rabs (IZR k))) as [|_]; [done|].
  assert (Hsin : sin (PI * IZR k) = 0%R).
  { apply sin_eq_0_1. exists k. ring. }
  rewrite Hsin. unfold Rdiv. ring.
Qed.

Lemma lanczos_zero : lanczos 0 = 1%R.
Proof. unfold lanczos. by destruct (Req_dec_T 0 0). Qed.

(** *** The vertical pass *)

Section VerticalPass.

Variable rand : nat -> R.
Variables (tmpBuffer : list R) (h targetWidth targetHeight n0 : nat).

(** The bytes the pass is to leave at pixel [(x, y)]. *)
Let expected (y x : nat) : option Z * option Z * option Z * option Z :=
  let t := taps h targetHeight y in
  let d := ditherAt rand (n0 + 2 * (y * targetWidth + x)) in
  let a := verticalSum tmpBuffer targetWidth t x 3 in
  (Some (ToUint8Clamp (Rmin (verticalSum tmpBuffer targetWidth t x 0) a + d)),
   Some (ToUint8Clamp (Rmin (verticalSum tmpBuffer targetWidth t x 1) a + d)),
   Some (ToUint8Clamp (Rmin (verticalSum tmpBuffer targetWidth t x 2) a + d)),
   Some (ToUint8Clamp (a + d))).

Lemma verticalPass_pixels :
  let out := verticalPass rand tmpBuffer h targetWidth targetHeight n0 in
  length out.1 = targetWidth * targetHeight * 4 /\
  out.2 = n0 + 2 * (targetHeight * targetWidth) /\
  forall y x, y < targetHeight -> x < targetWidth ->
    bytesAt out.1 targetWidth x y = expected y x.
Proof.
  unfold verticalPass.
  pose (P := fun (done : nat) (st : list Z * nat) =>
    length st.1 = targetWidth * targetHeight * 4 /\
    st.2 = n0 + 2 * done /\
    forall y x, x < targetWidth -> y * targetWidth + x < done ->
      bytesAt st.1 targetWidth x y = expected y x).
  assert (HP : P (targetHeight * targetWidth)
    (foldl (fun st y =>
              foldl (verticalPixel rand tmpBuffer targetWidth
                       (taps h targetHeight y) y) st (seq 0 targetWidth))
       (replicate (targetWidth * targetHeight * 4) 0%Z, n0)
       (seq 0 targetHeight))).
  { apply (row_major_invariant targetWidth targetHeight
             (fun y => verticalPixel rand tmpBuffer targetWidth
                         (taps h targetHeight y) y)).
    - unfold P. cbn [fst snd]. rewrite length_replicate.
      repeat split; [lia | intros; lia].
    - intros y x [buf n] Hy Hx (Hlen & Hn & Hcells). cbn [fst snd] in *.
      assert (Hrow : (y + 1) * targetWidth <= targetHeight * targetWidth)
        by (apply Nat.mul_le_mono_r; lia).
      unfold P, verticalPixel, drawDither, Math_random. cbn [fst snd].
      rewrite length_store4. repeat split; [done | lia |].
      intros y' x' Hx' Hlt. unfold bytesAt.
      destruct (decide (y' * targetWidth + x' = y * targetWidth + x)) as [Heq|Hne].
      + apply pixel_index_inj in Heq as [-> ->]; [|done|done].
        match goal with
        | |- context [store4 buf ?i ?v0 ?v1 ?v2 ?v3] =>
            destruct (store4_lookup_in buf i v0 v1 v2 v3) as (E0 & E1 & E2 & E3);
              [lia|]
        end.
        rewrite E0, E1, E2, E3. unfold expected, ditherAt, drawDither, Math_random.
        cbn [fst]. by rewrite Hn.
      + rewrite !store4_lookup_out by lia.
        apply (Hcells y' x'); [done | lia]. }
  destruct HP as (Hlen & Hn & Hcells). repeat split; [done | done |].
  intros y x Hy Hx. apply Hcells; [done|].
  assert ((y + 1) * targetWidth <= targetHeight * targetWidth)
    by (apply Nat.mul_le_mono_r; lia).
  lia.
Qed.

End VerticalPass.

(** In the output of the vertical pass every colour byte is at most the
    alpha byte of its pixel. *)
Lemma verticalPass_bytes_ordered (rand : nat -> R) (tmpBuffer : list R)
    (h tw th n x y : nat) :
  x < tw -> y < th ->
  exists cr cg cb ca : Z,
    bytesAt (verticalPass rand tmpBuffer h tw th n).1 tw x y
    = (Some cr, Some cg, Some cb, Some ca) /\
    (cr <= ca /\ cg <= ca /\ cb <= ca)%Z.
Proof.
  intros Hx Hy.
  destruct (verticalPass_pixels rand tmpBuffer h tw th n) as (_ & _ & Hcells).
  rewrite (Hcells y x Hy Hx). eexists _, _, _, _. split; [done|].
  repeat split; apply ToUint8Clamp_mono;
    match goal with |- (Rmin ?c ?a + _ <= _)%R => pose proof (Rmin_r c a) end; lra.
Qed.

(** The output of stages B to D is the output of the vertical pass. *)
Lemma resample_output (rand : nat -> R) (fuel : nat) (rawData : list Z)
    (w h tw th n : nat) (out : list Z * nat) :
  resample rand fuel rawData w h tw th n = Some out ->
  exists p : Pyramid,
    pyramid fuel {| floatSrc := IZR <$> rawData; srcW := w; srcH := h |}
            (INR tw) (INR th) = Some p /\
    out = verticalPass rand
            (horizontalPass (floatSrc p) (srcW p) (srcH p) tw) (srcH p) tw th n.
Proof.
  unfold resample. destruct (pyramid _ _ _ _) as [p|]; [|done].
  intros [= <-]. by exists p.
Qed.

(** With as many passes allowed as the source is wide, the stages return. *)
Lemma resample_total (rand : nat -> R) (rawData : list Z) (w h tw th n : nat) :
  is_Some (resample rand w rawData w h tw th n).
Proof.
  unfold resample.
  destruct (pyramid_terminates (INR tw) (INR th) w
              {| floatSrc := IZR <$> rawData; srcW := w; srcH := h |})
    as (p & Hrun & _); [apply pos_INR | done |].
  rewrite Hrun by done. eauto.
Qed.

Lemma resample_bytes_ordered (rand : nat -> R) (fuel : nat) (rawData : list Z)
    (w h tw th n x y : nat) (out : list Z * nat) :
  resample rand fuel rawData w h tw th n = Some out ->
  x < tw -> y < th ->
  exists cr cg cb ca : Z,
    bytesAt out.1 tw x y = (Some cr, Some cg, Some cb, Some ca) /\
    (cr <= ca /\ cg <= ca /\ cb <= ca)%Z.
Proof.
  intros Hout Hx Hy. apply resample_output in Hout as (p & _ & ->).
  by apply verticalPass_bytes_ordered.
Qed.

(** At an integer centre the raw weights are 0, 0, 1, 0, 0, 0. *)
Lemma rawTaps_at_integer (c : Z) (srcSize : nat) :
  (rawTaps (IZR c) srcSize).2 = 1%R.
Proof.
  rewrite rawTaps_unfold. cbn [snd]. rewrite ZfloorZ, <- !minus_IZR.
  replace (c - (c - 2 + 0))%Z with 2%Z by lia.
  replace (c - (c - 2 + 1))%Z with 1%Z by lia.
  replace (c - (c - 2 + 2))%Z with 0%Z by lia.
  replace (c - (c - 2 + 3))%Z with (-1)%Z by lia.
  replace (c - (c - 2 + 4))%Z with (-2)%Z by lia.
  replace (c - (c - 2 + 5))%Z with (-3)%Z by lia.
  rewrite (lanczos_integer 2), (lanczos_integer 1), (lanczos_integer (-1)),
    (lanczos_integer (-2)), (lanczos_integer (-3)), lanczos_zero by lia.
  ring.
Qed.

Lemma tapCenter_same_size (out : nat) : tapCenter 4 4 out = IZR (Z.of_nat out).
Proof.
  unfold tapCenter. rewrite <- INR_IZR_INZ. simpl (INR 4). lra.
Qed.

Lemma ditherAt_unfold (rand : nat -> R) (n : nat) :
  ditherAt rand n = (rand n + rand (S n) - 1)%R.
Proof. unfold ditherAt, drawDither, Math_random. cbn [fst]. lra. Qed.

(** *** Reads stay in range *)

Lemma foldl_length_preserved {A B : Type} (f : list A -> B -> list A)
    (l : list B) (buf : list A) :
  (forall buf' x, length (f buf' x) = length buf') ->
  length (foldl f buf l) = length buf.
Proof.
  intros Hf. revert buf. induction l as [|x l IH]; intros buf; [done|].
  simpl. by rewrite IH, Hf.
Qed.

Lemma length_horizontalPass (src : list R) (w h tw : nat) :
  length (horizontalPass src w h tw) = tw * h * 4.
Proof.
  unfold horizontalPass. rewrite foldl_length_preserved.
  - by rewrite length_replicate.
  - intros buf x. apply foldl_length_preserved.
    intros buf' y. unfold horizontalPixel. apply length_store4.
Qed.

(** The block of a pixel of the halved buffer lies inside the source. *)
Lemma block_in_range (w h x y : nat) :
  x < w / 2 -> y < h / 2 -> 2 * x + 1 < w /\ 2 * y + 1 < h.
Proof.
  intros Hx Hy.
  pose proof (Nat.Div0.mul_div_le w 2). pose proof (Nat.Div0.mul_div_le h 2). lia.
Qed.

Lemma pixel_in_range (w h x y c : nat) :
  x < w -> y < h -> c < 4 -> (y * w + x) * 4 + c < w * h * 4.
Proof.
  intros Hx Hy Hc.
  assert ((y + 1) * w <= h * w) by (apply Nat.mul_le_mono_r; lia). lia.
Qed.

(** The clamped tap indices point into the source axis. *)
Lemma tapIndex_in_range (srcSize targetSize out k : nat) :
  1 <= srcSize -> k < 6 ->
  tapIndex (taps srcSize targetSize out) k < srcSize.
Proof.
  intros Hsize Hk. unfold tapIndex. rewrite taps_unfold. cbn [indices].
  rewrite rawTaps_unfold. cbn [fst snd].
  destruct k as [|[|[|[|[|[|k]]]]]]; simpl; lia.
Qed.

Lemma vertical_reads_in_range (tmpBuffer : list R) (h tw th x y k c : nat) :
  1 <= h -> length tmpBuffer = tw * h * 4 ->
  x < tw -> k < 6 -> c < 4 ->
  (tapIndex (taps h th y) k * tw + x) * 4 + c < length tmpBuffer.
Proof.
  intros Hh Hlen Hx Hk Hc. rewrite Hlen.
  pose proof (tapIndex_in_range h th y k Hh Hk) as Hidx.
  apply pixel_in_range; done.
Qed.

(** *** Well-formed buffers through the pyramid *)

Lemma halve_wellFormed (p : Pyramid) (tw th : R) :
  (1 <= tw)%R -> (1 <= th)%R ->
  pyramidContinues p tw th = true -> wellFormed (halve p).
Proof.
  intros Htw Hth Hc. unfold pyramidContinues in Hc.
  destruct (Rlt_dec (tw * 2) (INR (srcW p))) as [HW|]; [|done].
  destruct (Rlt_dec (th * 2) (INR (srcH p))) as [HH|]; [|done].
  assert (2 < srcW p) by (apply INR_lt; simpl; lra).
  assert (2 < srcH p) by (apply INR_lt; simpl; lra).
  destruct (halve_pixels p) as [Hlen _].
  unfold wellFormed. cbn [halve srcW srcH] in *.
  assert (1 <= srcW p / 2) by (apply Nat.div_le_lower_bound; lia).
  assert (1 <= srcH p / 2) by (apply Nat.div_le_lower_bound; lia).
  done.
Qed.

Lemma pyramid_wellFormed (fuel : nat) (p p' : Pyramid) (tw th : R) :
  (1 <= tw)%R -> (1 <= th)%R -> wellFormed p ->
  pyramid fuel p tw th = Some p' -> wellFormed p'.
Proof.
  intros Htw Hth. revert p. induction fuel as [|fuel IH]; intros p Hwf; simpl.
  - destruct (pyramidContinues p tw th); [done|]. by intros [= <-].
  - destruct (pyramidContinues p tw th) eqn:E; [|by intros [= <-]].
    apply IH. by apply (halve_wellFormed p tw th).
Qed.

End ResampleFacts.

(** ** Facts about the stages for real target sizes *)

Module ResampleAtFacts.
Import Resample ResampleFacts Vocabulary ResampleSamples.

(** *** The kernel and the quantisation *)

Lemma lanczos_even (x : R) : lanczos (- x) = lanczos x.
Proof.
  unfold lanczos.
  destruct (Req_dec_T x 0) as [->|Hx].
  - rewrite Ropp_0. by destruct (Req_dec_T 0 0).
  - destruct (Req_dec_T (- x) 0) as [E|_]; [lra|].
    rewrite Rabs_Ropp.
    destruct (Rle_dec 3 (Rabs x)); [done|].
    replace (PI * - x)%R with (- (PI * x))%R by ring.
    replace (- (PI * x) / 3)%R with (- (PI * x / 3))%R by (unfold Rdiv; ring).
    rewrite !sin_neg.
    pose proof PI_RGT_0. field. split; [done | lra].
Qed.

Lemma clamp255_range (v : R) : (0 <= Rmin (Rmax v 0) 255 <= 255)%R.
Proof. unfold Rmin, Rmax. repeat destruct (Rle_dec _ _); lra. Qed.

Lemma ToUint8Clamp_range (v : R) : isByte (ToUint8Clamp v).
Proof.
  unfold isByte, ToUint8Clamp.
  pose proof (clamp255_range v) as Hc.
  set (c := Rmin (Rmax v 0) 255) in *.
  pose proof (Zfloor_bound c) as Hf.
  assert (H0 : (0 <= Zfloor c)%Z) by (apply Zfloor_lub; simpl; lra).
  assert (H255 : (Zfloor c <= 255)%Z) by (apply le_IZR; lra).
  assert (Hup : (IZR (Zfloor c) + 0.5 <= c)%R -> (Zfloor c + 1 <= 255)%Z).
  { intros Hge. assert (IZR (Zfloor c) < 255)%R by lra.
    apply lt_IZR in H. lia. }
  destruct (Rlt_dec c (IZR (Zfloor c) + 0.5)); [lia|].
  assert (Zfloor c + 1 <= 255)%Z by (apply Hup; lra).
  destruct (Rlt_dec (IZR (Zfloor c) + 0.5) c); [lia|].
  destruct (Z.even (Zfloor c)); lia.
Qed.

(** An integer is stored as itself, clamped to the byte range. *)
Lemma ToUint8Clamp_IZR (j : Z) : ToUint8Clamp (IZR j) = Z.max 0 (Z.min 255 j).
Proof.
  unfold ToUint8Clamp.
  assert (Hc : Rmin (Rmax (IZR j) 0) 255 = IZR (Z.max 0 (Z.min 255 j))).
  { unfold Rmin, Rmax.
    destruct (Rle_dec (IZR j) 0) as [H0|H0].
    - destruct (Rle_dec 0 255); [|lra]. apply le_IZR in H0.
      f_equal. lia.
    - destruct (Rle_dec (IZR j) 255) as [H1|H1].
      + apply le_IZR in H1. assert (0 < j)%Z by (apply lt_IZR; lra).
        f_equal. lia.
      + assert (255 < j)%Z by (apply lt_IZR; lra). f_equal. lia. }
  rewrite Hc, ZfloorZ.
  destruct (Rlt_dec _ _) as [_|H]; [done | lra].
Qed.

Lemma rawTaps_integer (z : Z) (srcSize : nat) :
  rawTaps (IZR z) srcSize
  = ([0; 0; 1; 0; 0; 0]%R,
     (fun k => Z.min (Z.max (z - 2 + k) 0) (Z.of_nat srcSize - 1))
       <$> [0; 1; 2; 3; 4; 5]%Z,
     1%R).
Proof.
  rewrite rawTaps_unfold. rewrite ZfloorZ, <- !minus_IZR.
  replace (z - (z - 2 + 0))%Z with 2%Z by lia.
  replace (z - (z - 2 + 1))%Z with 1%Z by lia.
  replace (z - (z - 2 + 2))%Z with 0%Z by lia.
  replace (z - (z - 2 + 3))%Z with (-1)%Z by lia.
  replace (z - (z - 2 + 4))%Z with (-2)%Z by lia.
  replace (z - (z - 2 + 5))%Z with (-3)%Z by lia.
  rewrite (lanczos_integer 2), (lanczos_integer 1), (lanczos_integer (-1)),
    (lanczos_integer (-2)), (lanczos_integer (-3)), lanczos_zero by lia.
  cbn [fmap list_fmap]. f_equal. ring.
Qed.

(** Six weights that sum to 1 leave a common value as it is. *)
Lemma weighted_sum_flat (f : nat -> R) (ws : list R) (v : R) :
  length ws = 6 -> Rsum ws = 1%R -> (forall k, k < 6 -> f k = v) ->
  foldl (fun acc k => acc + f k * sample ws k)%R 0%R (seq 0 6) = v.
Proof.
  intros Hlen Hsum Hf.
  destruct ws as [|w0 [|w1 [|w2 [|w3 [|w4 [|w5 [|w6 ws]]]]]]]; try done.
  cbn [foldl seq]. rewrite !Hf by lia.
  unfold sample. cbn [lookup list_lookup default]. unfold Datatypes.id.
  unfold Rsum in Hsum. cbn [foldr] in Hsum.
  replace (0 + v * w0 + v * w1 + v * w2 + v * w3 + v * w4 + v * w5)%R
    with (v * (w0 + (w1 + (w2 + (w3 + (w4 + (w5 + 0)))))))%R by ring.
  rewrite Hsum. ring.
Qed.


(** *** Indices that are integers *)

Lemma Zfloor_INR (n : nat) : Zfloor (INR n) = Z.of_nat n.
Proof. by rewrite INR_IZR_INZ, ZfloorZ. Qed.

Lemma validIndex_IZR (len : nat) (z : Z) :
  validIndex len (IZR z)
  = if ((0 <=? z) && (z <? Z.of_nat len))%Z then Some (Z.to_nat z) else None.
Proof.
  unfold validIndex. rewrite ZfloorZ.
  by destruct (Req_dec_T (IZR z) (IZR z)).
Qed.

Lemma validIndex_INR (len n : nat) :
  validIndex len (INR n) = if decide (n < len) then Some n else None.
Proof.
  rewrite INR_IZR_INZ, validIndex_IZR.
  destruct (decide (n < len)) as [H|H].
  - replace ((0 <=? Z.of_nat n)%Z && (Z.of_nat n <? Z.of_nat len)%Z) with true
      by (symmetry; apply andb_true_intro; split;
          [apply Z.leb_le | apply Z.ltb_lt]; lia).
    by rewrite Nat2Z.id.
  - replace ((0 <=? Z.of_nat n)%Z && (Z.of_nat n <? Z.of_nat len)%Z) with false;
      [done|].
    symmetry. apply andb_false_iff. right. apply Z.ltb_ge. lia.
Qed.

Lemma validIndex_Some (len : nat) (i : R) (n : nat) :
  validIndex len i = Some n -> i = INR n /\ n < len.
Proof.
  unfold validIndex. destruct (Req_dec_T _ _) as [E|]; [|done].
  destruct (_ && _) eqn:B; [|done]. intros [= <-].
  apply andb_prop in B as [B1 B2].
  apply Z.leb_le in B1. apply Z.ltb_lt in B2. split; [|lia].
  rewrite INR_IZR_INZ, Z2Nat.id by done. done.
Qed.

Lemma setAt_INR {A : Type} (buf : list A) (n : nat) (v : A) :
  setAt buf (INR n) v = <[n := v]> buf.
Proof.
  unfold setAt. rewrite validIndex_INR.
  destruct (decide (n < length buf)); [done|].
  symmetry. apply list_insert_ge. by apply Nat.nlt_ge.
Qed.

Lemma getAt_INR (buf : list num) (n : nat) :
  getAt buf (INR n) = default None (buf !! n).
Proof.
  unfold getAt. rewrite validIndex_INR.
  destruct (decide (n < length buf)); [done|].
  rewrite lookup_ge_None_2; [done | by apply Nat.nlt_ge].
Qed.

Lemma readAt_nat (buf : list R) (n : nat) : readAt buf (Z.of_nat n) = buf !! n.
Proof.
  unfold readAt. replace (0 <=? Z.of_nat n)%Z with true
    by (symmetry; apply Z.leb_le; lia).
  by rewrite Nat2Z.id.
Qed.




Lemma store4At_INR {A : Type} (buf : list A) (n : nat) (v0 v1 v2 v3 : A) :
  store4At buf (INR n) v0 v1 v2 v3 = store4 buf n v0 v1 v2 v3.
Proof.
  unfold store4At, store4.
  replace (INR n + 1)%R with (INR (n + 1)) by (rewrite plus_INR; simpl; lra).
  replace (INR n + 2)%R with (INR (n + 2)) by (rewrite plus_INR; simpl; lra).
  replace (INR n + 3)%R with (INR (n + 3)) by (rewrite plus_INR; simpl; lra).
  by rewrite !setAt_INR.
Qed.

(** *** Loop bounds and lengths that are natural numbers *)

Lemma loopCount_INR (n : nat) : loopCount (INR n) = n.
Proof.
  unfold loopCount. rewrite INR_IZR_INZ.
  rewrite (Zceil_eq (Z.of_nat n)) by lra. apply Nat2Z.id.
Qed.

Lemma arrayLength_INR (n : nat) : arrayLength (INR n) = Some n.
Proof.
  unfold arrayLength, truncate. pose proof (pos_INR n).
  destruct (Rle_dec 0 (INR n)); [|lra]. rewrite Zfloor_INR.
  replace (Z.of_nat n <? 0)%Z with false by (symmetry; apply Z.ltb_ge; lia).
  by rewrite Nat2Z.id.
Qed.

Lemma arrayLength_IZR (z : Z) :
  (0 <= z)%Z -> arrayLength (IZR z) = Some (Z.to_nat z).
Proof.
  intros Hz. rewrite <- (Z2Nat.id z) at 1 by done.
  rewrite <- INR_IZR_INZ. apply arrayLength_INR.
Qed.

(** *** Taps around a centre *)

Lemma taps_tapsAt (srcSize targetSize out : nat) :
  taps srcSize targetSize out = tapsAt srcSize (INR targetSize) out.
Proof. reflexivity. Qed.

Lemma tapsAround_unfold (center : R) (srcSize : nat) :
  let raw := rawTaps center srcSize in
  tapsAround center srcSize =
  {| weights := (renormalize raw.1.1 raw.2).1;
     indices := raw.1.2;
     divisors := (renormalize raw.1.1 raw.2).2 |}.
Proof.
  intros raw. unfold tapsAround. fold raw.
  destruct raw as [[ws idx] s]. cbn [fst snd]. by destruct (renormalize ws s).
Qed.

Lemma tapIndexZ_range (center : R) (srcSize k : nat) :
  1 <= srcSize -> k < 6 ->
  (0 <= tapIndexZ (tapsAround center srcSize) k < Z.of_nat srcSize)%Z.
Proof.
  intros Hsize Hk. unfold tapIndexZ. rewrite tapsAround_unfold. cbn [indices].
  rewrite rawTaps_unfold. cbn [fst snd].
  destruct k as [|[|[|[|[|[|k]]]]]]; simpl; lia.
Qed.

Lemma tapsAround_weights_sum (center : R) (srcSize : nat) :
  (rawTaps center srcSize).2 <> 0%R ->
  length (weights (tapsAround center srcSize)) = 6 /\
  Rsum (weights (tapsAround center srcSize)) = 1%R.
Proof.
  intros Hs.
  destruct (rawTaps_sum center srcSize) as [Hlen Hsum].
  rewrite tapsAround_unfold. cbn [weights].
  rewrite renormalize_nonzero by done. cbn [fst]. split.
  - by rewrite length_fmap.
  - rewrite Rsum_div, <- Hsum. by apply Rinv_r.
Qed.

(** *** Sums over the six taps *)

Lemma num_add_None_r (a : num) : num_add a None = None.
Proof. by destruct a. Qed.

Lemma num_sum_from_None {X : Type} (g : X -> num) (l : list X) :
  foldl (fun acc k => num_add acc (g k)) None l = None.
Proof. induction l as [|k l IH]; [done|]. simpl. apply IH. Qed.

(** One NaN among the terms makes the sum NaN. *)
Lemma num_sum_nan {X : Type} (g : X -> num) (l : list X) (k : X) (a : num) :
  k ∈ l -> g k = None ->
  foldl (fun acc k => num_add acc (g k)) a l = None.
Proof.
  revert a. induction l as [|j l IH]; intros a Hin Hg.
  - by apply elem_of_nil in Hin.
  - simpl. apply elem_of_cons in Hin as [->|Hin].
    + rewrite Hg, num_add_None_r. apply num_sum_from_None.
    + by apply IH.
Qed.

(** With every read defined the sum is the sum of the reals. *)
Lemma num_sum_defined {X : Type} (rd : X -> num) (f wt : X -> R) (l : list X)
    (a : R) :
  (forall k, k ∈ l -> rd k = Some (f k)) ->
  foldl (fun acc k => num_add acc (num_mul (rd k) (Some (wt k)))) (Some a) l
  = Some (foldl (fun acc k => acc + f k * wt k)%R a l).
Proof.
  revert a. induction l as [|j l IH]; intros a H; [done|].
  simpl. rewrite (H j) by by left. cbn [num_mul num_add].
  apply IH. intros k Hk. apply H. by right.
Qed.

Lemma horizontalSumAt_defined (src : list R) (w : nat) (t : Taps) (y c : nat) :
  (forall k, k < 6 ->
     (0 <= tapIndexZ t k)%Z /\
     y * w * 4 + tapIndex t k * 4 + c < length src) ->
  horizontalSumAt src w t y c = Some (horizontalSum src w t y c).
Proof.
  intros H. unfold horizontalSumAt, horizontalSum.
  apply (num_sum_defined
           (fun k => readAt src (Z.of_nat (y * w * 4) + tapIndexZ t k * 4
                                 + Z.of_nat c))
           (fun k => sample src (y * w * 4 + tapIndex t k * 4 + c))
           (fun k => sample (weights t) k)).
  intros k Hk. apply elem_of_seq in Hk.
  destruct (H k) as [H0 Hlt]; [lia|].
  replace (Z.of_nat (y * w * 4) + tapIndexZ t k * 4 + Z.of_nat c)%Z
    with (Z.of_nat (y * w * 4 + tapIndex t k * 4 + c))
    by (unfold tapIndex; fold (tapIndexZ t k); lia).
  rewrite readAt_nat. unfold sample.
  destruct (src !! _) eqn:E; [done|]. apply lookup_ge_None in E. lia.
Qed.

Lemma verticalSumAt_natural (tmp : list R) (tw : nat) (t : Taps) (x c : nat) :
  (forall k, k < 6 ->
     (0 <= tapIndexZ t k)%Z /\
     (tapIndex t k * tw + x) * 4 + c < length tmp) ->
  verticalSumAt (Some <$> tmp) (INR tw) t x c = Some (verticalSum tmp tw t x c).
Proof.
  intros H. unfold verticalSumAt, verticalSum.
  apply (num_sum_defined
           (fun k => getAt (Some <$> tmp)
                       ((IZR (tapIndexZ t k) * INR tw + INR x) * 4 + INR c))
           (fun k => sample tmp ((tapIndex t k * tw + x) * 4 + c))
           (fun k => sample (weights t) k)).
  intros k Hk. apply elem_of_seq in Hk.
  destruct (H k) as [H0 Hlt]; [lia|].
  replace ((IZR (tapIndexZ t k) * INR tw + INR x) * 4 + INR c)%R
    with (INR ((tapIndex t k * tw + x) * 4 + c)).
  - rewrite getAt_INR, list_lookup_fmap. unfold sample.
    destruct (tmp !! _) eqn:E; [done|]. apply lookup_ge_None in E. lia.
  - rewrite !plus_INR, !mult_INR, plus_INR, mult_INR.
    unfold tapIndex. fold (tapIndexZ t k).
    rewrite INR_IZR_INZ, Z2Nat.id by done. simpl (INR 4). lra.
Qed.

(** *** The two models agree on natural sizes *)

Lemma foldl_related {A B X : Type} (Rel : A -> B -> Prop)
    (f : A -> X -> A) (g : B -> X -> B) (l : list X) (a : A) (b : B) :
  Rel a b ->
  (forall a' b' x, x ∈ l -> Rel a' b' -> Rel (f a' x) (g b' x)) ->
  Rel (foldl f a l) (foldl g b l).
Proof.
  revert a b. induction l as [|x l IH]; intros a b H0 Hstep; [done|].
  simpl. apply IH.
  - apply Hstep; [by left | done].
  - intros a' b' x' Hx'. apply Hstep. by right.
Qed.

Lemma pixel_index_INR (y tw x : nat) :
  ((INR y * INR tw + INR x) * 4)%R = INR ((y * tw + x) * 4).
Proof. rewrite mult_INR, plus_INR, mult_INR. simpl (INR 4). lra. Qed.

Lemma fmap_store4 {A B : Type} (f : A -> B) (buf : list A) (n : nat)
    (v0 v1 v2 v3 : A) :
  f <$> store4 buf n v0 v1 v2 v3 = store4 (f <$> buf) n (f v0) (f v1) (f v2) (f v3).
Proof. unfold store4. by rewrite !list_fmap_insert. Qed.

Lemma horizontalPixelAt_natural (src : list R) (w h tw x y : nat)
    (tmp : list R) :
  1 <= w -> length src = w * h * 4 -> y < h ->
  horizontalPixelAt src w (INR tw) (tapsAt w (INR tw) x) x (Some <$> tmp) y
  = Some <$> horizontalPixel src w tw (taps w tw x) x tmp y.
Proof.
  intros Hw Hlen Hy. unfold horizontalPixelAt, horizontalPixel.
  rewrite pixel_index_INR, store4At_INR, fmap_store4, <- taps_tapsAt.
  assert (Hsum : forall c, c < 4 ->
            horizontalSumAt src w (taps w tw x) y c
            = Some (horizontalSum src w (taps w tw x) y c)).
  { intros c Hc. apply horizontalSumAt_defined. intros k Hk. split.
    - apply (tapIndexZ_range (tapCenter w tw x) w k); done.
    - rewrite Hlen.
      pose proof (tapIndex_in_range w tw x k Hw Hk) as Hidx.
      pose proof (pixel_in_range w h _ y c Hidx Hy Hc). lia. }
  by rewrite !Hsum by lia.
Qed.

Lemma horizontalPassAt_natural (src : list R) (w h tw : nat) :
  1 <= w -> length src = w * h * 4 ->
  horizontalPassAt src w h (INR tw) (tw * h * 4)
  = Some <$> horizontalPass src w h tw.
Proof.
  intros Hw Hlen. unfold horizontalPassAt, horizontalPass.
  rewrite loopCount_INR.
  apply (foldl_related (fun (a : list num) (b : list R) => a = Some <$> b)).
  - by rewrite fmap_replicate.
  - intros a b x _ ->.
    apply (foldl_related (fun (a : list num) (b : list R) => a = Some <$> b));
      [done|].
    intros a' b' y Hy ->. apply elem_of_seq in Hy.
    apply (horizontalPixelAt_natural src w h); [done | done | lia].
Qed.

Lemma quantised_defined (r g b a d : R) :
  quantised (Some r) (Some g) (Some b) (Some a) d
  = (ToUint8Clamp (Rmin r a + d), ToUint8Clamp (Rmin g a + d),
     ToUint8Clamp (Rmin b a + d), ToUint8Clamp (a + d)).
Proof. reflexivity. Qed.

Lemma verticalPixelAt_natural (rand : nat -> R) (tmp : list R)
    (h tw th x y : nat) (st : list Z * nat) :
  1 <= h -> length tmp = tw * h * 4 -> x < tw ->
  verticalPixelAt rand (Some <$> tmp) (INR tw) (tapsAt h (INR th) y) y st x
  = verticalPixel rand tmp tw (taps h th y) y st x.
Proof.
  intros Hh Hlen Hx. destruct st as [finalData n].
  unfold verticalPixelAt, verticalPixel. rewrite <- taps_tapsAt.
  assert (Hsum : forall c, c < 4 ->
            verticalSumAt (Some <$> tmp) (INR tw) (taps h th y) x c
            = Some (verticalSum tmp tw (taps h th y) x c)).
  { intros c Hc. apply verticalSumAt_natural. intros k Hk. split.
    - apply (tapIndexZ_range (tapCenter h th y) h k); done.
    - by apply (vertical_reads_in_range tmp h tw th x y k c). }
  rewrite !Hsum by lia. destruct (drawDither rand n) as [d m].
  rewrite quantised_defined, pixel_index_INR, store4At_INR. done.
Qed.

Lemma verticalPassAt_natural (rand : nat -> R) (tmp : list R)
    (h tw th n : nat) :
  1 <= h -> length tmp = tw * h * 4 ->
  verticalPassAt rand (Some <$> tmp) h (INR tw) (INR th) (tw * th * 4) n
  = verticalPass rand tmp h tw th n.
Proof.
  intros Hh Hlen.
  unfold verticalPassAt, verticalBefore, verticalPass, verticalRow.
  rewrite !loopCount_INR. cbn [seq foldl].
  apply (foldl_related eq); [done|].
  intros a b y _ ->. apply (foldl_related eq); [done|].
  intros a' b' x Hx ->. apply elem_of_seq in Hx.
  apply (verticalPixelAt_natural rand tmp h); [done | done | lia].
Qed.

(** For natural target sizes of at least 1 and a well-formed source the
    stages for real sizes are the stages for natural sizes. *)
Lemma resampleAt_natural (rand : nat -> R) (fuel : nat) (rawData : list Z)
    (w h tw th n : nat) :
  1 <= w -> 1 <= h -> length rawData = w * h * 4 -> 1 <= tw -> 1 <= th ->
  resampleAt rand fuel rawData w h (INR tw) (INR th) n
  = match resample rand fuel rawData w h tw th n with
    | Some out => Done out.1 out.2
    | None => StillRunning
    end.
Proof.
  intros Hw Hh Hlen Htw Hth. unfold resampleAt, resample.
  destruct (pyramid fuel _ (INR tw) (INR th)) as [p|] eqn:Hp; [|done].
  assert (Hwf : wellFormed p).
  { apply (pyramid_wellFormed fuel
             {| floatSrc := IZR <$> rawData; srcW := w; srcH := h |} p
             (INR tw) (INR th)); [| | |exact Hp].
    - change 1%R with (INR 1). apply le_INR. lia.
    - change 1%R with (INR 1). apply le_INR. lia.
    - unfold wellFormed. cbn [floatSrc srcW srcH]. by rewrite length_fmap. }
  destruct Hwf as (HW & HH & HL).
  replace (INR tw * INR (srcH p) * 4)%R with (INR (tw * srcH p * 4))
    by (rewrite !mult_INR; simpl (INR 4); lra).
  replace (INR tw * INR th * 4)%R with (INR (tw * th * 4))
    by (rewrite !mult_INR; simpl (INR 4); lra).
  rewrite !arrayLength_INR. cbv zeta.
  rewrite horizontalPassAt_natural by done.
  rewrite verticalPassAt_natural; [done | done |].
  apply length_horizontalPass.
Qed.

(** *** The kernel at half-integers *)

Lemma lanczos_inside (x : R) :
  x <> 0%R -> (Rabs x < 3)%R ->
  lanczos x = (sin (PI * x) / (PI * x) * (sin (PI * x / 3) / (PI * x / 3)))%R.
Proof.
  intros Hx Hlt. unfold lanczos.
  destruct (Req_dec_T x 0); [done|].
  destruct (Rle_dec 3 (Rabs x)); [lra | done].
Qed.

Lemma lanczos_1_2 : lanczos (1 / 2) = (6 / (PI * PI))%R.
Proof.
  pose proof PI_RGT_0.
  rewrite lanczos_inside; [|lra | rewrite Rabs_pos_eq; lra].
  replace (PI * (1 / 2))%R with (PI / 2)%R by lra.
  replace (PI / 2 / 3)%R with (PI / 6)%R by lra.
  rewrite sin_PI2, sin_PI6. field. lra.
Qed.

Lemma lanczos_3_2 : lanczos (3 / 2) = (- 4 / (3 * (PI * PI)))%R.
Proof.
  pose proof PI_RGT_0.
  rewrite lanczos_inside; [|lra | rewrite Rabs_pos_eq; lra].
  replace (PI * (3 / 2))%R with (3 * (PI / 2))%R by lra.
  replace (3 * (PI / 2) / 3)%R with (PI / 2)%R by lra.
  rewrite sin_3PI2, sin_PI2. field. lra.
Qed.

Lemma lanczos_5_2 : lanczos (5 / 2) = (6 / (25 * (PI * PI)))%R.
Proof.
  pose proof PI_RGT_0.
  rewrite lanczos_inside; [|lra | rewrite Rabs_pos_eq; lra].
  replace (PI * (5 / 2))%R with (PI / 2 + 2 * INR 1 * PI)%R by (simpl; lra).
  replace ((PI / 2 + 2 * INR 1 * PI) / 3)%R with (PI - PI / 6)%R by (simpl; lra).
  rewrite sin_period, sin_PI_x, sin_PI2, sin_PI6. simpl (INR 1). field. lra.
Qed.

(** At a centre half-way between two integers the six raw weights are
    those of the distances 5/2, 3/2 and 1/2 on either side. *)
Lemma rawTaps_half_weights (z : Z) (srcSize : nat) :
  (rawTaps (IZR z + 1 / 2) srcSize).1.1
  = [lanczos (5 / 2); lanczos (3 / 2); lanczos (1 / 2);
     lanczos (1 / 2); lanczos (3 / 2); lanczos (5 / 2)].
Proof.
  rewrite rawTaps_unfold. cbn [fst].
  replace (Zfloor (IZR z + 1 / 2)) with z by (symmetry; apply Zfloor_eq; lra).
  rewrite !plus_IZR, !minus_IZR.
  replace (IZR z + 1 / 2 - (IZR z - 2 + 0))%R with (5 / 2)%R by lra.
  replace (IZR z + 1 / 2 - (IZR z - 2 + 1))%R with (3 / 2)%R by lra.
  replace (IZR z + 1 / 2 - (IZR z - 2 + 2))%R with (1 / 2)%R by lra.
  replace (IZR z + 1 / 2 - (IZR z - 2 + 3))%R with (- (1 / 2))%R by lra.
  replace (IZR z + 1 / 2 - (IZR z - 2 + 4))%R with (- (3 / 2))%R by lra.
  replace (IZR z + 1 / 2 - (IZR z - 2 + 5))%R with (- (5 / 2))%R by lra.
  by rewrite !lanczos_even.
Qed.

Lemma rawTaps_half_sum (z : Z) (srcSize : nat) :
  (rawTaps (IZR z + 1 / 2) srcSize).2 = (736 / (75 * (PI * PI)))%R.
Proof.
  destruct (rawTaps_sum (IZR z + 1 / 2) srcSize) as [_ ->].
  rewrite rawTaps_half_weights. unfold Rsum. cbn [foldr].
  rewrite lanczos_1_2, lanczos_3_2, lanczos_5_2.
  pose proof PI_RGT_0. field. lra.
Qed.

Lemma rawTaps_half_nonzero (z : Z) (srcSize : nat) :
  (rawTaps (IZR z + 1 / 2) srcSize).2 <> 0%R.
Proof.
  rewrite rawTaps_half_sum. pose proof PI_RGT_0.
  assert (0 < 736 / (75 * (PI * PI)))%R; [|lra].
  apply Rdiv_lt_0_compat; [lra|]. 
  assert (0 < PI * PI)%R by (apply Rmult_lt_0_compat; lra). lra.
Qed.

(** *** The state of the vertical pass *)

Section VerticalPassAt.

Variable rand : nat -> R.
Variables (tmpBuffer : list num) (h : nat) (targetWidth targetHeight : R).
Variables (len n0 : nat).

Lemma verticalPixelAt_draws (t : Taps) (y x : nat) (st : list Z * nat) :
  (verticalPixelAt rand tmpBuffer targetWidth t y st x).2 = S (S st.2).
Proof.
  destruct st as [fd n]. unfold verticalPixelAt, drawDither, Math_random.
  cbn [fst snd]. by destruct (quantised _ _ _ _ _) as [[[qr qg] qb] qa].
Qed.


Lemma verticalRow_step (st : list Z * nat) (y x : nat) :
  verticalRow rand tmpBuffer h targetWidth targetHeight st y (S x)
  = verticalPixelAt rand tmpBuffer targetWidth (tapsAt h targetHeight y) y
      (verticalRow rand tmpBuffer h targetWidth targetHeight st y x) x.
Proof. unfold verticalRow. by rewrite seq_S, foldl_app. Qed.

Lemma verticalRow_draws (st : list Z * nat) (y x : nat) :
  (verticalRow rand tmpBuffer h targetWidth targetHeight st y x).2
  = st.2 + 2 * x.
Proof.
  induction x as [|x IH].
  - unfold verticalRow. simpl. lia.
  - rewrite verticalRow_step, verticalPixelAt_draws, IH. lia.
Qed.



Lemma verticalBefore_row (y : nat) :
  verticalBefore rand tmpBuffer h targetWidth targetHeight len n0 (S y) 0
  = verticalBefore rand tmpBuffer h targetWidth targetHeight len n0 y
      (loopCount targetWidth).
Proof. unfold verticalBefore. by rewrite seq_S, foldl_app. Qed.

Lemma verticalBefore_draws (y x : nat) :
  (verticalBefore rand tmpBuffer h targetWidth targetHeight len n0 y x).2
  = n0 + 2 * (y * loopCount targetWidth + x).
Proof.
  revert x. induction y as [|y IH]; intros x.
  - unfold verticalBefore. rewrite verticalRow_draws. simpl. lia.
  - unfold verticalBefore. rewrite verticalRow_draws.
    change (foldl _ _ (seq 0 (S y)))
      with (verticalBefore rand tmpBuffer h targetWidth targetHeight len n0
              (S y) 0).
    rewrite verticalBefore_row, IH. lia.
Qed.


End VerticalPassAt.


(** *** Flat buffers *)

Lemma sample_replicate (L i : nat) (v : R) :
  i < L -> sample (replicate L v) i = v.
Proof. intros Hi. unfold sample. by rewrite lookup_replicate_2. Qed.

Lemma validIndex_IZR_in (len : nat) (z : Z) :
  (0 <= z < Z.of_nat len)%Z -> validIndex len (IZR z) = Some (Z.to_nat z).
Proof.
  intros Hz. rewrite validIndex_IZR.
  replace ((0 <=? z)%Z && (z <? Z.of_nat len)%Z) with true; [done|].
  symmetry. apply andb_true_intro. split; [apply Z.leb_le | apply Z.ltb_lt]; lia.
Qed.

Lemma validIndex_IZR_out (len : nat) (z : Z) :
  (z < 0 \/ Z.of_nat len <= z)%Z -> validIndex len (IZR z) = None.
Proof.
  intros Hz. rewrite validIndex_IZR.
  replace ((0 <=? z)%Z && (z <? Z.of_nat len)%Z) with false; [done|].
  symmetry. apply andb_false_iff.
  destruct Hz; [left; apply Z.leb_gt | right; apply Z.ltb_ge]; lia.
Qed.

(** The horizontal sum over a source of one value. *)
Lemma horizontalSumAt_flat (w h y c : nat) (v center : R) :
  1 <= w -> y < h -> c < 4 -> (rawTaps center w).2 <> 0%R ->
  horizontalSumAt (replicate (w * h * 4) v) w (tapsAround center w) y c
  = Some v.
Proof.
  intros Hw Hy Hc Hs.
  assert (Hin : forall k, k < 6 ->
            (0 <= tapIndexZ (tapsAround center w) k)%Z /\
            y * w * 4 + tapIndex (tapsAround center w) k * 4 + c < w * h * 4).
  { intros k Hk. destruct (tapIndexZ_range center w k Hw Hk) as [H0 H1].
    split; [done|].
    assert (Hidx : tapIndex (tapsAround center w) k < w)
      by (unfold tapIndex; fold (tapIndexZ (tapsAround center w) k); lia).
    pose proof (pixel_in_range w h _ y c Hidx Hy Hc). lia. }
  rewrite horizontalSumAt_defined by (by rewrite length_replicate).
  f_equal. destruct (tapsAround_weights_sum center w Hs) as [Hlen Hsum].
  unfold horizontalSum.
  apply (weighted_sum_flat
           (fun k => sample (replicate (w * h * 4) v)
                       (y * w * 4 + tapIndex (tapsAround center w) k * 4 + c))
           (weights (tapsAround center w)) v Hlen Hsum).
  intros k Hk. apply sample_replicate. by apply Hin.
Qed.

(** The vertical sum over an intermediate buffer of one value: that value
    when all six reads name an element, NaN as soon as one does not. *)
Lemma verticalSumAt_flat (L : nat) (v tw : R) (t : Taps) (x c : nat) :
  length (weights t) = 6 -> Rsum (weights t) = 1%R ->
  (forall k, k < 6 ->
     is_Some (validIndex L ((IZR (tapIndexZ t k) * tw + INR x) * 4 + INR c))) ->
  verticalSumAt (replicate L (Some v)) tw t x c = Some v.
Proof.
  intros Hlen Hsum Hin. unfold verticalSumAt.
  rewrite (num_sum_defined
             (fun k => getAt (replicate L (Some v))
                         ((IZR (tapIndexZ t k) * tw + INR x) * 4 + INR c))
             (fun _ => v) (fun k => sample (weights t) k)).
  - f_equal. by apply (weighted_sum_flat (fun _ => v) (weights t) v).
  - intros k Hk. apply elem_of_seq in Hk.
    destruct (Hin k) as [n Hn]; [lia|].
    unfold getAt. rewrite length_replicate, Hn.
    apply validIndex_Some in Hn as [_ Hn].
    by rewrite lookup_replicate_2.
Qed.

Lemma verticalSumAt_nan (tmp : list num) (tw : R) (t : Taps) (x c k : nat) :
  k < 6 ->
  validIndex (length tmp) ((IZR (tapIndexZ t k) * tw + INR x) * 4 + INR c)
  = None ->
  verticalSumAt tmp tw t x c = None.
Proof.
  intros Hk Hout. unfold verticalSumAt.
  apply (num_sum_nan
           (fun k => num_mul
                       (getAt tmp ((IZR (tapIndexZ t k) * tw + INR x) * 4 + INR c))
                       (Some (sample (weights t) k)))
           (seq 0 6) k).
  - apply elem_of_seq. lia.
  - unfold getAt. by rewrite Hout.
Qed.

Lemma quantised_nan_alpha (r g b : num) (d : R) :
  quantised r g b None d = (0, 0, 0, 0)%Z.
Proof. unfold quantised. by destruct r, g, b. Qed.

(** *** An opaque 3 x 2 image resized to 1.5 x 2 *)

Lemma loopCount_3_2 : loopCount (3 / 2) = 2.
Proof. unfold loopCount. rewrite (Zceil_eq 2); [done | lra]. Qed.

Lemma tapCenterAt_3_2 (x : nat) :
  tapCenterAt 3 (3 / 2) x = (IZR (2 * Z.of_nat x) + 1 / 2)%R.
Proof.
  unfold tapCenterAt. rewrite mult_IZR, <- INR_IZR_INZ. simpl (INR 3). lra.
Qed.

Lemma opaque_horizontal :
  horizontalPassAt (IZR <$> opaqueSource) 3 2 (3 / 2) 12
  = replicate 12 (Some 255%R).
Proof.
  unfold horizontalPassAt, opaqueSource. rewrite fmap_replicate, loopCount_3_2.
  assert (Hsum : forall x y c, y < 2 -> c < 4 ->
            horizontalSumAt (replicate (3 * 2 * 4) 255%R) 3 (tapsAt 3 (3 / 2) x) y c
            = Some 255%R).
  { intros x y c Hy Hc. unfold tapsAt. rewrite tapCenterAt_3_2.
    apply horizontalSumAt_flat; [lia | done | done |].
    apply rawTaps_half_nonzero. }
  cbn [seq foldl]. unfold horizontalPixelAt. rewrite !Hsum by lia.
  replace ((INR 0 * (3 / 2) + INR 0) * 4)%R with (INR 0) by (simpl; lra).
  replace ((INR 1 * (3 / 2) + INR 0) * 4)%R with (INR 6) by (simpl; lra).
  replace ((INR 0 * (3 / 2) + INR 1) * 4)%R with (INR 4) by (simpl; lra).
  replace ((INR 1 * (3 / 2) + INR 1) * 4)%R with (INR 10) by (simpl; lra).
  rewrite !store4At_INR. reflexivity.
Qed.

Lemma tapCenterAt_2_2 (y : nat) : tapCenterAt 2 2 y = IZR (Z.of_nat y).
Proof. unfold tapCenterAt. rewrite <- INR_IZR_INZ. simpl (INR 2). lra. Qed.

Lemma index_3_2 (i : Z) (x c : nat) :
  ((IZR i * (3 / 2) + INR x) * 4 + INR c)%R
  = IZR (6 * i + 4 * Z.of_nat x + Z.of_nat c).
Proof. rewrite !plus_IZR, !mult_IZR, <- !INR_IZR_INZ. lra. Qed.

Lemma opaque_sum_defined (y c : nat) :
  c < 4 ->
  verticalSumAt (replicate 12 (Some 255%R)) (3 / 2) (tapsAt 2 2 y) 0 c
  = Some 255%R.
Proof.
  intros Hc. unfold tapsAt. rewrite tapCenterAt_2_2.
  destruct (tapsAround_weights_sum (IZR (Z.of_nat y)) 2) as [Hlen Hsum].
  { rewrite rawTaps_at_integer. lra. }
  apply verticalSumAt_flat; [done | done |].
  intros k Hk.
  destruct (tapIndexZ_range (IZR (Z.of_nat y)) 2 k) as [H0 H1]; [lia | done |].
  rewrite index_3_2, validIndex_IZR_in by lia. eauto.
Qed.

Lemma opaque_sum_nan (y : nat) :
  verticalSumAt (replicate 12 (Some 255%R)) (3 / 2) (tapsAt 2 2 y) 1 3 = None.
Proof.
  apply (verticalSumAt_nan _ _ _ 1 3 5); [lia|].
  rewrite length_replicate, index_3_2.
  assert (Hidx : tapIndexZ (tapsAt 2 2 y) 5 = 1%Z).
  { unfold tapsAt, tapIndexZ. rewrite tapCenterAt_2_2, tapsAround_unfold.
    cbn [indices]. rewrite rawTaps_unfold. cbn [fst snd].
    rewrite ZfloorZ. simpl. lia. }
  rewrite Hidx. by apply validIndex_IZR_out; right.
Qed.

Lemma opaque_pixel_0 (fd : list Z) (n y : nat) :
  verticalPixelAt (fun _ => 0%R) (replicate 12 (Some 255%R)) (3 / 2)
    (tapsAt 2 2 y) y (fd, n) 0
  = (store4 fd (6 * y) 254%Z 254%Z 254%Z 254%Z, S (S n)).
Proof.
  unfold verticalPixelAt. rewrite !opaque_sum_defined by lia.
  unfold drawDither, Math_random. rewrite quantised_defined.
  replace (Rmin 255 255 + (0 + 0 - 1.0))%R with (IZR 254)
    by (unfold Rmin; destruct (Rle_dec 255 255); lra).
  replace (255 + (0 + 0 - 1.0))%R with (IZR 254) by lra.
  rewrite ToUint8Clamp_IZR.
  replace ((INR y * (3 / 2) + INR 0) * 4)%R with (INR (6 * y))
    by (rewrite mult_INR; simpl; lra).
  by rewrite store4At_INR.
Qed.

Lemma opaque_pixel_1 (fd : list Z) (n y : nat) :
  verticalPixelAt (fun _ => 0%R) (replicate 12 (Some 255%R)) (3 / 2)
    (tapsAt 2 2 y) y (fd, n) 1
  = (store4 fd (6 * y + 4) 0%Z 0%Z 0%Z 0%Z, S (S n)).
Proof.
  unfold verticalPixelAt. rewrite opaque_sum_nan.
  unfold drawDither, Math_random. rewrite quantised_nan_alpha.
  replace ((INR y * (3 / 2) + INR 1) * 4)%R with (INR (6 * y + 4))
    by (rewrite plus_INR, mult_INR; simpl; lra).
  by rewrite store4At_INR.
Qed.

(** The run: pixel number 2 of the output has the green byte 254 and the
    alpha byte 0. *)
Lemma opaque_resample (fuel : nat) :
  resampleAt (fun _ => 0%R) fuel opaqueSource 3 2 (3 / 2) 2 0
  = Done [254; 254; 254; 254; 0; 0; 254; 254; 254; 254; 0; 0]%Z 8.
Proof.
  unfold resampleAt.
  rewrite pyramid_stops
    by (apply pyramidContinues_false; left; simpl; lra).
  cbn [floatSrc srcW srcH].
  replace (3 / 2 * INR 2 * 4)%R with (INR 12) by (simpl; lra).
  replace (3 / 2 * 2 * 4)%R with (INR 12) by (simpl; lra).
  rewrite !arrayLength_INR. cbv zeta. rewrite opaque_horizontal.
  unfold verticalPassAt, verticalBefore, verticalRow.
  replace (loopCount 2) with 2
    by (symmetry; replace 2%R with (INR 2) by (simpl; lra); apply loopCount_INR).
  rewrite loopCount_3_2. cbn [seq foldl].
  rewrite !opaque_pixel_0, !opaque_pixel_1, !opaque_pixel_0, !opaque_pixel_1.
  reflexivity.
Qed.

End ResampleAtFacts.

(** ** The claims about the numeric stages *)

Module ResampleClaims.
Import Resample ResampleFacts Vocabulary ResampleSamples ResampleAtFacts.




(** C4: from a source buffer of [w] x [h] pixels, at least 1 x 1, and
    targets of at least 1, the loop returns after at most [w] passes with a
    buffer that is again at least 1 x 1, and then the width is at most
    twice the target width or the height at most twice the target height.
    A pass runs while both tests hold and replaces the buffer by one of
    [floor(w/2)] by [floor(h/2)] pixels, each channel of each pixel being
    the average of the 2 x 2 block of the source at twice its position,
    a block that lies inside the source. *)
Theorem pyramid_halves_until_within_twice (src : list R) (w h : nat)
    (targetWidth targetHeight : R) :
  1 <= w -> 1 <= h -> length src = w * h * 4 ->
  (1 <= targetWidth)%R -> (1 <= targetHeight)%R ->
  let p := {| floatSrc := src; srcW := w; srcH := h |} in
  (exists p', (forall fuel, w <= fuel ->
                 pyramid fuel p targetWidth targetHeight = Some p') /\
              wellFormed p' /\
              withinTwice p' targetWidth targetHeight) /\
  (forall q fuel,
     pyramid (S fuel) q targetWidth targetHeight =
     if pyramidContinues q targetWidth targetHeight
     then pyramid fuel (halve q) targetWidth targetHeight else Some q) /\
  (forall q,
     pyramidContinues q targetWidth targetHeight = true <->
     (INR (srcW q) > targetWidth * 2 /\ INR (srcH q) > targetHeight * 2)%R) /\
  (forall q,
     srcW (halve q) = srcW q / 2 /\ srcH (halve q) = srcH q / 2 /\
     length (floatSrc (halve q)) = (srcW q / 2) * (srcH q / 2) * 4 /\
     forall x y c, x < srcW q / 2 -> y < srcH q / 2 -> c < 4 ->
       (2 * x + 1 < srcW q /\ 2 * y + 1 < srcH q) /\
       pixelAt (floatSrc (halve q)) (srcW q / 2) x y c =
       ((pixelAt (floatSrc q) (srcW q) (2 * x) (2 * y) c
         + pixelAt (floatSrc q) (srcW q) (2 * x + 1) (2 * y) c
         + pixelAt (floatSrc q) (srcW q) (2 * x) (2 * y + 1) c
         + pixelAt (floatSrc q) (srcW q) (2 * x + 1) (2 * y + 1) c) / 4)%R).
Proof.
  intros Hw Hh Hlen Htw Hth p. split; [|split; [|split]].
  - destruct (pyramid_terminates targetWidth targetHeight w p) as (p' & Hrun & Hexit);
      [lra | done |].
    exists p'. split; [done|]. split; [|by apply pyramidContinues_false].
    apply (pyramid_wellFormed w p p' targetWidth targetHeight); [done | done | |].
    + by unfold wellFormed.
    + by apply Hrun.
  - intros q fuel. simpl. done.
  - intros q. unfold pyramidContinues.
    destruct (Rlt_dec _ _); [|split; [done | lra]].
    destruct (Rlt_dec _ _); split; try done; lra.
  - intros q. split; [done|]. split; [done|].
    destruct (halve_pixels q) as [Hl Hcells]. split; [done|].
    intros x y c Hx Hy Hc. split; [by apply block_in_range|].
    unfold pixelAt at 1. unfold sample.
    rewrite (Hcells y x c Hy Hx Hc). cbn [default]. apply boxAverage_block.
Qed.

Lemma pyramid_halves_until_within_twice_witness :
  exists p',
    (forall fuel, 9 <= fuel ->
       pyramid fuel {| floatSrc := replicate (9 * 9 * 4) 0%R; srcW := 9; srcH := 9 |}
               2 2 = Some p') /\
    wellFormed p' /\ withinTwice p' 2 2.
Proof.
  destruct (pyramid_halves_until_within_twice (replicate (9 * 9 * 4) 0%R) 9 9 2 2)
    as [H _].
  - lia.
  - lia.
  - reflexivity.
  - lra.
  - lra.
  - exact H.
Defined.

(** C5: along either axis, for every output coordinate: when the raw sum
    of the six weights is not zero, each weight is divided by it and the
    six weights then sum to 1; when the raw sum is zero, the weights are
    left as they are and no division takes place.  No divisor is zero. *)
Theorem taps_renormalized (srcSize targetSize out : nat) :
  let raw := rawTaps (tapCenter srcSize targetSize out) srcSize in
  let rawWeights := raw.1.1 in
  let weightSum := raw.2 in
  let t := taps srcSize targetSize out in
  length rawWeights = 6 /\ weightSum = Rsum rawWeights /\
  (weightSum <> 0%R ->
     weights t = (fun w => w / weightSum)%R <$> rawWeights /\
     Rsum (weights t) = 1%R /\ divisors t = replicate 6 weightSum) /\
  (weightSum = 0%R -> weights t = rawWeights /\ divisors t = []) /\
  Forall (fun d => d <> 0%R) (divisors t).
Proof.
  intros raw rawWeights weightSum t.
  destruct (rawTaps_sum (tapCenter srcSize targetSize out) srcSize) as [Hlen Hsum].
  fold raw in Hlen, Hsum. fold rawWeights in Hlen, Hsum. fold weightSum in Hsum.
  assert (Ht : t = {| weights := (renormalize rawWeights weightSum).1;
                      indices := raw.1.2;
                      divisors := (renormalize rawWeights weightSum).2 |})
    by apply taps_unfold.
  split; [done|]. split; [done|]. rewrite Ht. cbn [weights divisors].
  repeat split.
  - by rewrite renormalize_nonzero.
  - rewrite renormalize_nonzero by done. cbn [fst].
    rewrite Rsum_div, <- Hsum. by apply Rinv_r.
  - by rewrite renormalize_nonzero.
  - rewrite H. by rewrite renormalize_zero.
  - rewrite H. by rewrite renormalize_zero.
  - destruct (Req_dec_T weightSum 0) as [E|NE].
    + rewrite E, renormalize_zero. constructor.
    + rewrite renormalize_nonzero by done. cbn [snd].
      apply Forall_forall. intros d Hd.
      apply elem_of_replicate in Hd as [-> _]. done.
Qed.

Lemma taps_renormalized_witness : Rsum (weights (taps 4 4 1)) = 1%R.
Proof.
  destruct (taps_renormalized 4 4 1) as (_ & _ & H & _).
  apply H. rewrite tapCenter_same_size, rawTaps_at_integer. lra.
Defined.




End ResampleClaims.

(** ** Facts about [resizeImage] and the packaging loop *)

Module PackagerFacts.
Import JsNumber Sizing Packager.

Section WithBrowser.

Context {World : Type} (env : Browser World).

(** *** [resizeImage] *)

(** The result is [null] exactly when the body throws or returns [null]. *)
Lemma resizeImage_None (b : Blob) (tw th : number) (w : World) :
  (resizeImage env b tw th w).1 = None <->
  (exists e, (resizeImageBody env b tw th w).1 = Thrown e) \/
  (resizeImageBody env b tw th w).1 = Returned None.
Proof.
  unfold resizeImage.
  destruct (resizeImageBody env b tw th w) as [[r|e] w']; cbn [fst].
  - split; [intros ->; by right | intros [[e [=]]|[= ->]]; done].
  - split; [intros _; left; by exists e | done].
Qed.

(** Decoding fails. *)
Lemma resizeImage_decode_throws (b : Blob) (tw th : number) (w w' : World)
    (e : string) :
  createImageBitmap env b w = (Thrown e, w') ->
  resizeImage env b tw th w = (None, w').
Proof.
  intros H. unfold resizeImage, resizeImageBody, bind. by rewrite H.
Qed.

(** The import gives no raw buffer: the body throws and the result is
    [null]. *)
Lemma resizeImage_import_null (b : Blob) (tw th : number) (w w1 w2 : World)
    (img : ImageBitmap) :
  createImageBitmap env b w = (Returned img, w1) ->
  getContext env w1 = (Returned false, w2) ->
  resizeImageBody env b tw th w = (Thrown "WebGL Import Failed", w2) /\
  resizeImage env b tw th w = (None, w2).
Proof.
  intros H1 H2.
  assert (Hbody : resizeImageBody env b tw th w
                  = (Thrown "WebGL Import Failed", w2)).
  { unfold resizeImageBody, getRawBytesViaWebGL, bind. rewrite H1.
    unfold bind. by rewrite H2. }
  split; [done|]. unfold resizeImage. by rewrite Hbody.
Qed.

(** A numeric stage throws. *)
Lemma resizeImage_stage_throws (b : Blob) (tw th : number)
    (w w1 w2 w3 w4 : World) (img : ImageBitmap) (raw : list Z) (e : string) :
  createImageBitmap env b w = (Returned img, w1) ->
  getContext env w1 = (Returned true, w2) ->
  readPixels env img (bitmapWidth img) (bitmapHeight img) w2 = (Returned raw, w3) ->
  numericStages env raw (bitmapWidth img) (bitmapHeight img) tw th w3
    = (Thrown e, w4) ->
  resizeImage env b tw th w = (None, w4).
Proof.
  intros H1 H2 H3 H4.
  unfold resizeImage, resizeImageBody, getRawBytesViaWebGL, bind.
  rewrite H1, H2. cbn [negb]. rewrite H3. unfold ret. by rewrite H4.
Qed.

(** What the numeric stages do for natural target sizes. *)
Lemma numericStages_natural (raw : list Z) (sw sh tw th : nat)
    (targetWidth targetHeight : number) (w w1 : World) :
  toSize targetWidth = Some tw -> toSize targetHeight = Some th ->
  allocationFails env sw sh tw th w = (Returned false, w1) ->
  exists out : list Z * nat,
    Resample.resample (randomValues env w1) sw raw sw sh tw th 0 = Some out /\
    numericStages env raw sw sh targetWidth targetHeight w
    = (Returned out.1, afterRandom env out.2 w1).
Proof.
  intros Htw Hth Halloc.
  destruct (ResampleFacts.resample_total (randomValues env w1) raw sw sh tw th 0)
    as [[data n] Hout].
  exists (data, n). split; [done|].
  unfold numericStages, bind. rewrite Htw, Hth, Halloc. by rewrite Hout.
Qed.

Lemma numericStages_range_error (raw : list Z) (sw sh tw th : nat)
    (targetWidth targetHeight : number) (w w1 : World) :
  toSize targetWidth = Some tw -> toSize targetHeight = Some th ->
  allocationFails env sw sh tw th w = (Returned true, w1) ->
  numericStages env raw sw sh targetWidth targetHeight w
  = (Thrown "RangeError", w1).
Proof.
  intros Htw Hth Halloc. unfold numericStages, bind. by rewrite Htw, Hth, Halloc.
Qed.

(** The encoding gives no blob. *)
Lemma resizeImage_encode_null (b : Blob) (tw th : number)
    (w w1 w2 w3 w4 w5 w6 : World) (img : ImageBitmap) (raw data : list Z)
    (gl : bool) :
  createImageBitmap env b w = (Returned img, w1) ->
  getContext env w1 = (Returned true, w2) ->
  readPixels env img (bitmapWidth img) (bitmapHeight img) w2 = (Returned raw, w3) ->
  numericStages env raw (bitmapWidth img) (bitmapHeight img) tw th w3
    = (Returned data, w4) ->
  getContext env w4 = (Returned gl, w5) ->
  (gl = true -> toBlob env data tw th w5 = (Returned None, w6)) ->
  (resizeImage env b tw th w).1 = None.
Proof.
  intros H1 H2 H3 H4 H5 H6.
  unfold resizeImage, resizeImageBody, getRawBytesViaWebGL,
    exportBytesViaWebGL, bind.
  rewrite H1, H2. cbn [negb]. rewrite H3. unfold ret. rewrite H4, H5.
  destruct gl; cbn [negb]; [by rewrite H6 | done].
Qed.

(** *** One pass of the loop *)

Lemma processTask_files (root : string) (total : nat) (st : ZipRun World)
    (task : OptimizationTask) :
  files (processTask env root total st task)
  = <[root +:+ fileName task := storedBytes env st task]> (files st).
Proof.
  unfold processTask, storedBytes, JSZip_file.
  destruct (isResize task); [|done].
  destruct (resizeImage env _ _ _ _) as [[r|] w']; done.
Qed.

Lemma processTask_counters (root : string) (total : nat) (st : ZipRun World)
    (task : OptimizationTask) :
  completed (processTask env root total st task) = S (completed st) /\
  progress (processTask env root total st task)
  = progress st ++ [(S (completed st), total)].
Proof.
  unfold processTask.
  destruct (isResize task); [|done].
  destruct (resizeImage env _ _ _ _) as [[r|] w']; done.
Qed.

Lemma processTask_copy (root : string) (total : nat) (st : ZipRun World)
    (task : OptimizationTask) :
  isResize task = false ->
  resizeCalls (processTask env root total st task) = resizeCalls st /\
  world (processTask env root total st task) = world st.
Proof. intros H. unfold processTask. by rewrite H. Qed.

Lemma processTask_calls (root : string) (total : nat) (st : ZipRun World)
    (task : OptimizationTask) :
  resizeCalls (processTask env root total st task)
  = resizeCalls st ++
    (if isResize task
     then [(blob task, targetWidth task, targetHeight task)] else []).
Proof.
  unfold processTask.
  destruct (isResize task); [|by rewrite app_nil_r].
  destruct (resizeImage env _ _ _ _) as [[r|] w']; done.
Qed.

(** *** The whole loop *)

Lemma foldl_files_frame (root : string) (total : nat)
    (tasks : list OptimizationTask) (st : ZipRun World) (name : string) :
  Forall (fun t => fileName t <> name) tasks ->
  files (foldl (processTask env root total) st tasks) !! (root +:+ name)
  = files st !! (root +:+ name).
Proof.
  intros H. revert st. induction H as [|t tasks Ht _ IH]; intros st; [done|].
  simpl. rewrite IH, processTask_files.
  apply lookup_insert_ne. intros E. by apply (inj (String.append root)) in E.
Qed.

Lemma foldl_counters (root : string) (total : nat)
    (tasks : list OptimizationTask) (st : ZipRun World) :
  completed (foldl (processTask env root total) st tasks)
  = completed st + length tasks /\
  progress (foldl (processTask env root total) st tasks)
  = progress st ++ ((fun k => (completed st + S k, total)) <$> seq 0 (length tasks)).
Proof.
  revert st. induction tasks as [|t tasks IH]; intros st.
  - simpl. split; [lia | by rewrite app_nil_r].
  - simpl. destruct (IH (processTask env root total st t)) as [Hc Hp].
    destruct (processTask_counters root total st t) as [Hc1 Hp1].
    rewrite Hc, Hp, Hc1, Hp1. split; [lia|].
    rewrite <- app_assoc. f_equal. simpl. f_equal.
    + f_equal. lia.
    + rewrite <- fmap_S_seq, <- list_fmap_compose. apply list_fmap_ext.
      intros _ k _. simpl. f_equal. lia.
Qed.

Lemma foldl_calls (root : string) (total : nat)
    (tasks : list OptimizationTask) (st : ZipRun World) :
  resizeCalls (foldl (processTask env root total) st tasks)
  = resizeCalls st ++
    ((fun t => (blob t, targetWidth t, targetHeight t))
       <$> filter (fun t => isResize t = true) tasks).
Proof.
  revert st. induction tasks as [|t tasks IH]; intros st.
  - simpl. by rewrite app_nil_r.
  - simpl. rewrite IH, processTask_calls, <- app_assoc. f_equal.
    destruct (isResize t) eqn:E.
    + by rewrite filter_cons_True.
    + rewrite filter_cons_False by congruence. done.
Qed.

(** The run, split at task number [i]. *)
Lemma generateOptimizedZip_split (tasks : list OptimizationTask) (w : World)
    (i : nat) (task : OptimizationTask) :
  tasks !! i = Some task ->
  generateOptimizedZip env tasks w
  = foldl (processTask env "images_optimized/" (length tasks))
      (processTask env "images_optimized/" (length tasks)
         (stateBefore env tasks w i) task)
      (drop (S i) tasks).
Proof.
  intros Hi. unfold generateOptimizedZip, stateBefore, runTasks. cbn [JSZip_folder].
  change ("" +:+ "images_optimized" +:+ "/") with "images_optimized/".
  rewrite <- (take_drop_middle tasks i task Hi) at 2.
  by rewrite foldl_app.
Qed.

(** The entry of a task in the finished archive, when no later task has
    its file name. *)
Lemma generateOptimizedZip_entry (tasks : list OptimizationTask) (w : World)
    (i : nat) (task : OptimizationTask) :
  tasks !! i = Some task ->
  lastOfItsName tasks i task ->
  files (generateOptimizedZip env tasks w) !! entryName task
  = Some (storedBytes env (stateBefore env tasks w i) task).
Proof.
  intros Hi Hlast. rewrite (generateOptimizedZip_split tasks w i task Hi).
  unfold entryName. rewrite foldl_files_frame.
  - rewrite processTask_files. apply lookup_insert_eq.
  - apply Forall_forall. intros t Ht.
    apply list_elem_of_lookup in Ht as [j Hj].
    rewrite lookup_drop in Hj. apply (Hlast (S i + j) t); [lia | done].
Qed.

Lemma foldl_files_keeps (root : string) (total : nat)
    (tasks : list OptimizationTask) (st : ZipRun World) (k : string) :
  is_Some (files st !! k) ->
  is_Some (files (foldl (processTask env root total) st tasks) !! k).
Proof.
  revert st. induction tasks as [|t tasks IH]; intros st Hk; [done|].
  simpl. apply IH. rewrite processTask_files.
  apply lookup_insert_is_Some. destruct (decide (root +:+ fileName t = k)); auto.
Qed.

(** Every task has an entry in the finished archive. *)
Lemma generateOptimizedZip_entry_exists (tasks : list OptimizationTask)
    (w : World) (i : nat) (task : OptimizationTask) :
  tasks !! i = Some task ->
  is_Some (files (generateOptimizedZip env tasks w) !! entryName task).
Proof.
  intros Hi. rewrite (generateOptimizedZip_split tasks w i task Hi).
  apply foldl_files_keeps. rewrite processTask_files.
  unfold entryName. rewrite lookup_insert_eq. eauto.
Qed.

End WithBrowser.

Example toSize_samples :
  toSize (of_Z 20) = Some 20 /\ toSize (of_Z 0) = Some 0 /\
  toSize (div (of_Z 25) (of_Z 2)) = None /\ toSize NaN = None /\
  toSize (of_Z (-3)) = None.
Proof. repeat split; by vm_compute. Qed.

(** Every file name the sizing policy makes ends in [.png]. *)
Lemma calculate_png (stats : list GlobalAssetStat)
    (imgs : list (string * LoadedImage)) (b : option number)
    (t : OptimizationTask) :
  t ∈ calculateOptimizationTargets stats imgs b ->
  exists base, fileName t = base +:+ ".png".
Proof.
  intros Ht. apply SizingFacts.calculate_elem in Ht as (k & o & s & _ & _ & ->).
  cbn [makeTask fileName]. unfold outputFileName. eauto.
Qed.

End PackagerFacts.

(** ** Facts about the numeric stages inside [resizeImage] *)

Module NumericStagesFacts.
Import JsNumber Sizing Resample ResampleFacts Packager PackagerFacts Vocabulary.
Import ResampleSamples ResampleAtFacts PackagerSamples.

(** *** Target sizes that are not natural numbers *)

Lemma pyramidContinues_tall (p : Pyramid) (tw th : R) :
  (0 <= th)%R -> pyramidContinues p tw th = true -> 0 < srcH p.
Proof.
  unfold pyramidContinues. intros Hth H.
  destruct (Rlt_dec (tw * 2) (INR (srcW p))); [|done].
  destruct (Rlt_dec (th * 2) (INR (srcH p))) as [Hlt|]; [|done].
  destruct (srcH p); [simpl in Hlt; lra | lia].
Qed.

(** With a height target that is not negative the pyramid returns after
    at most as many passes as the source is high. *)
Lemma pyramid_terminates_height (tw th : R) (n : nat) (p : Pyramid) :
  (0 <= th)%R -> srcH p <= n ->
  exists p', (forall fuel, n <= fuel -> pyramid fuel p tw th = Some p') /\
             pyramidContinues p' tw th = false.
Proof.
  intros Hth. revert p. induction n as [|n IH]; intros p Hn.
  - destruct (pyramidContinues p tw th) eqn:E.
    + apply pyramidContinues_tall in E; [lia | done].
    + exists p. split; [|done]. intros fuel _. by apply pyramid_stops.
  - destruct (pyramidContinues p tw th) eqn:E.
    + pose proof (pyramidContinues_tall _ _ _ Hth E) as Hpos.
      destruct (IH (halve p)) as (p' & Hrun & Hexit).
      { cbn [halve srcH]. pose proof (Nat.div_lt (srcH p) 2). lia. }
      exists p'. split; [|done]. intros [|fuel] Hfuel; [lia|].
      simpl. rewrite E. apply Hrun. lia.
    + exists p. split; [|done]. intros fuel _. by apply pyramid_stops.
Qed.

(** Unless both target sizes are negative, [w + h] passes are enough. *)
Lemma resampleAt_returns (rand : nat -> R) (rawData : list Z) (w h : nat)
    (tw th : R) (n : nat) :
  (0 <= tw)%R \/ (0 <= th)%R ->
  resampleAt rand (w + h) rawData w h tw th n <> StillRunning.
Proof.
  intros Hpos. unfold resampleAt.
  assert (Hp : exists p,
            pyramid (w + h)
              {| floatSrc := IZR <$> rawData; srcW := w; srcH := h |} tw th
            = Some p).
  { destruct Hpos as [Htw|Hth].
    - destruct (pyramid_terminates tw th w
                  {| floatSrc := IZR <$> rawData; srcW := w; srcH := h |})
        as (p & Hrun & _); [done | done |].
      exists p. apply Hrun. lia.
    - destruct (pyramid_terminates_height tw th h
                  {| floatSrc := IZR <$> rawData; srcW := w; srcH := h |})
        as (p & Hrun & _); [done | done |].
      exists p. apply Hrun. lia. }
  destruct Hp as [p ->].
  destruct (arrayLength (tw * INR (srcH p) * 4)); [|done].
  by destruct (arrayLength (tw * th * 4)).
Qed.

(** With two negative target sizes the test of the pyramid loop is true
    whatever the size of the buffer: the loop does not end. *)
Lemma pyramid_runs_on (fuel : nat) (p : Pyramid) (tw th : R) :
  (tw < 0)%R -> (th < 0)%R -> pyramid fuel p tw th = None.
Proof.
  intros Htw Hth. revert p.
  assert (Hc : forall p, pyramidContinues p tw th = true).
  { intros p. unfold pyramidContinues.
    pose proof (pos_INR (srcW p)). pose proof (pos_INR (srcH p)).
    destruct (Rlt_dec _ _); [|lra]. destruct (Rlt_dec _ _); [done | lra]. }
  induction fuel as [|fuel IH]; intros p; simpl; rewrite Hc; [done|]. apply IH.
Qed.

(** What the numeric stages do for finite target sizes that are not both
    natural numbers. *)
Lemma numericStages_real {World : Type} (env : Browser World)
    (raw : list Z) (sw sh : nat) (targetWidth targetHeight : number)
    (tw th : R) (w w1 : World) (finalData : list Z) (n : nat) :
  toSize targetWidth = None \/ toSize targetHeight = None ->
  toReal targetWidth = Some tw -> toReal targetHeight = Some th ->
  allocationFailsAt env sw sh targetWidth targetHeight w = (Returned false, w1) ->
  resampleAt (randomValues env w1) (sw + sh) raw sw sh tw th 0
    = Done finalData n ->
  numericStages env raw sw sh targetWidth targetHeight w
  = (Returned finalData, afterRandom env n w1).
Proof.
  intros Hnat Htw Hth Halloc Hrun. unfold numericStages.
  assert (Hbranch :
            match toSize targetWidth, toSize targetHeight with
            | Some _, Some _ => False
            | _, _ => True
            end).
  { destruct Hnat as [-> | ->]; [done|]. by destruct (toSize targetWidth). }
  destruct (toSize targetWidth), (toSize targetHeight); try done;
    rewrite Htw, Hth; unfold bind; rewrite Halloc; by rewrite Hrun.
Qed.

(** The number 1.5. *)
Lemma toReal_three_halves : toReal (div (of_Z 3) (of_Z 2)) = Some (3 / 2)%R.
Proof.
  assert (E : div (of_Z 3) (of_Z 2)
              = S754_finite false 6755399441055744 (-52))
    by (vm_compute; reflexivity).
  rewrite E. unfold toReal. f_equal. unfold powerRZ.
  rewrite pow_IZR, positive_nat_Z.
  replace (2 ^ 52)%Z with 4503599627370496%Z by reflexivity. lra.
Qed.

Lemma toReal_two : toReal (of_Z 2) = Some 2%R.
Proof.
  assert (E : of_Z 2 = S754_finite false 4503599627370496 (-51))
    by (vm_compute; reflexivity).
  rewrite E. unfold toReal. f_equal. unfold powerRZ.
  rewrite pow_IZR, positive_nat_Z.
  replace (2 ^ 51)%Z with 2251799813685248%Z by reflexivity. lra.
Qed.

(** The sizing policy hands the 1.5 of an overridden stat on as it is, and
    the task is to be resized. *)
Lemma fractionalTasks_target :
  exists task,
    fractionalTasks = [task] /\ isResize task = true /\
    blob task = [Byte.x04] /\
    targetWidth task = div (of_Z 3) (of_Z 2) /\ targetHeight task = of_Z 2 /\
    toSize (targetWidth task) = None.
Proof.
  eexists. split; [vm_compute; reflexivity|].
  repeat split; vm_compute; reflexivity.
Qed.

(** The numeric stages on the image of that task: the buffer handed to the
    encoder has a pixel whose green byte is 254 and whose alpha byte is
    0. *)
Lemma fractional_stages :
  numericStages opaqueBrowser opaqueSource 3 2
    (div (of_Z 3) (of_Z 2)) (of_Z 2) tt
  = (Returned [254; 254; 254; 254; 0; 0; 254; 254; 254; 254; 0; 0]%Z, tt).
Proof.
  apply (numericStages_real opaqueBrowser opaqueSource 3 2 _ _
           (3 / 2)%R 2%R tt tt _ 8).
  - left. vm_compute. reflexivity.
  - apply toReal_three_halves.
  - apply toReal_two.
  - reflexivity.
  - apply opaque_resample.
Qed.

End NumericStagesFacts.

(** ** The claims about failure handling and packaging *)

Module PackagerClaims.
Import JsNumber Sizing Packager PackagerFacts.

(** C6, as amended: [resizeImage] returns [null] whenever its body throws
    or ends without a blob (decoding fails, the import gives no raw buffer,
    a numeric stage throws, the encoding gives no blob).  When it does so
    for a task, the loop sets the task's entry under the root folder to the
    task's own source bytes and goes on: every task gets one pass and one
    progress report.  The finished archive holds those bytes under the
    task's file name provided no later task has the same file name. *)
Theorem failed_resize_falls_back {World : Type} (env : Browser World)
    (tasks : list OptimizationTask) (w0 : World) (i : nat)
    (task : OptimizationTask) :
  tasks !! i = Some task ->
  isResize task = true ->
  (resizeImage env (blob task) (targetWidth task) (targetHeight task)
     (world (stateBefore env tasks w0 i))).1 = None ->
  let run := generateOptimizedZip env tasks w0 in
  let before := stateBefore env tasks w0 i in
  let after := processTask env "images_optimized/" (length tasks) before task in
  files after = <[entryName task := blob task]> (files before) /\
  (lastOfItsName tasks i task -> files run !! entryName task = Some (blob task)) /\
  is_Some (files run !! entryName task) /\
  completed run = length tasks /\
  progress run = (fun k => (S k, length tasks)) <$> seq 0 (length tasks) /\
  (forall b tw th w,
     (resizeImage env b tw th w).1 = None <->
     (exists e, (resizeImageBody env b tw th w).1 = Thrown e) \/
     (resizeImageBody env b tw th w).1 = Returned None) /\
  (forall b tw th w w1 w2 img,
     createImageBitmap env b w = (Returned img, w1) ->
     getContext env w1 = (Returned false, w2) ->
     resizeImage env b tw th w = (None, w2)).
Proof.
  intros Hi Hres Hnull run before after.
  assert (Hstored : storedBytes env before task = blob task).
  { unfold storedBytes, before. by rewrite Hres, Hnull. }
  repeat split.
  - unfold after. rewrite processTask_files, Hstored. done.
  - intros Hlast. unfold run.
    rewrite (generateOptimizedZip_entry env tasks w0 i task Hi Hlast).
    by rewrite <- Hstored.
  - by apply (generateOptimizedZip_entry_exists env tasks w0 i).
  - unfold run, generateOptimizedZip, runTasks. cbn [JSZip_folder].
    destruct (foldl_counters env ("" +:+ "images_optimized" +:+ "/")
                (length tasks) tasks (initialRun w0)) as [-> _]. done.
  - unfold run, generateOptimizedZip, runTasks. cbn [JSZip_folder].
    destruct (foldl_counters env ("" +:+ "images_optimized" +:+ "/")
                (length tasks) tasks (initialRun w0)) as [_ ->]. done.
  - apply resizeImage_None.
  - apply resizeImage_None.
  - intros b tw th w w1 w2 img H1 H2.
    by apply (resizeImage_import_null env b tw th w w1 w2 img).
Qed.

Lemma failed_resize_falls_back_witness :
  files (generateOptimizedZip brokenBrowser fallbackTasks tt)
    !! "images_optimized/arm.png" = Some [Byte.x01].
Proof.
  destruct (failed_resize_falls_back brokenBrowser fallbackTasks tt 0
              (makeTask (sampleStat "arm.jpg" 20 30) armJpg (of_Z 0)))
    as (_ & H & _).
  - vm_compute. reflexivity.
  - vm_compute. reflexivity.
  - vm_compute. reflexivity.
  - apply H. intros j t Hj Ht. destruct j as [|j]; [lia|].
    vm_compute in Ht. discriminate.
Defined.

(** C6 as it is stated fails: [arm.jpg] and [arm.png] of one folder both
    go to [arm.png]; the resize of the first fails, its bytes are stored,
    and the entry is then replaced by the second task. *)
Lemma failed_resize_counterexample :
  ~ (forall (World : Type) (env : Browser World)
            (tasks : list OptimizationTask) (w0 : World) (i : nat)
            (task : OptimizationTask),
       tasks !! i = Some task ->
       isResize task = true ->
       (resizeImage env (blob task) (targetWidth task) (targetHeight task)
          (world (stateBefore env tasks w0 i))).1 = None ->
       files (generateOptimizedZip env tasks w0) !! entryName task
       = Some (blob task)).
Proof.
  intros H.
  pose proof (H unit brokenBrowser collidingTasks tt 0
                (makeTask (sampleStat "arm.jpg" 20 30) armJpg (of_Z 0))) as Hne.
  vm_compute in Hne. specialize (Hne eq_refl eq_refl eq_refl). discriminate.
Qed.

(** C10, as amended: for a task that needs no resize the pass calls
    neither [resizeImage] nor anything else of the environment and sets
    the entry [images_optimized/<fileName>] to the task's own blob; over a
    whole run [resizeImage] is called for the tasks to resize and no
    others.  The finished archive holds that blob under the task's file
    name provided no later task has the same file name.  The file names
    made by the sizing policy end in [.png]. *)
Theorem unresized_task_copied {World : Type} (env : Browser World)
    (tasks : list OptimizationTask) (w0 : World) (i : nat)
    (task : OptimizationTask) :
  tasks !! i = Some task ->
  isResize task = false ->
  let run := generateOptimizedZip env tasks w0 in
  let before := stateBefore env tasks w0 i in
  let after := processTask env "images_optimized/" (length tasks) before task in
  files after = <[entryName task := blob task]> (files before) /\
  resizeCalls after = resizeCalls before /\
  world after = world before /\
  resizeCalls run
  = (fun t => (blob t, targetWidth t, targetHeight t))
      <$> filter (fun t => isResize t = true) tasks /\
  (lastOfItsName tasks i task -> files run !! entryName task = Some (blob task)) /\
  is_Some (files run !! entryName task) /\
  JSZip_folder "" "images_optimized" = Some "images_optimized/" /\
  (forall stats imgs b t,
     t ∈ calculateOptimizationTargets stats imgs b ->
     exists base, fileName t = base +:+ ".png").
Proof.
  intros Hi Hres run before after.
  assert (Hstored : storedBytes env before task = blob task).
  { unfold storedBytes. by rewrite Hres. }
  destruct (processTask_copy env "images_optimized/" (length tasks) before task Hres)
    as [Hcalls Hworld].
  repeat split.
  - unfold after. rewrite processTask_files, Hstored. done.
  - done.
  - done.
  - unfold run, generateOptimizedZip, runTasks. cbn [JSZip_folder].
    by rewrite foldl_calls.
  - intros Hlast. unfold run.
    rewrite (generateOptimizedZip_entry env tasks w0 i task Hi Hlast).
    by rewrite <- Hstored.
  - by apply (generateOptimizedZip_entry_exists env tasks w0 i).
  - intros stats imgs b t. apply calculate_png.
Qed.

Lemma unresized_task_copied_witness :
  files (generateOptimizedZip brokenBrowser copiedTasks tt)
    !! "images_optimized/arm.png" = Some [Byte.x02].
Proof.
  destruct (unresized_task_copied brokenBrowser copiedTasks tt 1
              (makeTask (sampleStat "arm.png" 8 8) armPng (of_Z 0)))
    as (_ & _ & _ & _ & H & _).
  - vm_compute. reflexivity.
  - vm_compute. reflexivity.
  - apply H. intros j t Hj Ht. destruct j as [|[|j]]; [lia | lia |].
    vm_compute in Ht. discriminate.
Defined.

(** C10 as it is stated fails: two unresized tasks with one file name; the
    entry holds the blob of the second, not of the first. *)
Lemma unresized_task_counterexample :
  ~ (forall (World : Type) (env : Browser World)
            (tasks : list OptimizationTask) (w0 : World) (i : nat)
            (task : OptimizationTask),
       tasks !! i = Some task ->
       isResize task = false ->
       files (generateOptimizedZip env tasks w0) !! entryName task
       = Some (blob task)).
Proof.
  intros H.
  pose proof (H unit brokenBrowser copiedTasks tt 0
                (makeTask (sampleStat "arm.jpg" 100 100) armJpg (of_Z 0))) as Hne.
  vm_compute in Hne. specialize (Hne eq_refl eq_refl). discriminate.
Qed.

End PackagerClaims.

(** ** Further facts about numbers, strings and the sizing policy *)

Module SizingMore.
Import JsNumber JsNumberFacts Sizing SizingFacts Vocabulary.

(** *** The order of binary64 values *)

Lemma SFcompare_antisym (a b : number) (c : comparison) :
  SFcompare a b = Some c -> SFcompare b a = Some (CompOpp c).
Proof.
  destruct a as [sa|sa| |sa ma ea], b as [sb|sb| |sb mb eb]; simpl;
    try discriminate; intros [= <-];
    try (destruct sa, sb; done); try (destruct sa; done); try (destruct sb; done).
  f_equal. rewrite (Z.compare_antisym ea eb).
  assert (Hm : Pos.compare_cont Eq mb ma = CompOpp (Pos.compare_cont Eq ma mb))
    by (by rewrite Pos.compare_cont_antisym).
  rewrite Hm.
  destruct sa, sb; try done; destruct (ea ?= eb)%Z; simpl; try done.
Qed.

Lemma SFcompare_trans (a b c : number) (r : comparison) :
  SFcompare a b = Some r -> SFcompare b c = Some r -> SFcompare a c = Some r.
Proof.
  destruct a as [sa|sa| |sa ma ea], b as [sb|sb| |sb mb eb],
           c as [sc|sc| |sc mc ec];
    simpl; try discriminate; intros [= <-];
    try (destruct sa, sb, sc; simpl; congruence).
  all: try (destruct sa, sb; simpl; congruence).
  all: try (destruct sa, sc; simpl; congruence).
  all: try (destruct sb, sc; simpl; congruence).
  change (Pos.compare_cont Eq ma mb) with (Pos.compare ma mb).
  change (Pos.compare_cont Eq mb mc) with (Pos.compare mb mc).
  change (Pos.compare_cont Eq ma mc) with (Pos.compare ma mc).
  intros H. injection H as H. f_equal. revert H.
  destruct sa, sb, sc; simpl; try congruence;
    destruct (Z.compare_spec ea eb), (Z.compare_spec eb ec),
             (Z.compare_spec ea ec); try lia; subst; simpl; try congruence;
    destruct (Pos.compare_spec ma mb), (Pos.compare_spec mb mc),
             (Pos.compare_spec ma mc); try lia; subst; simpl; try congruence.
Qed.

(** Values that compare equal compare alike with any third value. *)
Lemma SFcompare_Eq_l (a b c : number) :
  SFcompare a b = Some Eq -> SFcompare a c = SFcompare b c.
Proof.
  destruct a as [sa|sa| |sa ma ea], b as [sb|sb| |sb mb eb],
           c as [sc|sc| |sc mc ec];
    simpl; try discriminate; try done;
    try (destruct sa, sb; simpl; congruence).
  change (Pos.compare_cont Eq ma mb) with (Pos.compare ma mb).
  intros H. injection H as H. f_equal. revert H.
  destruct sa, sb; simpl; try congruence;
    destruct (Z.compare_spec ea eb); try congruence; subst;
    destruct (Pos.compare_spec ma mb); simpl; try congruence; subst; done.
Qed.

Lemma lt_le_incl (a b : number) : lt a b = true -> le a b = true.
Proof. unfold lt, le, SFltb, SFleb. by destruct (SFcompare a b) as [[]|]. Qed.

Lemma lt_not_nan (a b : number) :
  lt a b = true -> is_nan a = false /\ is_nan b = false.
Proof. intros H. by apply le_not_nan, lt_le_incl. Qed.

Lemma le_lt_trans (a b c : number) :
  le a b = true -> lt b c = true -> lt a c = true.
Proof.
  unfold le, lt, SFleb, SFltb.
  destruct (SFcompare a b) as [[]|] eqn:Eab; try done; intros _.
  - by rewrite (SFcompare_Eq_l a b c Eab).
  - destruct (SFcompare b c) as [[]|] eqn:Ebc; try done. intros _.
    by rewrite (SFcompare_trans a b c Lt Eab Ebc).
Qed.

Lemma le_trans (a b c : number) :
  le a b = true -> le b c = true -> le a c = true.
Proof.
  unfold le, SFleb.
  destruct (SFcompare a b) as [[]|] eqn:Eab; try done; intros _.
  - by rewrite (SFcompare_Eq_l a b c Eab).
  - destruct (SFcompare b c) as [[]|] eqn:Ebc; try done; intros _.
    + pose proof (SFcompare_antisym _ _ _ Ebc) as Ecb. simpl in Ecb.
      pose proof (SFcompare_antisym _ _ _ Eab) as Eba. simpl in Eba.
      pose proof (SFcompare_Eq_l c b a Ecb) as H. rewrite Eba in H.
      apply SFcompare_antisym in H. simpl in H. by rewrite H.
    + by rewrite (SFcompare_trans a b c Lt Eab Ebc).
Qed.

(** A value that compares equal to a number that is not a zero is that
    number. *)
Lemma SFcompare_Eq_eq (a b : number) :
  SFcompare a b = Some Eq ->
  (forall s, b <> S754_zero s) -> a = b.
Proof.
  destruct a as [sa|sa| |sa ma ea], b as [sb|sb| |sb mb eb]; simpl;
    try discriminate; intros H Hz;
    try (exfalso; by apply (Hz sb));
    try (destruct sa; discriminate); try (destruct sb; discriminate).
  - destruct sa, sb; try discriminate; done.
  - change (Pos.compare_cont Eq ma mb) with (Pos.compare ma mb) in H.
    injection H as H.
    destruct sa, sb; try discriminate;
      destruct (Z.compare_spec ea eb); try discriminate; subst;
      destruct (Pos.compare_spec ma mb); try discriminate; subst; done.
Qed.

Lemma of_Z_one : of_Z 1 = S754_finite false 4503599627370496 (-52).
Proof. by vm_compute. Qed.

Lemma one_le_not_zero (p : number) :
  le (of_Z 1) p = true -> forall s, p <> S754_zero s.
Proof. intros H s ->. vm_compute in H. discriminate. Qed.

Lemma strict_ne_refl (p : number) : is_nan p = false -> strict_ne p p = false.
Proof. intros H. unfold strict_ne, SFeqb. by rewrite SFcompare_refl. Qed.

Lemma strict_ne_lt (a b : number) : lt a b = true -> strict_ne a b = true.
Proof.
  unfold lt, strict_ne, SFltb, SFeqb. by destruct (SFcompare a b) as [[]|].
Qed.

(** *** The target along one axis *)

(** A request at or above the cap gives the cap. *)
Lemma target_capped (calc p : number) :
  le (of_Z 1) p = true -> le p calc = true -> target calc p = p.
Proof.
  intros H1 Hpc. destruct (le_not_nan _ _ Hpc) as [Hp Hc].
  pose proof (one_le_not_zero p H1) as Hz.
  assert (Hmin : Math_min calc p = p).
  { unfold Math_min. rewrite Hc, Hp. cbn [orb].
    unfold le, SFleb in Hpc.
    destruct (SFcompare p calc) as [[]|] eqn:E; try done.
    - apply SFcompare_antisym in E. simpl in E. rewrite E.
      destruct calc as [[]|?| |? ? ?]; try done.
      apply (SFcompare_Eq_eq _ _ E Hz).
    - apply SFcompare_antisym in E. simpl in E. by rewrite E. }
  unfold target. rewrite Hmin. unfold Math_max.
  destruct (le_not_nan _ _ H1) as [Hone _]. rewrite Hone, Hp. cbn [orb].
  unfold le, SFleb in H1.
  destruct (SFcompare (of_Z 1) p) as [[]|] eqn:E; try done.
Qed.

(** A request between 1 and the cap is granted as it is. *)
Lemma target_granted (calc p : number) :
  le (of_Z 1) calc = true -> lt calc p = true -> target calc p = calc.
Proof.
  intros H1 Hcp. destruct (lt_not_nan _ _ Hcp) as [Hc Hp].
  assert (Hmin : Math_min calc p = calc).
  { unfold Math_min. rewrite Hc, Hp. cbn [orb].
    unfold lt, SFltb in Hcp. by destruct (SFcompare calc p) as [[]|]. }
  unfold target. rewrite Hmin. unfold Math_max.
  destruct (le_not_nan _ _ H1) as [Hone _]. rewrite Hone, Hc. cbn [orb].
  unfold le, SFleb in H1.
  destruct (SFcompare (of_Z 1) calc) as [[]|] eqn:E; try done.
Qed.

(** A cap below 1 gives 1. *)
Lemma target_floor (calc p : number) :
  is_nan calc = false -> lt p (of_Z 1) = true -> target calc p = of_Z 1.
Proof.
  intros Hc Hp1. destruct (lt_not_nan _ _ Hp1) as [Hp Hone].
  pose proof (Math_min_le_r calc p Hc Hp) as Hm.
  pose proof (le_lt_trans _ _ _ Hm Hp1) as Hlt.
  unfold target, Math_max. destruct (lt_not_nan _ _ Hlt) as [Hmn _].
  rewrite Hone, Hmn. cbn [orb].
  unfold lt, SFltb in Hlt.
  destruct (SFcompare (Math_min calc p) (of_Z 1)) as [[]|] eqn:E; try done.
  apply SFcompare_antisym in E. cbn [CompOpp] in E. by rewrite E.
Qed.

(** *** The stats lookup with repeated keys *)

Lemma foldl_insert_other (l : list GlobalAssetStat)
    (m : gmap string GlobalAssetStat) (k : string) :
  Forall (fun s => lookupKey s <> k) l ->
  foldl (fun m s => <[lookupKey s := s]> m) m l !! k = m !! k.
Proof.
  intros H. revert m. induction H as [|s l Hs _ IH]; intros m; [done|].
  simpl. rewrite IH. by apply lookup_insert_ne.
Qed.

Lemma buildStatsMap_last (l1 l2 : list GlobalAssetStat) (s : GlobalAssetStat) :
  Forall (fun s' => lookupKey s' <> lookupKey s) l2 ->
  buildStatsMap (l1 ++ s :: l2) !! lookupKey s = Some s.
Proof.
  intros H. unfold buildStatsMap. rewrite foldl_app. simpl.
  rewrite foldl_insert_other by done. apply lookup_insert_eq.
Qed.

(** *** [lastIndexOf] and [substring] *)

Lemma lastIndexOf_from_absent (c : ascii) (s : string) (i acc : Z) :
  occurs c s = false -> lastIndexOf_from c s i acc = acc.
Proof.
  revert i acc. induction s as [|a s IH]; intros i acc H; [done|].
  simpl in *. apply orb_false_iff in H as [Ha Hs]. rewrite Ha. by apply IH.
Qed.

Lemma lastIndexOf_from_app (c : ascii) (s1 s2 : string) (i acc : Z) :
  lastIndexOf_from c (s1 +:+ s2) i acc
  = lastIndexOf_from c s2 (i + Z.of_nat (String.length s1))
      (lastIndexOf_from c s1 i acc).
Proof.
  revert i acc. induction s1 as [|a s1 IH]; intros i acc.
  - simpl. by rewrite Z.add_0_r.
  - simpl String.append. simpl lastIndexOf_from. rewrite IH.
    f_equal. rewrite Nat2Z.inj_succ. lia.
Qed.

Lemma lastIndexOf_from_bound (c : ascii) (s : string) (i acc : Z) :
  (acc < i)%Z ->
  (acc <= lastIndexOf_from c s i acc < i + Z.of_nat (String.length s))%Z.
Proof.
  revert i acc. induction s as [|a s IH]; intros i acc H.
  - simpl. lia.
  - cbn [lastIndexOf_from String.length].
    destruct (Ascii.eqb a c).
    + specialize (IH (i + 1)%Z i). lia.
    + specialize (IH (i + 1)%Z acc). lia.
Qed.

Lemma lastIndexOf_bound (s : string) (c : ascii) :
  (-1 <= lastIndexOf s c < Z.of_nat (String.length s))%Z.
Proof.
  unfold lastIndexOf. pose proof (lastIndexOf_from_bound c s 0 (-1)). lia.
Qed.

Lemma substring0_app (base rest : string) :
  substring0 (base +:+ rest) (Z.of_nat (String.length base)) = base.
Proof.
  unfold substring0. rewrite Nat2Z.id.
  induction base as [|a base IH]; simpl.
  - by destruct rest.
  - by rewrite IH.
Qed.

(** The name with its extension taken off and [.png] put on. *)
Lemma outputFileName_strip (base ext : string) :
  extensionLike ext ->
  outputFileName (base +:+ "." +:+ ext) = base +:+ ".png".
Proof.
  intros (Hdot & Hslash & Hback). unfold outputFileName, lastIndexOf.
  rewrite !lastIndexOf_from_app. cbn [lastIndexOf_from String.length].
  simpl (Ascii.eqb "." "/"). simpl (Ascii.eqb "." "\"). simpl (Ascii.eqb "." ".").
  rewrite (lastIndexOf_from_absent "/" ext), (lastIndexOf_from_absent "\" ext),
    (lastIndexOf_from_absent "." ext) by done.
  pose proof (lastIndexOf_from_bound "/" base 0 (-1)).
  pose proof (lastIndexOf_from_bound "\" base 0 (-1)).
  rewrite Z.add_0_l.
  destruct (Z.ltb_spec
    (Z.max (lastIndexOf_from "/" base 0 (-1)) (lastIndexOf_from "\" base 0 (-1)))
    (Z.of_nat (String.length base))) as [_|Hge]; [|lia].
  by rewrite substring0_app.
Qed.

(** A name with no dot after its directory is kept whole. *)
Lemma outputFileName_keep (dir name : string) :
  directoryPrefix dir -> plainName name ->
  outputFileName (dir +:+ name) = (dir +:+ name) +:+ ".png".
Proof.
  intros Hdir (Hdot & Hslash & Hback). unfold outputFileName, lastIndexOf.
  rewrite !lastIndexOf_from_app.
  rewrite (lastIndexOf_from_absent "/" name), (lastIndexOf_from_absent "\" name),
    (lastIndexOf_from_absent "." name) by done.
  destruct Hdir as [->|[d' [->| ->]]].
  - simpl. done.
  - rewrite !lastIndexOf_from_app. cbn [lastIndexOf_from String.length].
    simpl (Ascii.eqb "/" "/"). simpl (Ascii.eqb "/" "\"). simpl (Ascii.eqb "/" ".").
    pose proof (lastIndexOf_from_bound "." d' 0 (-1)).
    pose proof (lastIndexOf_from_bound "\" d' 0 (-1)).
    rewrite Z.add_0_l.
    destruct (Z.ltb_spec
      (Z.max (Z.of_nat (String.length d')) (lastIndexOf_from "\" d' 0 (-1)))
      (lastIndexOf_from "." d' 0 (-1))) as [Hlt|_]; [lia | done].
  - rewrite !lastIndexOf_from_app. cbn [lastIndexOf_from String.length].
    simpl (Ascii.eqb "\" "/"). simpl (Ascii.eqb "\" "\"). simpl (Ascii.eqb "\" ".").
    pose proof (lastIndexOf_from_bound "." d' 0 (-1)).
    pose proof (lastIndexOf_from_bound "/" d' 0 (-1)).
    rewrite Z.add_0_l.
    destruct (Z.ltb_spec
      (Z.max (lastIndexOf_from "/" d' 0 (-1)) (Z.of_nat (String.length d')))
      (lastIndexOf_from "." d' 0 (-1))) as [Hlt|_]; [lia | done].
Qed.

(** *** The result as a whole *)

Lemma calculate_partition (stats : list GlobalAssetStat)
    (imgs : list (string * LoadedImage)) (b : option number) :
  calculateOptimizationTargets stats imgs b
  = filter (fun t => isResize t = true)
      (omap (taskOf (buildStatsMap stats) (nullish b (of_Z 0))) imgs)
    ++ filter (fun t => isResize t = false)
         (omap (taskOf (buildStatsMap stats) (nullish b (of_Z 0))) imgs).
Proof.
  unfold calculateOptimizationTargets.
  by rewrite Array_sort_partition, forEach_tasks.
Qed.

Lemma omap_taskOf_ext (m : gmap string GlobalAssetStat) (x y : number)
    (imgs : list (string * LoadedImage)) :
  (forall key stat original, m !! key = Some stat ->
     makeTask stat original x = makeTask stat original y) ->
  omap (taskOf m x) imgs = omap (taskOf m y) imgs.
Proof.
  intros H. induction imgs as [|[k o] imgs IH]; [done|].
  cbn [omap list_omap]. rewrite IH.
  assert (Hk : taskOf m x (k, o) = taskOf m y (k, o)).
  { unfold taskOf. cbn [fst snd].
    destruct (m !! k) as [s|] eqn:E; [|done]. by rewrite (H k s o E). }
  by rewrite Hk.
Qed.

(** [Math.min] is below its first argument too, and is the greatest value
    below both; likewise for [Math.max]. *)
Lemma Math_min_le_l (a b : number) :
  is_nan a = false -> is_nan b = false -> le (Math_min a b) a = true.
Proof.
  intros Ha Hb. unfold Math_min. rewrite Ha, Hb. cbn [orb].
  destruct (SFcompare a b) as [[]|] eqn:E.
  - destruct a as [[]|?| |? ? ?]; try (by apply le_refl);
      apply SFcompare_antisym in E; unfold le, SFleb; by rewrite E.
  - by apply le_refl.
  - apply SFcompare_antisym in E. unfold le, SFleb. by rewrite E.
  - destruct (SFcompare_nan_l _ _ E); congruence.
Qed.

Lemma Math_min_cases (a b : number) :
  is_nan a = false -> is_nan b = false ->
  Math_min a b = a \/ Math_min a b = b.
Proof.
  intros Ha Hb. unfold Math_min. rewrite Ha, Hb. cbn [orb].
  destruct (SFcompare a b) as [[]|]; auto; destruct a as [[]|?| |? ? ?]; auto.
Qed.

Lemma Math_max_cases (a b : number) :
  is_nan a = false -> is_nan b = false ->
  Math_max a b = a \/ Math_max a b = b.
Proof.
  intros Ha Hb. unfold Math_max. rewrite Ha, Hb. cbn [orb].
  destruct (SFcompare a b) as [[]|]; auto; destruct a as [[]|?| |? ? ?]; auto.
Qed.

Lemma Math_max_ge_r (a b : number) :
  is_nan a = false -> is_nan b = false -> le b (Math_max a b) = true.
Proof.
  intros Ha Hb. unfold Math_max. rewrite Ha, Hb. cbn [orb].
  destruct (SFcompare a b) as [[]|] eqn:E.
  - destruct a as [[]|?| |? ? ?]; try (by apply le_refl);
      apply SFcompare_antisym in E; unfold le, SFleb; by rewrite E.
  - by apply le_refl.
  - apply SFcompare_antisym in E. unfold le, SFleb. by rewrite E.
  - destruct (SFcompare_nan_l _ _ E); congruence.
Qed.

(** A larger request never gives a smaller target. *)
Lemma target_monotone (c1 c2 p : number) :
  is_nan p = false -> le c1 c2 = true ->
  le (target c1 p) (target c2 p) = true.
Proof.
  intros Hp H12. destruct (le_not_nan _ _ H12) as [H1 H2].
  assert (Hone : is_nan (of_Z 1) = false) by done.
  pose proof (Math_min_not_nan c1 p H1 Hp) as Hn1.
  pose proof (Math_min_not_nan c2 p H2 Hp) as Hn2.
  assert (Hmin : le (Math_min c1 p) (Math_min c2 p) = true).
  { destruct (Math_min_cases c2 p H2 Hp) as [-> | ->].
    - apply (le_trans _ c1); [by apply Math_min_le_l | done].
    - by apply Math_min_le_r. }
  unfold target.
  destruct (Math_max_cases (of_Z 1) (Math_min c1 p) Hone Hn1) as [-> | ->].
  - by apply Math_max_ge_l.
  - apply (le_trans _ (Math_min c2 p)); [done | by apply Math_max_ge_r].
Qed.

End SizingMore.

(** ** Further properties of the sizing policy *)

Module SizingExtras.
Import JsNumber JsNumberFacts Sizing SizingFacts Vocabulary SizingMore.

(** X1: the returned list is the tasks of the images that have a stat, in
    the iteration order of [loadedImages], with the tasks to resize moved
    in front and the order inside each of the two groups kept. *)
Theorem tasks_in_discovery_order (stats : list GlobalAssetStat)
    (imgs : list (string * LoadedImage)) (b : option number) :
  let made := omap (taskOf (buildStatsMap stats) (nullish b (of_Z 0))) imgs in
  calculateOptimizationTargets stats imgs b
  = filter (fun t => isResize t = true) made
    ++ filter (fun t => isResize t = false) made.
Proof. intros made. apply calculate_partition. Qed.

(** X2: under an override the target is the stat's own size capped at the
    physical size and raised to 1, whatever the buffer; when every stat is
    overridden the whole result does not depend on [bufferPercentage]. *)
Theorem override_ignores_buffer (stats : list GlobalAssetStat)
    (imgs : list (string * LoadedImage)) (b1 b2 : option number) :
  (forall s, s ∈ stats -> isOverridden s = true) ->
  calculateOptimizationTargets stats imgs b1
  = calculateOptimizationTargets stats imgs b2 /\
  forall t, t ∈ calculateOptimizationTargets stats imgs b1 ->
    exists key original stat,
      (key, original) ∈ imgs /\ buildStatsMap stats !! key = Some stat /\
      targetWidth t = clamp (maxRenderWidth stat) (of_Z 1) (physicalW original) /\
      targetHeight t = clamp (maxRenderHeight stat) (of_Z 1) (physicalH original).
Proof.
  intros Hov.
  assert (Hmake : forall key stat original x y,
            buildStatsMap stats !! key = Some stat ->
            makeTask stat original x = makeTask stat original y).
  { intros key stat original x y Hs.
    apply buildStatsMap_Some in Hs as [Hin _].
    unfold makeTask, calculatedW, calculatedH, calculated.
    by rewrite (Hov stat Hin). }
  split.
  - rewrite !calculate_partition.
    by rewrite (omap_taskOf_ext _ (nullish b1 (of_Z 0)) (nullish b2 (of_Z 0)) imgs)
      by eauto.
  - intros t Ht. apply calculate_elem in Ht as (key & o & stat & Hin & Hs & ->).
    exists key, o, stat. repeat split; try done.
    + cbn [makeTask targetWidth]. unfold calculatedW, calculated.
      apply buildStatsMap_Some in Hs as [Hs _]. by rewrite (Hov stat Hs).
    + cbn [makeTask targetHeight]. unfold calculatedH, calculated.
      apply buildStatsMap_Some in Hs as [Hs _]. by rewrite (Hov stat Hs).
Qed.

Lemma override_ignores_buffer_witness :
  calculateOptimizationTargets [nanStat] [("arm", sampleImage)] None
  = calculateOptimizationTargets [nanStat] [("arm", sampleImage)]
      (Some (of_Z 50)).
Proof.
  destruct (override_ignores_buffer [nanStat] [("arm", sampleImage)] None
              (Some (of_Z 50))) as [H _].
  - intros s Hs. apply list_elem_of_singleton in Hs. subst. reflexivity.
  - exact H.
Defined.

(** X3: an image whose requested size is at least its physical size on
    both axes, the physical size being at least 1, gets a task whose target
    is exactly the physical size and that is not to be resized. *)
Theorem full_size_request_not_resized (stats : list GlobalAssetStat)
    (imgs : list (string * LoadedImage)) (b : option number)
    (key : string) (original : LoadedImage) (stat : GlobalAssetStat) :
  (key, original) ∈ imgs ->
  buildStatsMap stats !! key = Some stat ->
  let buffer := nullish b (of_Z 0) in
  le (of_Z 1) (physicalW original) = true ->
  le (of_Z 1) (physicalH original) = true ->
  le (physicalW original) (calculatedW stat buffer) = true ->
  le (physicalH original) (calculatedH stat buffer) = true ->
  let t := makeTask stat original buffer in
  t ∈ calculateOptimizationTargets stats imgs b /\
  targetWidth t = physicalW original /\
  targetHeight t = physicalH original /\
  isResize t = false.
Proof.
  intros Hin Hs buffer HW HH HcW HcH t.
  split; [apply calculate_elem; by exists key, original, stat|].
  pose proof (target_capped _ _ HW HcW) as EW.
  pose proof (target_capped _ _ HH HcH) as EH.
  destruct (le_not_nan _ _ HW) as [_ HnW]. destruct (le_not_nan _ _ HH) as [_ HnH].
  unfold t. cbn [makeTask targetWidth targetHeight isResize].
  rewrite EW, EH. by rewrite !strict_ne_refl.
Qed.

Lemma full_size_request_not_resized_witness :
  isResize (makeTask (sampleStat "arm" 200 200) sampleImage (of_Z 0)) = false.
Proof.
  destruct (full_size_request_not_resized [sampleStat "arm" 200 200]
              [("arm", sampleImage)] None "arm" sampleImage
              (sampleStat "arm" 200 200)) as (_ & _ & _ & H).
  - apply list_elem_of_singleton. reflexivity.
  - vm_compute. reflexivity.
  - vm_compute. reflexivity.
  - vm_compute. reflexivity.
  - vm_compute. reflexivity.
  - vm_compute. reflexivity.
  - exact H.
Defined.

(** X4: along an axis where the requested size is at least 1 and below the
    physical size, the target is the requested size itself and the task is
    to be resized. *)
Theorem smaller_request_granted (stat : GlobalAssetStat)
    (original : LoadedImage) (buffer : number) :
  let t := makeTask stat original buffer in
  (le (of_Z 1) (calculatedW stat buffer) = true ->
   lt (calculatedW stat buffer) (physicalW original) = true ->
   targetWidth t = calculatedW stat buffer /\ isResize t = true) /\
  (le (of_Z 1) (calculatedH stat buffer) = true ->
   lt (calculatedH stat buffer) (physicalH original) = true ->
   targetHeight t = calculatedH stat buffer /\ isResize t = true).
Proof.
  intros t. split; intros H1 Hlt.
  - pose proof (target_granted _ _ H1 Hlt) as E.
    unfold t. cbn [makeTask targetWidth isResize]. rewrite E.
    split; [done|]. by rewrite (strict_ne_lt _ _ Hlt).
  - pose proof (target_granted _ _ H1 Hlt) as E.
    unfold t. cbn [makeTask targetHeight isResize]. rewrite E.
    split; [done|]. rewrite (strict_ne_lt _ _ Hlt). apply orb_true_r.
Qed.

Lemma smaller_request_granted_witness :
  targetWidth (makeTask (sampleStat "arm" 20 30) sampleImage (of_Z 0)) = of_Z 20 /\
  targetHeight (makeTask (sampleStat "arm" 20 30) sampleImage (of_Z 0)) = of_Z 30.
Proof.
  destruct (smaller_request_granted (sampleStat "arm" 20 30) sampleImage (of_Z 0))
    as [HW HH].
  destruct HW as [HW _]; [vm_compute; reflexivity | vm_compute; reflexivity |].
  destruct HH as [HH _]; [vm_compute; reflexivity | vm_compute; reflexivity |].
  split; [rewrite HW | rewrite HH]; vm_compute; reflexivity.
Defined.

(** X5: when several stats carry one lookup key, the image with that key
    is sized from the last of them. *)
Theorem last_stat_wins (before after : list GlobalAssetStat)
    (stat : GlobalAssetStat) (imgs : list (string * LoadedImage))
    (b : option number) (original : LoadedImage) :
  Forall (fun s => lookupKey s <> lookupKey stat) after ->
  (lookupKey stat, original) ∈ imgs ->
  buildStatsMap (before ++ stat :: after) !! lookupKey stat = Some stat /\
  makeTask stat original (nullish b (of_Z 0))
    ∈ calculateOptimizationTargets (before ++ stat :: after) imgs b.
Proof.
  intros Hafter Hin.
  pose proof (buildStatsMap_last before after stat Hafter) as Hs.
  split; [done|]. apply calculate_elem. by exists (lookupKey stat), original, stat.
Qed.

Lemma last_stat_wins_witness :
  targetWidth
    <$> calculateOptimizationTargets
          [sampleStat "arm" 20 30; sampleStat "arm" 60 70]
          [("arm", sampleImage)] None
  = [of_Z 60].
Proof.
  destruct (last_stat_wins [sampleStat "arm" 20 30] [] (sampleStat "arm" 60 70)
              [("arm", sampleImage)] None sampleImage) as [_ H].
  - constructor.
  - apply list_elem_of_singleton. reflexivity.
  - vm_compute. reflexivity.
Defined.

(** X6: when the physical size along an axis is below 1 (and the request is
    not NaN), the target along that axis is 1: the floor of 1 wins over the
    physical cap, and the task is to be resized. *)
Theorem cap_below_one_gives_one (stat : GlobalAssetStat)
    (original : LoadedImage) (buffer : number) :
  is_nan (calculatedW stat buffer) = false ->
  lt (physicalW original) (of_Z 1) = true ->
  let t := makeTask stat original buffer in
  targetWidth t = of_Z 1 /\ isResize t = true /\
  lt (originalWidth t) (targetWidth t) = true.
Proof.
  intros Hc Hp t. pose proof (target_floor _ _ Hc Hp) as E.
  unfold t. cbn [makeTask targetWidth isResize originalWidth]. rewrite E.
  split; [done|]. split; [|done].
  unfold strict_ne, SFeqb. unfold lt, SFltb in Hp.
  destruct (SFcompare (physicalW original) (of_Z 1)) as [[]|] eqn:Ec; try done.
  apply SFcompare_antisym in Ec. cbn [CompOpp] in Ec. by rewrite Ec.
Qed.

Lemma cap_below_one_gives_one_witness :
  targetWidth
    (makeTask (sampleStat "arm" 20 30)
       {| width := of_Z 0; height := of_Z 8; sourceWidth := None;
          sourceHeight := None; file := []; originalPath := "arm.png" |}
       (of_Z 0))
  = of_Z 1.
Proof.
  destruct (cap_below_one_gives_one (sampleStat "arm" 20 30)
              {| width := of_Z 0; height := of_Z 8; sourceWidth := None;
                 sourceHeight := None; file := []; originalPath := "arm.png" |}
              (of_Z 0)) as [H _].
  - vm_compute. reflexivity.
  - vm_compute. reflexivity.
  - exact H.
Defined.

(** X7: a larger requested size never gives a smaller target: for one
    physical size, the target grows with the request. *)
Theorem larger_request_larger_target (c1 c2 physical : number) :
  is_nan physical = false -> le c1 c2 = true ->
  le (target c1 physical) (target c2 physical) = true.
Proof. apply target_monotone. Qed.

Lemma larger_request_larger_target_witness :
  le (target (of_Z 20) (of_Z 100)) (target (of_Z 60) (of_Z 100)) = true.
Proof.
  apply (larger_request_larger_target (of_Z 20) (of_Z 60) (of_Z 100)).
  - vm_compute. reflexivity.
  - vm_compute. reflexivity.
Defined.

(** X8: for a path [base.ext] whose extension has no dot and no path
    separator in it, the output name is [base.png]; [base] may hold dots
    and separators of its own. *)
Theorem extension_replaced (base ext : string) :
  extensionLike ext ->
  outputFileName (base +:+ "." +:+ ext) = base +:+ ".png".
Proof. apply outputFileName_strip. Qed.

Lemma extension_replaced_witness :
  outputFileName ("a/b.c" +:+ "." +:+ "jpeg") = "a/b.c" +:+ ".png".
Proof.
  apply (extension_replaced "a/b.c" "jpeg"). repeat split; reflexivity.
Defined.

(** X9: for a path whose last component has no dot, the whole path is kept
    and [.png] is put after it, also when a directory of the path has a dot
    in its name. *)
Theorem dotless_name_kept (dir name : string) :
  directoryPrefix dir -> plainName name ->
  outputFileName (dir +:+ name) = (dir +:+ name) +:+ ".png".
Proof. apply outputFileName_keep. Qed.

Lemma dotless_name_kept_witness :
  outputFileName ("v1.2/skins/" +:+ "arm") = ("v1.2/skins/" +:+ "arm") +:+ ".png".
Proof.
  apply (dotless_name_kept "v1.2/skins/" "arm").
  - right. exists "v1.2/skins". left. reflexivity.
  - repeat split; reflexivity.
Defined.

(** X10: making the output name of an output name changes nothing. *)
Theorem outputFileName_idempotent (sourcePath : string) :
  outputFileName (outputFileName sourcePath) = outputFileName sourcePath.
Proof.
  assert (Hform : exists base, outputFileName sourcePath = base +:+ "." +:+ "png")
    by (unfold outputFileName; eexists; reflexivity).
  destruct Hform as [base ->].
  apply (outputFileName_strip base "png"). repeat split; reflexivity.
Qed.

End SizingExtras.

(** ** Further facts about the numeric stages *)

Module ResampleMore.
Import Resample ResampleFacts Vocabulary ResampleSamples ResampleAtFacts.

(** *** The kernel *)

Lemma lanczos_outside (x : R) : (3 <= Rabs x)%R -> lanczos x = 0%R.
Proof.
  intros H. unfold lanczos.
  destruct (Req_dec_T x 0) as [->|_].
  - rewrite Rabs_R0 in H. lra.
  - by destruct (Rle_dec 3 (Rabs x)).
Qed.

(** *** Quantisation *)

(** A value half way between two bytes goes to the even one. *)
Lemma ToUint8Clamp_half (k : Z) :
  (0 <= k < 255)%Z ->
  ToUint8Clamp (IZR k + 0.5) = if Z.even k then k else (k + 1)%Z.
Proof.
  intros Hk. unfold ToUint8Clamp.
  assert (H0 : (0 <= IZR k)%R) by (apply IZR_le; lia).
  assert (H1 : (IZR k <= 254)%R) by (apply IZR_le; lia).
  assert (Hc : Rmin (Rmax (IZR k + 0.5) 0) 255 = (IZR k + 0.5)%R).
  { unfold Rmin, Rmax. repeat destruct (Rle_dec _ _); lra. }
  rewrite Hc.
  assert (Hf : Zfloor (IZR k + 0.5) = k) by (apply Zfloor_eq; lra).
  rewrite Hf.
  destruct (Rlt_dec _ _); [lra | done].
Qed.

(** A dither in [-1, 1) moves a byte by at most one step. *)
Lemma ToUint8Clamp_tolerance (k : Z) (d : R) :
  isByte k -> (-1 <= d < 1)%R ->
  (k - 1 <= ToUint8Clamp (IZR k + d) <= k + 1)%Z.
Proof.
  intros Hk Hd. unfold isByte in Hk.
  assert (Hlo : (ToUint8Clamp (IZR (k - 1)) <= ToUint8Clamp (IZR k + d))%Z).
  { apply ToUint8Clamp_mono. rewrite minus_IZR. lra. }
  assert (Hhi : (ToUint8Clamp (IZR k + d) <= ToUint8Clamp (IZR (k + 1)))%Z).
  { apply ToUint8Clamp_mono. rewrite plus_IZR. lra. }
  rewrite ToUint8Clamp_IZR in Hlo, Hhi. lia.
Qed.

(** *** The bytes of the output *)

Lemma Forall_store4 {A : Type} (P : A -> Prop) (buf : list A) (base : nat)
    (v0 v1 v2 v3 : A) :
  Forall P buf -> P v0 -> P v1 -> P v2 -> P v3 ->
  Forall P (store4 buf base v0 v1 v2 v3).
Proof.
  intros Hb H0 H1 H2 H3. unfold store4.
  repeat apply Forall_insert; done.
Qed.

Lemma verticalPass_bytes (rand : nat -> R) (tmpBuffer : list R)
    (h tw th n : nat) :
  Forall isByte (verticalPass rand tmpBuffer h tw th n).1.
Proof.
  unfold verticalPass.
  apply (row_major_invariant tw th
           (fun y => verticalPixel rand tmpBuffer tw (taps h th y) y)
           (fun _ st => Forall isByte st.1)).
  - cbn [fst]. apply Forall_replicate. unfold isByte. lia.
  - intros y x [buf m] _ _ Hbuf. cbn [fst] in *.
    unfold verticalPixel, drawDither, Math_random. cbn [fst].
    apply Forall_store4; try done; apply ToUint8Clamp_range.
Qed.

(** *** The size of the buffer through the pyramid *)

(** While the loop runs the width is more than twice the target width. *)
Lemma pyramidContinues_twice (p : Pyramid) (tw th : nat) :
  pyramidContinues p (INR tw) (INR th) = true ->
  2 * tw < srcW p /\ 2 * th < srcH p.
Proof.
  unfold pyramidContinues.
  destruct (Rlt_dec _ _) as [HW|]; [|done].
  destruct (Rlt_dec _ _) as [HH|]; [|done]. intros _.
  split; apply INR_lt; rewrite mult_INR; simpl; lra.
Qed.

Lemma pyramidContinues_real (p : Pyramid) (tw th : R) :
  pyramidContinues p tw th = true ->
  (tw * 2 < INR (srcW p))%R /\ (th * 2 < INR (srcH p))%R.
Proof.
  unfold pyramidContinues.
  destruct (Rlt_dec _ _) as [HW|]; [|done].
  by destruct (Rlt_dec _ _) as [HH|].
Qed.

(** Half of a size above twice the target, rounded down, is above the
    target less one half. *)
Lemma halved_above (m : nat) (t : R) :
  (t * 2 < INR m)%R -> (t - 1 / 2 < INR (m / 2))%R.
Proof.
  intros H.
  assert (Hm : m <= 2 * (m / 2) + 1).
  { pose proof (Nat.div_mod_eq m 2). pose proof (Nat.mod_upper_bound m 2). lia. }
  apply le_INR in Hm. rewrite plus_INR, mult_INR in Hm.
  simpl (INR 2) in Hm. simpl (INR 1) in Hm. lra.
Qed.

Lemma pyramid_result (fuel : nat) (p p' : Pyramid) (tw th : R) :
  pyramid fuel p tw th = Some p' ->
  exists k : nat,
    srcW p' = srcW p / 2 ^ k /\ srcH p' = srcH p / 2 ^ k /\
    ((tw - 1 / 2 < INR (srcW p))%R -> (tw - 1 / 2 < INR (srcW p'))%R) /\
    ((th - 1 / 2 < INR (srcH p))%R -> (th - 1 / 2 < INR (srcH p'))%R).
Proof.
  revert p. induction fuel as [|fuel IH]; intros p; simpl.
  - destruct (pyramidContinues p tw th); [done|]. intros [= <-].
    exists 0. cbn [Nat.pow]. rewrite !Nat.div_1_r. auto.
  - destruct (pyramidContinues p tw th) eqn:E.
    + intros Hrun. destruct (IH _ Hrun) as (k & HW & HH & HtW & HtH).
      apply pyramidContinues_real in E as [EW EH].
      cbn [halve srcW srcH] in *. exists (S k). cbn [Nat.pow].
      split; [by rewrite HW, Nat.Div0.div_div|].
      split; [by rewrite HH, Nat.Div0.div_div|].
      split.
      * intros _. apply HtW. by apply halved_above.
      * intros _. apply HtH. by apply halved_above.
    + intros [= <-]. exists 0. cbn [Nat.pow]. rewrite !Nat.div_1_r. auto.
Qed.

Lemma above_half_natural (n m : nat) :
  (INR n - 1 / 2 < INR m)%R <-> n <= m.
Proof.
  split.
  - intros H. assert (n < m + 1); [|lia].
    apply INR_lt. rewrite plus_INR. simpl. lra.
  - intros H. apply le_INR in H. lra.
Qed.

(** *** The bytes of the output, for any target size *)





(** What a run that returns gives back. *)
Lemma resampleAt_Done (rand : nat -> R) (fuel : nat) (rawData : list Z)
    (w h : nat) (tw th : R) (n : nat) (finalData : list Z) (draws : nat) :
  resampleAt rand fuel rawData w h tw th n = Done finalData draws ->
  exists (p : Pyramid) (tmpLen finalLen : nat),
    pyramid fuel {| floatSrc := IZR <$> rawData; srcW := w; srcH := h |} tw th
      = Some p /\
    arrayLength (tw * INR (srcH p) * 4) = Some tmpLen /\
    arrayLength (tw * th * 4) = Some finalLen /\
    (finalData, draws)
    = verticalPassAt rand
        (horizontalPassAt (floatSrc p) (srcW p) (srcH p) tw tmpLen)
        (srcH p) tw th finalLen n.
Proof.
  unfold resampleAt. destruct (pyramid _ _ _ _) as [p|] eqn:Hp; [|done].
  destruct (arrayLength (tw * INR (srcH p) * 4)) as [tmpLen|] eqn:H1; [|done].
  destruct (arrayLength (tw * th * 4)) as [finalLen|] eqn:H2; [|done].
  cbv zeta. intros [= <- <-]. exists p, tmpLen, finalLen.
  split; [done|]. split; [done|]. split; [done|].
  symmetry. apply surjective_pairing.
Qed.

(** *** The horizontal pass, pixel by pixel *)

Lemma horizontalPass_pixels (src : list R) (w h tw : nat) :
  forall x y c, x < tw -> y < h -> c < 4 ->
    horizontalPass src w h tw !! ((y * tw + x) * 4 + c)
    = Some (horizontalSum src w (taps w tw x) y c).
Proof.
  unfold horizontalPass.
  pose (P := fun (done : nat) (buf : list R) =>
    length buf = tw * h * 4 /\
    forall x y c, x < tw -> y < h -> x * h + y < done -> c < 4 ->
      buf !! ((y * tw + x) * 4 + c)
      = Some (horizontalSum src w (taps w tw x) y c)).
  assert (HP : P (tw * h)
    (foldl (fun tmp x =>
              foldl (horizontalPixel src w tw (taps w tw x) x) tmp (seq 0 h))
       (replicate (tw * h * 4) 0%R) (seq 0 tw))).
  { apply (row_major_invariant h tw
             (fun x => horizontalPixel src w tw (taps w tw x) x)).
    - split; [by rewrite length_replicate | intros; lia].
    - intros x y buf Hx Hy [Hlen Hcells]. unfold horizontalPixel. split.
      + by rewrite length_store4.
      + intros x' y' c Hx' Hy' Hlt Hc.
        assert (Hin : (y * tw + x) * 4 + 3 < length buf).
        { rewrite Hlen. pose proof (pixel_in_range tw h x y 3 Hx Hy). lia. }
        destruct (decide (y' * tw + x' = y * tw + x)) as [Heq|Hne].
        * apply pixel_index_inj in Heq as [-> ->]; [|done|done].
          match goal with
          | |- context [store4 buf ?i ?v0 ?v1 ?v2 ?v3] =>
              destruct (store4_lookup_in buf i v0 v1 v2 v3 Hin)
                as (E0 & E1 & E2 & E3)
          end.
          destruct c as [|[|[|[|c]]]]; [|done|done|done|lia].
          by rewrite Nat.add_0_r.
        * rewrite store4_lookup_out by lia.
          apply Hcells; try done.
          destruct (decide (x' * h + y' = x * h + y)) as [Heq|Hne']; [|lia].
          apply pixel_index_inj in Heq as [-> ->]; done. }
  destruct HP as [_ Hcells]. intros x y c Hx Hy Hc.
  apply Hcells; try done.
  assert ((x + 1) * h <= tw * h) by (apply Nat.mul_le_mono_r; lia). lia.
Qed.

(** The reads of the horizontal pass are in range. *)
Lemma horizontal_reads_in_range (w h tw x y k c : nat) :
  1 <= w -> y < h -> k < 6 -> c < 4 ->
  y * w * 4 + tapIndex (taps w tw x) k * 4 + c < w * h * 4.
Proof.
  intros Hw Hy Hk Hc.
  pose proof (tapIndex_in_range w tw x k Hw Hk) as Hidx.
  pose proof (pixel_in_range w h _ y c Hidx Hy Hc). lia.
Qed.

(** *** Taps at an integer centre *)

Lemma tapCenter_equal_sizes (size out : nat) :
  1 <= size -> tapCenter size size out = IZR (Z.of_nat out).
Proof.
  intros Hs. unfold tapCenter. rewrite <- INR_IZR_INZ.
  assert (INR size <> 0)%R by (apply not_0_INR; lia).
  field. done.
Qed.

(** With equal source and target size the taps pick the sample at the
    output coordinate and nothing else. *)
Lemma taps_equal_sizes (size out : nat) :
  out < size ->
  weights (taps size size out) = [0 / 1; 0 / 1; 1 / 1; 0 / 1; 0 / 1; 0 / 1]%R /\
  tapIndex (taps size size out) 2 = out.
Proof.
  intros Hout. unfold tapIndex. rewrite taps_unfold.
  rewrite tapCenter_equal_sizes by lia. rewrite rawTaps_integer.
  cbn [fst snd weights indices]. split.
  - rewrite renormalize_nonzero; [done | done | lra].
  - simpl. lia.
Qed.

Lemma horizontalSum_equal_sizes (src : list R) (w x y c : nat) :
  x < w -> horizontalSum src w (taps w w x) y c = pixelAt src w x y c.
Proof.
  intros Hx. destruct (taps_equal_sizes w x Hx) as [Hw Hi].
  unfold horizontalSum, pixelAt. cbn [foldl seq]. rewrite Hw, Hi.
  unfold sample at 2 4 6 8 10 12. cbn [lookup list_lookup default]. unfold Datatypes.id.
  replace ((y * w + x) * 4 + c) with (y * w * 4 + x * 4 + c) by lia. lra.
Qed.

Lemma verticalSum_equal_sizes (tmpBuffer : list R) (tw h x y c : nat) :
  y < h -> verticalSum tmpBuffer tw (taps h h y) x c = pixelAt tmpBuffer tw x y c.
Proof.
  intros Hy. destruct (taps_equal_sizes h y Hy) as [Hw Hi].
  unfold verticalSum, pixelAt. cbn [foldl seq]. rewrite Hw, Hi.
  unfold sample at 2 4 6 8 10 12. cbn [lookup list_lookup default]. unfold Datatypes.id.
  lra.
Qed.

(** *** Flat colour *)

Lemma flat_uniformChannel (buf : list R) (w h c : nat) (colour : nat -> R) :
  flat buf w h colour -> c < 4 -> uniformChannel buf w h c (colour c).
Proof. intros Hflat Hc x y Hx Hy. by apply Hflat. Qed.

Lemma halve_uniform (q : Pyramid) (c : nat) (v : R) :
  c < 4 ->
  uniformChannel (floatSrc q) (srcW q) (srcH q) c v ->
  uniformChannel (floatSrc (halve q)) (srcW (halve q)) (srcH (halve q)) c v.
Proof.
  intros Hc Hflat x y Hx Hy. cbn [halve srcW srcH] in Hx, Hy.
  destruct (halve_pixels q) as [_ Hcells].
  destruct (block_in_range (srcW q) (srcH q) x y Hx Hy) as [HX HY].
  unfold pixelAt, sample. cbn [halve srcW srcH floatSrc].
  change (foldl _ _ _) with (floatSrc (halve q)).
  rewrite (Hcells y x c Hy Hx Hc). cbn [default]. unfold Datatypes.id.
  rewrite boxAverage_block.
  rewrite !Hflat by lia. lra.
Qed.

Lemma pyramid_uniform (fuel : nat) (p p' : Pyramid) (tw th : R)
    (c : nat) (v : R) :
  c < 4 ->
  pyramid fuel p tw th = Some p' ->
  uniformChannel (floatSrc p) (srcW p) (srcH p) c v ->
  uniformChannel (floatSrc p') (srcW p') (srcH p') c v.
Proof.
  intros Hc. revert p. induction fuel as [|fuel IH]; intros p; simpl.
  - destruct (pyramidContinues p tw th); [done|]. by intros [= <-].
  - destruct (pyramidContinues p tw th); [|by intros [= <-]].
    intros Hrun Hflat. apply (IH _ Hrun). by apply halve_uniform.
Qed.

Lemma pyramid_flat (fuel : nat) (p p' : Pyramid) (tw th : R)
    (colour : nat -> R) :
  pyramid fuel p tw th = Some p' ->
  flat (floatSrc p) (srcW p) (srcH p) colour ->
  flat (floatSrc p') (srcW p') (srcH p') colour.
Proof.
  intros Hrun Hflat x y c Hx Hy Hc.
  apply (pyramid_uniform fuel p p' tw th c (colour c) Hc Hrun); [|done|done].
  by apply flat_uniformChannel.
Qed.

Lemma taps_weights_sum (srcSize targetSize out : nat) :
  rawWeightSum srcSize targetSize out <> 0%R ->
  length (weights (taps srcSize targetSize out)) = 6 /\
  Rsum (weights (taps srcSize targetSize out)) = 1%R.
Proof.
  unfold rawWeightSum. intros Hs.
  destruct (rawTaps_sum (tapCenter srcSize targetSize out) srcSize) as [Hlen Hsum].
  rewrite taps_unfold. cbn [weights].
  rewrite renormalize_nonzero by done. cbn [fst]. split.
  - by rewrite length_fmap.
  - rewrite Rsum_div, <- Hsum. by apply Rinv_r.
Qed.

Lemma horizontalSum_uniform (src : list R) (w h tw x y c : nat) (v : R) :
  1 <= w -> uniformChannel src w h c v -> y < h ->
  rawWeightSum w tw x <> 0%R ->
  horizontalSum src w (taps w tw x) y c = v.
Proof.
  intros Hw Hflat Hy Hs.
  destruct (taps_weights_sum w tw x Hs) as [Hlen Hsum].
  unfold horizontalSum.
  apply (weighted_sum_flat
           (fun k => sample src (y * w * 4 + tapIndex (taps w tw x) k * 4 + c))
           (weights (taps w tw x)) v Hlen Hsum).
  intros k Hk. pose proof (tapIndex_in_range w tw x k Hw Hk) as Hidx.
  rewrite <- (Hflat (tapIndex (taps w tw x) k) y Hidx Hy).
  unfold pixelAt. f_equal. lia.
Qed.

Lemma verticalSum_uniform (tmpBuffer : list R) (h tw th x y c : nat) (v : R) :
  1 <= h -> uniformChannel tmpBuffer tw h c v -> x < tw ->
  rawWeightSum h th y <> 0%R ->
  verticalSum tmpBuffer tw (taps h th y) x c = v.
Proof.
  intros Hh Hflat Hx Hs.
  destruct (taps_weights_sum h th y Hs) as [Hlen Hsum].
  unfold verticalSum.
  apply (weighted_sum_flat
           (fun k => sample tmpBuffer ((tapIndex (taps h th y) k * tw + x) * 4 + c))
           (weights (taps h th y)) v Hlen Hsum).
  intros k Hk. pose proof (tapIndex_in_range h th y k Hh Hk) as Hidx.
  by rewrite <- (Hflat x (tapIndex (taps h th y) k) Hx Hidx).
Qed.

(** A channel that is uniform in the source is uniform in what the
    vertical pass sums, provided no raw weight sum is zero. *)
Lemma filtered_uniform (fuel : nat) (rawData : list Z)
    (w h tw th x y c : nat) (p : Pyramid) (v : R) :
  1 <= w -> 1 <= h -> length rawData = w * h * 4 -> c < 4 ->
  uniformChannel (IZR <$> rawData) w h c v ->
  pyramid fuel {| floatSrc := IZR <$> rawData; srcW := w; srcH := h |}
          (INR tw) (INR th) = Some p ->
  (forall x, x < tw -> rawWeightSum (srcW p) tw x <> 0%R) ->
  (forall y, y < th -> rawWeightSum (srcH p) th y <> 0%R) ->
  x < tw -> y < th ->
  verticalSum (horizontalPass (floatSrc p) (srcW p) (srcH p) tw) tw
    (taps (srcH p) th y) x c = v.
Proof.
  intros Hw Hh Hlen Hc Hflat Hp HsumX HsumY Hx Hy.
  assert (Hwf : wellFormed p).
  { apply (pyramid_wellFormed fuel
             {| floatSrc := IZR <$> rawData; srcW := w; srcH := h |} p
             (INR tw) (INR th)); [| | |exact Hp].
    - change 1%R with (INR 1). apply le_INR. lia.
    - change 1%R with (INR 1). apply le_INR. lia.
    - unfold wellFormed. cbn [floatSrc srcW srcH]. by rewrite length_fmap. }
  destruct Hwf as (HW & HH & _).
  pose proof (pyramid_uniform fuel _ p _ _ c v Hc Hp Hflat) as Hpf.
  apply (verticalSum_uniform _ (srcH p)); auto.
  intros x' y' Hx' Hy'. unfold pixelAt, sample.
  rewrite (horizontalPass_pixels _ _ _ _ x' y' c Hx' Hy' Hc).
  cbn [default]. unfold Datatypes.id.
  apply (horizontalSum_uniform _ _ (srcH p)); auto.
Qed.

(** *** Source and target of one size *)

Lemma pyramid_equal_sizes (fuel : nat) (p : Pyramid) :
  pyramid fuel p (INR (srcW p)) (INR (srcH p)) = Some p.
Proof.
  apply pyramid_stops, pyramidContinues_false. left.
  pose proof (pos_INR (srcW p)). lra.
Qed.

Lemma sample_fmap_IZR (raw : list Z) (i : nat) (v : Z) :
  raw !! i = Some v -> sample (IZR <$> raw) i = IZR v.
Proof. intros H. unfold sample. by rewrite list_lookup_fmap, H. Qed.

Lemma resample_equal_sizes (rand : nat -> R) (fuel : nat) (rawData : list Z)
    (w h n x y : nat) (out : list Z * nat) :
  resample rand fuel rawData w h w h n = Some out ->
  x < w -> y < h ->
  let src := IZR <$> rawData in
  let d := ditherAt rand (n + 2 * (y * w + x)) in
  let a := pixelAt src w x y 3 in
  bytesAt out.1 w x y =
    (Some (ToUint8Clamp (Rmin (pixelAt src w x y 0) a + d)),
     Some (ToUint8Clamp (Rmin (pixelAt src w x y 1) a + d)),
     Some (ToUint8Clamp (Rmin (pixelAt src w x y 2) a + d)),
     Some (ToUint8Clamp (a + d))).
Proof.
  intros Hout Hx Hy. cbv zeta. set (src := IZR <$> rawData) in *.
  unfold resample in Hout. fold src in Hout.
  pose proof (pyramid_equal_sizes fuel
                {| floatSrc := src; srcW := w; srcH := h |}) as Hp.
  cbn [srcW srcH] in Hp. rewrite Hp in Hout. cbn [floatSrc srcW srcH] in Hout.
  injection Hout as <-.
  destruct (verticalPass_pixels rand (horizontalPass src w h w) h w h n)
    as (_ & _ & Hcells).
  rewrite (Hcells y x Hy Hx).
  assert (Hsum : forall c, c < 4 ->
            verticalSum (horizontalPass src w h w) w (taps h h y) x c
            = pixelAt src w x y c).
  { intros c Hc. rewrite verticalSum_equal_sizes by done.
    unfold pixelAt at 1. unfold sample.
    rewrite (horizontalPass_pixels src w h w x y c Hx Hy Hc). cbn [default].
    unfold Datatypes.id. by apply horizontalSum_equal_sizes. }
  cbv zeta. rewrite !Hsum by lia. done.
Qed.

(** *** The white square of 9 x 9 pixels resized to 2 x 2 *)

Lemma whiteSquare_pyramid :
  pyramid 1 whiteSquareSource (INR 2) (INR 2) = Some whiteSquareHalved.
Proof.
  cbn [pyramid].
  destruct (pyramidContinues whiteSquareSource _ _) eqn:E.
  - destruct (pyramidContinues (halve whiteSquareSource) _ _) eqn:E';
      [|reflexivity].
    apply pyramidContinues_twice in E'. cbn in E'. lia.
  - apply pyramidContinues_false in E. unfold withinTwice in E.
    cbn [srcW srcH whiteSquareSource] in E. simpl in E. lra.
Qed.

Lemma whiteSquare_resample (rand : nat -> R) (n : nat) :
  let out :=
    verticalPass rand
      (horizontalPass (floatSrc whiteSquareHalved) (srcW whiteSquareHalved)
         (srcH whiteSquareHalved) 2)
      (srcH whiteSquareHalved) 2 2 n in
  resampleAt rand 1 whiteSquare 9 9 (INR 2) (INR 2) n = Done out.1 out.2.
Proof.
  intros out. rewrite resampleAt_natural by (reflexivity || lia).
  unfold resample. fold whiteSquareSource. by rewrite whiteSquare_pyramid.
Qed.

Lemma whiteSquare_uniform (c : nat) :
  c < 4 -> uniformChannel (IZR <$> whiteSquare) 9 9 c 255%R.
Proof.
  intros Hc x y Hx Hy. unfold pixelAt, whiteSquare.
  rewrite fmap_replicate. apply sample_replicate.
  by apply pixel_in_range.
Qed.

(** Both passes from 4 to 2 pixels have their centres half-way between
    two source pixels. *)
Lemma whiteSquare_weights (out : nat) : rawWeightSum 4 2 out <> 0%R.
Proof.
  unfold rawWeightSum.
  replace (tapCenter 4 2 out) with (IZR (2 * Z.of_nat out) + 1 / 2)%R.
  - apply rawTaps_half_nonzero.
  - unfold tapCenter. rewrite mult_IZR, <- INR_IZR_INZ.
    simpl (INR 4). simpl (INR 2). lra.
Qed.

End ResampleMore.

(** ** Further properties of the resampling stages *)

Module ResampleExtras.
Import Resample ResampleFacts Vocabulary ResampleSamples ResampleAtFacts ResampleMore.

(** X11: the Lanczos kernel of lines 253-258 is 1 at 0, is even, is 0 from
    distance 3 on, and is 0 at every integer other than 0. *)
Theorem lanczos_kernel_shape (x : R) (j : Z) :
  lanczos 0 = 1%R /\ lanczos (- x) = lanczos x /\
  ((3 <= Rabs x)%R -> lanczos x = 0%R) /\
  (j <> 0%Z -> lanczos (IZR j) = 0%R).
Proof.
  split; [apply lanczos_zero|]. split; [apply lanczos_even|].
  split; [apply lanczos_outside | apply lanczos_integer].
Qed.

Lemma lanczos_kernel_shape_witness : lanczos (IZR 2) = 0%R.
Proof.
  destruct (lanczos_kernel_shape 0 2) as (_ & _ & _ & H).
  apply H. discriminate.
Defined.



(** X13: the stages call [Math.random] exactly twice in every pass of the
    inner loop of the vertical pass, whatever the source image: twice the
    number of columns times the number of rows the loops run over, which is
    [2 * targetWidth * targetHeight] when the sizes are natural numbers. *)
Theorem two_draws_per_pixel (rand : nat -> R) (fuel : nat) (rawData : list Z)
    (w h : nat) (targetWidth targetHeight : R) (n : nat)
    (finalData : list Z) (draws : nat) :
  resampleAt rand fuel rawData w h targetWidth targetHeight n
    = Done finalData draws ->
  draws = n + 2 * (loopCount targetHeight * loopCount targetWidth) /\
  (forall tw th : nat,
     targetWidth = INR tw -> targetHeight = INR th ->
     draws = n + 2 * (tw * th)).
Proof.
  intros Hout.
  apply resampleAt_Done in Hout as (p & tmpLen & finalLen & _ & _ & _ & Hv).
  assert (Hd : draws
               = n + 2 * (loopCount targetHeight * loopCount targetWidth)).
  { change draws with (finalData, draws).2. rewrite Hv.
    unfold verticalPassAt. rewrite verticalBefore_draws. lia. }
  split; [done|].
  intros tw th -> ->. rewrite Hd, !loopCount_INR. lia.
Qed.

Lemma two_draws_per_pixel_witness :
  8 = 0 + 2 * (loopCount 2 * loopCount (3 / 2)).
Proof.
  destruct (two_draws_per_pixel (fun _ => 0%R) 0 opaqueSource 3 2
              (3 / 2)%R 2%R 0
              [254; 254; 254; 254; 0; 0; 254; 254; 254; 254; 0; 0]%Z 8)
    as [H _].
  - apply opaque_resample.
  - exact H.
Defined.

(** X14: the pyramid divides the width and the height by the same power of
    two.  A dimension that was above its target less one half before the
    loop is still above it after the loop, so for a target that is a
    natural number a dimension that was at least the target stays at least
    the target. *)
Theorem pyramid_never_undershoots (fuel : nat) (src : list R) (w h : nat)
    (targetWidth targetHeight : R) (p' : Pyramid) :
  pyramid fuel {| floatSrc := src; srcW := w; srcH := h |}
          targetWidth targetHeight = Some p' ->
  exists k : nat,
    srcW p' = w / 2 ^ k /\ srcH p' = h / 2 ^ k /\
    ((targetWidth - 1 / 2 < INR w)%R ->
     (targetWidth - 1 / 2 < INR (srcW p'))%R) /\
    ((targetHeight - 1 / 2 < INR h)%R ->
     (targetHeight - 1 / 2 < INR (srcH p'))%R) /\
    (forall tw : nat, targetWidth = INR tw -> tw <= w -> tw <= srcW p') /\
    (forall th : nat, targetHeight = INR th -> th <= h -> th <= srcH p').
Proof.
  intros Hrun.
  destruct (pyramid_result fuel _ p' targetWidth targetHeight Hrun)
    as (k & HW & HH & HtW & HtH).
  cbn [srcW srcH] in *. exists k.
  split; [done|]. split; [done|]. split; [done|]. split; [done|]. split.
  - intros tw -> Hle. apply above_half_natural, HtW.
    by apply above_half_natural.
  - intros th -> Hle. apply above_half_natural, HtH.
    by apply above_half_natural.
Qed.

Lemma pyramid_never_undershoots_witness :
  exists k : nat,
    srcW whiteSquareHalved = 9 / 2 ^ k /\ 2 <= srcW whiteSquareHalved.
Proof.
  destruct (pyramid_never_undershoots 1 (IZR <$> whiteSquare) 9 9
              (INR 2) (INR 2) whiteSquareHalved)
    as (k & HW & _ & _ & _ & Hn & _).
  - apply whiteSquare_pyramid.
  - exists k. split; [exact HW|]. apply (Hn 2); [reflexivity | lia].
Defined.

(** X15: in the horizontal pass, for a source of at least one column,
    every read [floatSrc[srcRow + indices[k]*4 + c]] is inside the source
    buffer, whatever the target width; when the target width is a natural
    number, every store [tmpBuffer[dstIdx + c]] names an element of the
    intermediate buffer. *)
Theorem horizontal_pass_in_bounds (src : list R) (w h : nat)
    (targetWidth : R) (x y k c : nat) :
  1 <= w -> length src = w * h * 4 -> y < h -> k < 6 -> c < 4 ->
  (0 <= Z.of_nat (y * w * 4) + tapIndexZ (tapsAt w targetWidth x) k * 4
        + Z.of_nat c < Z.of_nat (length src))%Z /\
  (forall tw : nat,
     targetWidth = INR tw -> x < tw ->
     validIndex (tw * h * 4) ((INR y * targetWidth + INR x) * 4 + INR c)
     = Some ((y * tw + x) * 4 + c)).
Proof.
  intros Hw Hlen Hy Hk Hc. split.
  - destruct (tapIndexZ_range (tapCenterAt w targetWidth x) w k Hw Hk)
      as [H0 H1].
    fold (tapsAt w targetWidth x) in H0, H1. rewrite Hlen.
    assert (Hidx : Z.to_nat (tapIndexZ (tapsAt w targetWidth x) k) < w) by lia.
    pose proof (pixel_in_range w h _ y c Hidx Hy Hc). lia.
  - intros tw -> Hx.
    replace ((INR y * INR tw + INR x) * 4 + INR c)%R
      with (INR ((y * tw + x) * 4 + c))
      by (rewrite plus_INR, <- pixel_index_INR; done).
    rewrite validIndex_INR.
    pose proof (pixel_in_range tw h x y c Hx Hy Hc).
    by destruct (decide (_ < _)).
Qed.

Lemma horizontal_pass_in_bounds_witness :
  (0 <= Z.of_nat (0 * 2 * 4) + tapIndexZ (tapsAt 2 (5 / 2) 2) 5 * 4
        + Z.of_nat 3 < Z.of_nat (length (replicate 8 0%R)))%Z.
Proof.
  apply (horizontal_pass_in_bounds (replicate 8 0%R) 2 1 (5 / 2)%R 2 0 5 3).
  - lia.
  - reflexivity.
  - lia.
  - lia.
  - lia.
Defined.

(** X16: for natural target sizes an axis whose size does not change is
    not filtered.  With the target width equal to the source width the
    horizontal pass copies every sample, and with the target height equal
    to the source height the weighted sum of the vertical pass is the
    sample of the same row. *)
Theorem unchanged_axis_copied (src tmp : list R)
    (w h targetWidth x y x' y' c : nat) :
  length src = w * h * 4 -> x < w -> y < h ->
  length tmp = targetWidth * h * 4 -> x' < targetWidth -> y' < h -> c < 4 ->
  horizontalPassAt src w h (INR w) (w * h * 4) !! ((y * w + x) * 4 + c)
    = Some (Some (pixelAt src w x y c)) /\
  verticalSumAt (Some <$> tmp) (INR targetWidth) (tapsAt h (INR h) y') x' c
    = Some (pixelAt tmp targetWidth x' y' c).
Proof.
  intros Hsrc Hx Hy Htmp Hx' Hy' Hc. split.
  - rewrite horizontalPassAt_natural by (done || lia).
    rewrite list_lookup_fmap.
    rewrite (horizontalPass_pixels src w h w x y c Hx Hy Hc).
    by rewrite horizontalSum_equal_sizes.
  - rewrite <- taps_tapsAt, verticalSumAt_natural.
    + by rewrite verticalSum_equal_sizes.
    + intros k Hk. split.
      * apply (tapIndexZ_range (tapCenter h h y') h k); [lia | done].
      * apply (vertical_reads_in_range tmp h targetWidth h x' y' k c);
          (done || lia).
Qed.

Lemma unchanged_axis_copied_witness :
  horizontalPassAt (IZR <$> [10; 20; 30; 255]%Z) 1 1 (INR 1) (1 * 1 * 4)
    !! ((0 * 1 + 0) * 4 + 2)
  = Some (Some (pixelAt (IZR <$> [10; 20; 30; 255]%Z) 1 0 0 2)).
Proof.
  destruct (unchanged_axis_copied (IZR <$> [10; 20; 30; 255]%Z)
              (IZR <$> [10; 20; 30; 255]%Z) 1 1 1 0 0 0 0 2) as [H _].
  - reflexivity.
  - lia.
  - lia.
  - reflexivity.
  - lia.
  - lia.
  - lia.
  - exact H.
Defined.

(** X17: resampling an image of bytes to its own size runs no pyramid pass
    and no filter: with draws in [0, 1), every colour byte of the output is
    within 1 of the smaller of the source's colour and alpha bytes of that
    pixel, and the alpha byte is within 1 of the source's. *)
Theorem same_size_within_one (rand : nat -> R) (fuel : nat) (rawData : list Z)
    (w h n x y : nat) (out : list Z * nat) (r g b a : Z) :
  (forall k, (0 <= rand k < 1)%R) ->
  Forall isByte rawData ->
  resample rand fuel rawData w h w h n = Some out ->
  x < w -> y < h ->
  bytesAt rawData w x y = (Some r, Some g, Some b, Some a) ->
  exists r' g' b' a' : Z,
    bytesAt out.1 w x y = (Some r', Some g', Some b', Some a') /\
    (Z.abs (r' - Z.min r a) <= 1 /\ Z.abs (g' - Z.min g a) <= 1 /\
     Z.abs (b' - Z.min b a) <= 1 /\ Z.abs (a' - a) <= 1)%Z.
Proof.
  intros Hrand Hbytes Hout Hx Hy Hsrc.
  rewrite (resample_equal_sizes rand fuel rawData w h n x y out Hout Hx Hy).
  cbv zeta. unfold bytesAt in Hsrc.
  injection Hsrc as Hr Hg Hb Ha.
  assert (Hd : (-1 <= ditherAt rand (n + 2 * (y * w + x)) < 1)%R).
  { rewrite ditherAt_unfold.
    pose proof (Hrand (n + 2 * (y * w + x))).
    pose proof (Hrand (S (n + 2 * (y * w + x)))). lra. }
  assert (Hin : forall i v, rawData !! i = Some v -> isByte v).
  { intros i v Hi. by apply (Forall_lookup_1 isByte rawData i v). }
  assert (Hmin : forall u v : Z, Rmin (IZR u) (IZR v) = IZR (Z.min u v)).
  { intros u v. unfold Rmin. destruct (Rle_dec (IZR u) (IZR v)) as [L|L].
    - apply le_IZR in L. f_equal. lia.
    - assert (v < u)%Z by (apply lt_IZR; lra). f_equal. lia. }
  assert (Hbmin : forall u v : Z, isByte u -> isByte v -> isByte (Z.min u v)).
  { unfold isByte. lia. }
  unfold pixelAt.
  rewrite (sample_fmap_IZR rawData _ a Ha).
  rewrite Nat.add_0_r, (sample_fmap_IZR rawData _ r Hr).
  rewrite (sample_fmap_IZR rawData _ g Hg), (sample_fmap_IZR rawData _ b Hb).
  rewrite !Hmin.
  eexists _, _, _, _. split; [reflexivity|].
  pose proof (ToUint8Clamp_tolerance (Z.min r a) _
                (Hbmin r a (Hin _ _ Hr) (Hin _ _ Ha)) Hd).
  pose proof (ToUint8Clamp_tolerance (Z.min g a) _
                (Hbmin g a (Hin _ _ Hg) (Hin _ _ Ha)) Hd).
  pose proof (ToUint8Clamp_tolerance (Z.min b a) _
                (Hbmin b a (Hin _ _ Hb) (Hin _ _ Ha)) Hd).
  pose proof (ToUint8Clamp_tolerance a _ (Hin _ _ Ha) Hd).
  lia.
Qed.

Lemma same_size_within_one_witness :
  exists r' g' b' a' : Z,
    bytesAt (verticalPass (fun _ => 0.5%R)
               (horizontalPass (IZR <$> [10; 20; 30; 25]%Z) 1 1 1) 1 1 1 0).1
            1 0 0
    = (Some r', Some g', Some b', Some a') /\
    (Z.abs (r' - Z.min 10 25) <= 1 /\ Z.abs (g' - Z.min 20 25) <= 1 /\
     Z.abs (b' - Z.min 30 25) <= 1 /\ Z.abs (a' - 25) <= 1)%Z.
Proof.
  apply (same_size_within_one (fun _ => 0.5%R) 0 [10; 20; 30; 25]%Z 1 1 0 0 0
           (verticalPass (fun _ => 0.5%R)
              (horizontalPass (IZR <$> [10; 20; 30; 25]%Z) 1 1 1) 1 1 1 0)).
  - intros _. lra.
  - repeat constructor; unfold isByte; lia.
  - unfold resample. rewrite pyramid_stops; [reflexivity|].
    apply pyramidContinues_false. left. simpl. lra.
  - lia.
  - lia.
  - reflexivity.
Defined.

(** X18: for natural target sizes an image of one colour keeps it
    through the pyramid and both passes.  When no raw weight sum is zero
    at the coordinates of the target, every output pixel is that colour,
    with each colour channel capped by alpha, plus the pixel's dither,
    quantised. *)
Theorem flat_image_stays_flat (rand : nat -> R) (fuel : nat) (rawData : list Z)
    (w h targetWidth targetHeight n x y : nat) (finalData : list Z)
    (draws : nat) (p : Pyramid) (colour : nat -> R) :
  1 <= w -> 1 <= h -> length rawData = w * h * 4 ->
  flat (IZR <$> rawData) w h colour ->
  pyramid fuel {| floatSrc := IZR <$> rawData; srcW := w; srcH := h |}
          (INR targetWidth) (INR targetHeight) = Some p ->
  resampleAt rand fuel rawData w h (INR targetWidth) (INR targetHeight) n
    = Done finalData draws ->
  (forall x, x < targetWidth -> rawWeightSum (srcW p) targetWidth x <> 0%R) ->
  (forall y, y < targetHeight -> rawWeightSum (srcH p) targetHeight y <> 0%R) ->
  x < targetWidth -> y < targetHeight ->
  let d := ditherAt rand (n + 2 * (y * targetWidth + x)) in
  bytesAt finalData targetWidth x y =
    (Some (ToUint8Clamp (Rmin (colour 0) (colour 3) + d)),
     Some (ToUint8Clamp (Rmin (colour 1) (colour 3) + d)),
     Some (ToUint8Clamp (Rmin (colour 2) (colour 3) + d)),
     Some (ToUint8Clamp (colour 3 + d))).
Proof.
  intros Hw Hh Hlen Hflat Hp Hout HsumX HsumY Hx Hy. cbv zeta.
  rewrite resampleAt_natural in Hout by (done || lia).
  unfold resample in Hout. rewrite Hp in Hout. injection Hout as <- _.
  set (tmp := horizontalPass (floatSrc p) (srcW p) (srcH p) targetWidth).
  destruct (verticalPass_pixels rand tmp (srcH p) targetWidth targetHeight n)
    as (_ & _ & Hcells).
  rewrite (Hcells y x Hy Hx). cbv zeta.
  assert (Hv : forall c, c < 4 ->
            verticalSum tmp targetWidth (taps (srcH p) targetHeight y) x c
            = colour c).
  { intros c Hc.
    apply (filtered_uniform fuel rawData w h targetWidth targetHeight x y c p);
      auto using flat_uniformChannel. }
  rewrite !Hv by lia. done.
Qed.

Lemma flat_image_stays_flat_witness :
  bytesAt (verticalPass (fun _ => 0.5%R)
             (horizontalPass (floatSrc whiteSquareHalved)
                (srcW whiteSquareHalved) (srcH whiteSquareHalved) 2)
             (srcH whiteSquareHalved) 2 2 0).1
          2 1 0
  = (Some (ToUint8Clamp
             (Rmin 255 255 + ditherAt (fun _ => 0.5%R) (0 + 2 * (0 * 2 + 1)))),
     Some (ToUint8Clamp
             (Rmin 255 255 + ditherAt (fun _ => 0.5%R) (0 + 2 * (0 * 2 + 1)))),
     Some (ToUint8Clamp
             (Rmin 255 255 + ditherAt (fun _ => 0.5%R) (0 + 2 * (0 * 2 + 1)))),
     Some (ToUint8Clamp
             (255 + ditherAt (fun _ => 0.5%R) (0 + 2 * (0 * 2 + 1))))).
Proof.
  apply (flat_image_stays_flat (fun _ => 0.5%R) 1 whiteSquare 9 9 2 2 0 1 0
           (verticalPass (fun _ => 0.5%R)
              (horizontalPass (floatSrc whiteSquareHalved)
                 (srcW whiteSquareHalved) (srcH whiteSquareHalved) 2)
              (srcH whiteSquareHalved) 2 2 0).1
           (verticalPass (fun _ => 0.5%R)
              (horizontalPass (floatSrc whiteSquareHalved)
                 (srcW whiteSquareHalved) (srcH whiteSquareHalved) 2)
              (srcH whiteSquareHalved) 2 2 0).2
           whiteSquareHalved (fun _ => 255%R)).
  - lia.
  - lia.
  - reflexivity.
  - intros x y c Hx Hy Hc. by apply whiteSquare_uniform.
  - apply whiteSquare_pyramid.
  - apply whiteSquare_resample.
  - intros x _. apply whiteSquare_weights.
  - intros y _. apply whiteSquare_weights.
  - lia.
  - lia.
Defined.

(** X19: for natural target sizes an image whose alpha is the same byte at
    every pixel, 255 for an opaque image, keeps it up to the dither: with
    draws in [0, 1) and no raw weight sum zero, every alpha byte of the
    output is within 1 of that byte, so 254 or 255 for an opaque image. *)
Theorem uniform_alpha_within_one (rand : nat -> R) (fuel : nat)
    (rawData : list Z) (w h targetWidth targetHeight n x y : nat)
    (finalData : list Z) (draws : nat) (p : Pyramid) (alpha : Z) :
  (forall k, (0 <= rand k < 1)%R) ->
  isByte alpha ->
  1 <= w -> 1 <= h -> length rawData = w * h * 4 ->
  uniformChannel (IZR <$> rawData) w h 3 (IZR alpha) ->
  pyramid fuel {| floatSrc := IZR <$> rawData; srcW := w; srcH := h |}
          (INR targetWidth) (INR targetHeight) = Some p ->
  resampleAt rand fuel rawData w h (INR targetWidth) (INR targetHeight) n
    = Done finalData draws ->
  (forall x, x < targetWidth -> rawWeightSum (srcW p) targetWidth x <> 0%R) ->
  (forall y, y < targetHeight -> rawWeightSum (srcH p) targetHeight y <> 0%R) ->
  x < targetWidth -> y < targetHeight ->
  exists a' : Z,
    finalData !! ((y * targetWidth + x) * 4 + 3) = Some a' /\
    isByte a' /\ (alpha - 1 <= a' <= alpha + 1)%Z.
Proof.
  intros Hrand Halpha Hw Hh Hlen Hflat Hp Hout HsumX HsumY Hx Hy.
  rewrite resampleAt_natural in Hout by (done || lia).
  unfold resample in Hout. rewrite Hp in Hout. injection Hout as <- _.
  set (tmp := horizontalPass (floatSrc p) (srcW p) (srcH p) targetWidth).
  destruct (verticalPass_pixels rand tmp (srcH p) targetWidth targetHeight n)
    as (_ & _ & Hcells).
  specialize (Hcells y x Hy Hx). cbv zeta in Hcells. unfold bytesAt in Hcells.
  injection Hcells as _ _ _ Ha. rewrite Ha. unfold tmp.
  rewrite (filtered_uniform fuel rawData w h targetWidth targetHeight x y 3 p
             (IZR alpha)) by (done || lia).
  eexists. split; [reflexivity|]. split; [apply ToUint8Clamp_range|].
  apply ToUint8Clamp_tolerance; [done|].
  rewrite ditherAt_unfold.
  match goal with
  | |- context [rand (S ?i)] => pose proof (Hrand i); pose proof (Hrand (S i))
  end.
  lra.
Qed.

Lemma uniform_alpha_within_one_witness :
  exists a' : Z,
    (verticalPass (fun _ => 0.5%R)
       (horizontalPass (floatSrc whiteSquareHalved)
          (srcW whiteSquareHalved) (srcH whiteSquareHalved) 2)
       (srcH whiteSquareHalved) 2 2 0).1
      !! ((1 * 2 + 1) * 4 + 3) = Some a' /\
    isByte a' /\ (255 - 1 <= a' <= 255 + 1)%Z.
Proof.
  apply (uniform_alpha_within_one (fun _ => 0.5%R) 1 whiteSquare 9 9 2 2 0 1 1
           (verticalPass (fun _ => 0.5%R)
              (horizontalPass (floatSrc whiteSquareHalved)
                 (srcW whiteSquareHalved) (srcH whiteSquareHalved) 2)
              (srcH whiteSquareHalved) 2 2 0).1
           (verticalPass (fun _ => 0.5%R)
              (horizontalPass (floatSrc whiteSquareHalved)
                 (srcW whiteSquareHalved) (srcH whiteSquareHalved) 2)
              (srcH whiteSquareHalved) 2 2 0).2
           whiteSquareHalved 255).
  - intros _. lra.
  - unfold isByte. lia.
  - lia.
  - lia.
  - reflexivity.
  - apply whiteSquare_uniform. lia.
  - apply whiteSquare_pyramid.
  - apply whiteSquare_resample.
  - intros x _. apply whiteSquare_weights.
  - intros y _. apply whiteSquare_weights.
  - lia.
  - lia.
Defined.

End ResampleExtras.

(** ** More facts about the packager *)

Module PackagerMore.
Import JsNumber Sizing Packager PackagerFacts Vocabulary PackagerSamples.

Section WithBrowser.

Context {World : Type} (env : Browser World).

(** *** [resizeImage] returns a blob *)

Lemma resizeImage_chain (b : Blob) (tw th : number)
    (w w1 w2 w3 w4 w5 w6 : World) (img : ImageBitmap) (raw data : list Z)
    (r : option Blob) :
  createImageBitmap env b w = (Returned img, w1) ->
  getContext env w1 = (Returned true, w2) ->
  readPixels env img (bitmapWidth img) (bitmapHeight img) w2 = (Returned raw, w3) ->
  numericStages env raw (bitmapWidth img) (bitmapHeight img) tw th w3
    = (Returned data, w4) ->
  getContext env w4 = (Returned true, w5) ->
  toBlob env data tw th w5 = (Returned r, w6) ->
  resizeImage env b tw th w = (r, w6).
Proof.
  intros H1 H2 H3 H4 H5 H6.
  unfold resizeImage, resizeImageBody, getRawBytesViaWebGL, exportBytesViaWebGL,
    bind.
  rewrite H1, H2. cbn [negb]. rewrite H3. unfold ret at 1. rewrite H4, H5.
  cbn [negb]. by rewrite H6.
Qed.

Lemma resizeImage_Some_inv (b : Blob) (tw th : number) (w w' : World) (r : Blob) :
  resizeImage env b tw th w = (Some r, w') ->
  exists img w1 w2 raw w3 data w4 w5,
    createImageBitmap env b w = (Returned img, w1) /\
    getContext env w1 = (Returned true, w2) /\
    readPixels env img (bitmapWidth img) (bitmapHeight img) w2
      = (Returned raw, w3) /\
    numericStages env raw (bitmapWidth img) (bitmapHeight img) tw th w3
      = (Returned data, w4) /\
    getContext env w4 = (Returned true, w5) /\
    toBlob env data tw th w5 = (Returned (Some r), w').
Proof.
  unfold resizeImage, resizeImageBody, getRawBytesViaWebGL, exportBytesViaWebGL,
    bind.
  destruct (createImageBitmap env b w) as [[img|e] w1] eqn:E1; [|intros [=]].
  destruct (getContext env w1) as [[[|]|e] w2] eqn:E2; cbn [negb];
    [|unfold ret, throw; intros [=]|intros [=]].
  destruct (readPixels env img (bitmapWidth img) (bitmapHeight img) w2)
    as [[raw|e] w3] eqn:E3; [|intros [=]].
  unfold ret at 1.
  destruct (numericStages env raw (bitmapWidth img) (bitmapHeight img) tw th w3)
    as [[data|e] w4] eqn:E4; [|intros [=]].
  destruct (getContext env w4) as [[[|]|e] w5] eqn:E5; cbn [negb];
    [|unfold ret; intros [=]|intros [=]].
  destruct (toBlob env data tw th w5) as [[r'|e] w6] eqn:E6; [|intros [=]].
  intros [= -> ->]. by exists img, w1, w2, raw, w3, data, w4, w5.
Qed.

(** With no context nothing is resized. *)
Lemma resizeImage_no_context (b : Blob) (tw th : number) (w : World) :
  (forall w1, exists w2, getContext env w1 = (Returned false, w2)) ->
  (resizeImage env b tw th w).1 = None.
Proof.
  intros Hgl.
  destruct (createImageBitmap env b w) as [[img|e] w1] eqn:E1.
  - destruct (Hgl w1) as [w2 E2].
    destruct (resizeImage_import_null env b tw th w w1 w2 img E1 E2) as [_ ->].
    done.
  - by rewrite (resizeImage_decode_throws env b tw th w w1 e E1).
Qed.

(** *** The file entries of the archive *)

Lemma dom_foldl_files (root : string) (total : nat)
    (tasks : list OptimizationTask) (st : ZipRun World) :
  dom (files (foldl (processTask env root total) st tasks))
  = dom (files st) ∪ list_to_set ((fun t => root +:+ fileName t) <$> tasks).
Proof.
  revert st. induction tasks as [|t tasks IH]; intros st; simpl.
  - by rewrite union_empty_r_L.
  - rewrite IH, processTask_files, dom_insert_L.
    rewrite (union_comm_L {[root +:+ fileName t]} (dom (files st))).
    by rewrite union_assoc_L.
Qed.

Lemma dom_generateOptimizedZip (tasks : list OptimizationTask) (w : World) :
  dom (files (generateOptimizedZip env tasks w))
  = list_to_set (entryName <$> tasks).
Proof.
  unfold generateOptimizedZip, runTasks. cbn [JSZip_folder].
  rewrite dom_foldl_files. cbn [initialRun files].
  by rewrite dom_empty_L, union_empty_l_L.
Qed.

Lemma foldl_files_originals (root : string) (total : nat)
    (tasks : list OptimizationTask) (st : ZipRun World) :
  (forall st' t, t ∈ tasks -> storedBytes env st' t = blob t) ->
  files (foldl (processTask env root total) st tasks)
  = foldl (fun m t => <[root +:+ fileName t := blob t]> m) (files st) tasks.
Proof.
  revert st. induction tasks as [|t tasks IH]; intros st Hst; simpl; [done|].
  rewrite IH.
  - rewrite processTask_files, Hst; [done | by left].
  - intros st' t' Ht'. apply Hst. by right.
Qed.

Lemma generateOptimizedZip_originals (tasks : list OptimizationTask) (w : World) :
  (forall st t, t ∈ tasks -> storedBytes env st t = blob t) ->
  files (generateOptimizedZip env tasks w) = originalsArchive tasks.
Proof.
  intros Hst. unfold generateOptimizedZip, runTasks. cbn [JSZip_folder].
  by rewrite foldl_files_originals.
Qed.

Lemma foldl_world_kept (root : string) (total : nat)
    (tasks : list OptimizationTask) (st : ZipRun World) :
  Forall (fun t => isResize t = false) tasks ->
  world (foldl (processTask env root total) st tasks) = world st.
Proof.
  revert st. induction tasks as [|t tasks IH]; intros st Hall; simpl; [done|].
  inversion Hall as [|? ? Ht Htasks]; subst.
  rewrite IH by done.
  by destruct (processTask_copy env root total st t Ht) as [_ ->].
Qed.

End WithBrowser.

(** *** Tasks with distinct file names *)

Lemma append_inj_prefix (p a b : string) : p +:+ a = p +:+ b -> a = b.
Proof.
  induction p as [|c p IH]; simpl; [done|]. intros [= H]. by apply IH.
Qed.

Lemma NoDup_entryName (tasks : list OptimizationTask) :
  NoDup (fileName <$> tasks) -> NoDup (entryName <$> tasks).
Proof.
  intros Hnd.
  replace (entryName <$> tasks)
    with (String.append "images_optimized/" <$> (fileName <$> tasks))
    by (by rewrite <- list_fmap_compose).
  apply NoDup_fmap_2; [|done].
  intros a b. apply append_inj_prefix.
Qed.

Lemma NoDup_lastOfItsName (tasks : list OptimizationTask) (i : nat)
    (task : OptimizationTask) :
  NoDup (fileName <$> tasks) -> tasks !! i = Some task ->
  lastOfItsName tasks i task.
Proof.
  intros Hnd Hi j task' Hij Hj Heq.
  assert (i = j); [|lia].
  apply (NoDup_lookup (fileName <$> tasks) i j (fileName task)); [done | |].
  - by rewrite list_lookup_fmap, Hi.
  - rewrite list_lookup_fmap, Hj. cbn. by rewrite Heq.
Qed.

(** *** The sample browsers *)

Lemma workingBrowser_resizes (b : Blob) (tw th : number) (ntw nth : nat) :
  toSize tw = Some ntw -> toSize th = Some nth ->
  resizeImage workingBrowser b tw th tt = (Some [Byte.x89], tt).
Proof.
  intros Htw Hth.
  destruct (numericStages_natural workingBrowser [10; 20; 30; 255]%Z 1 1 ntw nth
              tw th tt tt Htw Hth eq_refl) as (out & _ & Hn).
  by apply (resizeImage_chain workingBrowser b tw th tt tt tt tt tt tt tt
              {| bitmapWidth := 1; bitmapHeight := 1; bitmapHandle := b |}
              [10; 20; 30; 255]%Z out.1 (Some [Byte.x89])).
Qed.

End PackagerMore.

(** ** Further properties of the resize call and the packager *)

Module PackagerExtras.
Import JsNumber Sizing Resample Packager PackagerFacts Vocabulary.
Import PackagerSamples PackagerMore.

(** X20: the stages of [resizeImage] compose.  When the image decodes, a
    context is there, the pixels are read, the target sizes are natural
    numbers and the buffers are allocated, stages B to D return a buffer of
    four bytes for every pixel of the target after two random draws per
    pixel, and [resizeImage] returns what the encoder makes of that
    buffer. *)
Theorem resize_success_path {World : Type} (env : Browser World) (b : Blob)
    (tw th : number) (ntw nth : nat) (w w1 w2 w3 w4 w5 : World)
    (img : ImageBitmap) (raw : list Z) :
  toSize tw = Some ntw -> toSize th = Some nth ->
  createImageBitmap env b w = (Returned img, w1) ->
  getContext env w1 = (Returned true, w2) ->
  readPixels env img (bitmapWidth img) (bitmapHeight img) w2 = (Returned raw, w3) ->
  allocationFails env (bitmapWidth img) (bitmapHeight img) ntw nth w3
    = (Returned false, w4) ->
  getContext env (afterRandom env (2 * (ntw * nth)) w4) = (Returned true, w5) ->
  exists data : list Z,
    resample (randomValues env w4) (bitmapWidth img) raw
      (bitmapWidth img) (bitmapHeight img) ntw nth 0
    = Some (data, 2 * (ntw * nth)) /\
    length data = ntw * nth * 4 /\ Forall isByte data /\
    forall (r : option Blob) (w6 : World),
      toBlob env data tw th w5 = (Returned r, w6) ->
      resizeImage env b tw th w = (r, w6).
Proof.
  intros Htw Hth H1 H2 H3 H4 H5.
  destruct (numericStages_natural env raw (bitmapWidth img) (bitmapHeight img)
              ntw nth tw th w3 w4 Htw Hth H4) as ([data n] & Hout & Hstages).
  cbn [fst snd] in Hstages.
  destruct (ResampleFacts.resample_output _ _ _ _ _ _ _ _ _ Hout) as (p & _ & Hv).
  destruct (ResampleFacts.verticalPass_pixels (randomValues env w4)
              (horizontalPass (floatSrc p) (srcW p) (srcH p) ntw)
              (srcH p) ntw nth 0) as (Hlen & Hn & _).
  pose proof (f_equal fst Hv) as Hd. pose proof (f_equal snd Hv) as Hn'.
  cbn [fst snd] in Hd, Hn'. rewrite <- Hd in Hlen. rewrite <- Hn' in Hn.
  assert (En : n = 2 * (ntw * nth)) by lia. rewrite En in Hout, Hstages.
  exists data. split; [done|]. split; [done|]. split.
  - rewrite Hd. apply ResampleMore.verticalPass_bytes.
  - intros r w6 H6.
    by apply (resizeImage_chain env b tw th w w1 w2 w3
                (afterRandom env (2 * (ntw * nth)) w4) w5 w6 img raw data r).
Qed.

Lemma resize_success_path_witness :
  resizeImage workingBrowser [Byte.x01] (of_Z 2) (of_Z 3) tt
  = (Some [Byte.x89], tt).
Proof.
  destruct (resize_success_path workingBrowser [Byte.x01] (of_Z 2) (of_Z 3) 2 3
              tt tt tt tt tt tt
              {| bitmapWidth := 1; bitmapHeight := 1; bitmapHandle := [Byte.x01] |}
              [10; 20; 30; 255]%Z)
    as (data & _ & _ & _ & H).
  - vm_compute. reflexivity.
  - vm_compute. reflexivity.
  - reflexivity.
  - reflexivity.
  - reflexivity.
  - reflexivity.
  - reflexivity.
  - apply H. reflexivity.
Defined.

(** X21: [resizeImage] returns a blob exactly when every stage succeeded,
    and the blob is then the one the encoder returned: the image was
    decoded, a context was there for the import and for the export, stages
    B to D returned, and [canvas.toBlob] gave this blob for their data. *)
Theorem resized_blob_comes_from_encoder {World : Type} (env : Browser World)
    (b : Blob) (tw th : number) (w w' : World) (r : Blob) :
  resizeImage env b tw th w = (Some r, w') <->
  exists img w1 w2 raw w3 data w4 w5,
    createImageBitmap env b w = (Returned img, w1) /\
    getContext env w1 = (Returned true, w2) /\
    readPixels env img (bitmapWidth img) (bitmapHeight img) w2
      = (Returned raw, w3) /\
    numericStages env raw (bitmapWidth img) (bitmapHeight img) tw th w3
      = (Returned data, w4) /\
    getContext env w4 = (Returned true, w5) /\
    toBlob env data tw th w5 = (Returned (Some r), w').
Proof.
  split; [apply resizeImage_Some_inv|].
  intros (img & w1 & w2 & raw & w3 & data & w4 & w5 & H1 & H2 & H3 & H4 & H5 & H6).
  by apply (resizeImage_chain env b tw th w w1 w2 w3 w4 w5 w' img raw data
              (Some r)).
Qed.

Lemma resized_blob_comes_from_encoder_witness :
  exists (data : list Z) (w5 : unit),
    toBlob workingBrowser data (of_Z 2) (of_Z 3) w5
    = (Returned (Some [Byte.x89]), tt).
Proof.
  destruct (proj1 (resized_blob_comes_from_encoder workingBrowser [Byte.x01]
                     (of_Z 2) (of_Z 3) tt tt [Byte.x89]))
    as (img & w1 & w2 & raw & w3 & data & w4 & w5 & _ & _ & _ & _ & _ & H).
  - apply (workingBrowser_resizes [Byte.x01] (of_Z 2) (of_Z 3) 2 3).
    + vm_compute. reflexivity.
    + vm_compute. reflexivity.
  - exists data, w5. exact H.
Defined.

(** X22: the file entries of the archive are the entries of the tasks and
    nothing else: a name has an entry exactly when it is
    [images_optimized/] followed by the file name of a task. *)
Theorem archive_entries_are_task_names {World : Type} (env : Browser World)
    (tasks : list OptimizationTask) (w : World) (k : string) :
  is_Some (files (generateOptimizedZip env tasks w) !! k) <->
  exists task, task ∈ tasks /\ k = "images_optimized/" +:+ fileName task.
Proof.
  rewrite <- elem_of_dom, dom_generateOptimizedZip, elem_of_list_to_set.
  rewrite list_elem_of_fmap. unfold entryName. split.
  - intros (t & -> & Ht). by exists t.
  - intros (t & Ht & ->). by exists t.
Qed.

(** X23: when the tasks have distinct file names, the archive has one file
    entry for each task, and it holds the bytes the pass stored for that
    task. *)
Theorem distinct_names_one_entry_each {World : Type} (env : Browser World)
    (tasks : list OptimizationTask) (w : World) :
  NoDup (fileName <$> tasks) ->
  size (files (generateOptimizedZip env tasks w)) = length tasks /\
  forall i task, tasks !! i = Some task ->
    files (generateOptimizedZip env tasks w) !! entryName task
    = Some (storedBytes env (stateBefore env tasks w i) task).
Proof.
  intros Hnd. split.
  - rewrite <- size_dom, dom_generateOptimizedZip.
    rewrite size_list_to_set by by apply NoDup_entryName.
    by rewrite length_fmap.
  - intros i task Hi. apply generateOptimizedZip_entry; [done|].
    by apply NoDup_lastOfItsName.
Qed.

Lemma distinct_names_one_entry_each_witness :
  size (files (generateOptimizedZip workingBrowser distinctTasks tt))
  = length distinctTasks.
Proof.
  destruct (distinct_names_one_entry_each workingBrowser distinctTasks tt) as [H _].
  - assert (E : fileName <$> distinctTasks = ["arm.png"; "leg.png"])
      by (vm_compute; reflexivity).
    rewrite E. apply NoDup_cons. split; [|apply NoDup_singleton].
    rewrite list_elem_of_singleton. discriminate.
  - exact H.
Defined.

(** X24: when no task is to be resized, the pass makes no call of
    [resizeImage], leaves the world as it was, and the archive holds the
    blob of every task under its entry name, whatever the browser is. *)
Theorem nothing_to_resize_no_browser_call {World : Type} (env : Browser World)
    (tasks : list OptimizationTask) (w : World) :
  Forall (fun t => isResize t = false) tasks ->
  files (generateOptimizedZip env tasks w) = originalsArchive tasks /\
  resizeCalls (generateOptimizedZip env tasks w) = [] /\
  world (generateOptimizedZip env tasks w) = w.
Proof.
  intros Hall. split; [|split].
  - apply generateOptimizedZip_originals. intros st t Ht.
    rewrite Forall_forall in Hall. unfold storedBytes. by rewrite (Hall t Ht).
  - unfold generateOptimizedZip, runTasks. cbn [JSZip_folder].
    rewrite foldl_calls. cbn [initialRun resizeCalls app].
    replace (filter (fun t => isResize t = true) tasks) with (@nil OptimizationTask);
      [done|].
    symmetry. induction Hall as [|t l Ht _ IH]; [done|].
    rewrite filter_cons_False by congruence. done.
  - unfold generateOptimizedZip, runTasks. cbn [JSZip_folder].
    by rewrite foldl_world_kept.
Qed.

Lemma nothing_to_resize_no_browser_call_witness :
  files (generateOptimizedZip workingBrowser copiedTasks tt)
  = originalsArchive copiedTasks.
Proof.
  destruct (nothing_to_resize_no_browser_call workingBrowser copiedTasks tt)
    as [H _].
  - vm_compute. repeat constructor.
  - exact H.
Defined.

(** X25: in a browser that gives no WebGL2 context no resize succeeds,
    and the archive holds original blobs only: under each entry name the
    original blob of the last task that has this name.  A task whose file
    name no later task has is in the archive with its original bytes; an
    earlier task of the same name is replaced. *)
Theorem no_context_ships_originals {World : Type} (env : Browser World)
    (tasks : list OptimizationTask) (w : World) :
  (forall w1, exists w2, getContext env w1 = (Returned false, w2)) ->
  (forall b tw th w1, (resizeImage env b tw th w1).1 = None) /\
  files (generateOptimizedZip env tasks w) = originalsArchive tasks /\
  (forall i task,
     tasks !! i = Some task -> lastOfItsName tasks i task ->
     files (generateOptimizedZip env tasks w) !! entryName task
     = Some (blob task)).
Proof.
  intros Hgl.
  assert (Hnone : forall b tw th w1, (resizeImage env b tw th w1).1 = None)
    by (intros; by apply resizeImage_no_context).
  assert (Hstored : forall st t, storedBytes env st t = blob t).
  { intros st t. unfold storedBytes. rewrite Hnone. by destruct (isResize t). }
  split; [done|]. split.
  - apply generateOptimizedZip_originals. intros st t _. apply Hstored.
  - intros i task Hi Hlast.
    rewrite (generateOptimizedZip_entry env tasks w i task Hi Hlast).
    by rewrite Hstored.
Qed.

Lemma no_context_ships_originals_witness :
  files (generateOptimizedZip noWebGL collidingTasks tt)
  = originalsArchive collidingTasks.
Proof.
  destruct (no_context_ships_originals noWebGL collidingTasks tt) as (_ & H & _).
  - intros []. exists tt. reflexivity.
  - exact H.
Defined.

(** X26: when the resize of a task returns a blob, the pass stores that
    blob, not the original, and the finished archive holds it under the
    task's entry name provided no later task has the same file name. *)
Theorem resized_bytes_stored {World : Type} (env : Browser World)
    (tasks : list OptimizationTask) (w0 : World) (i : nat)
    (task : OptimizationTask) (resized : Blob) :
  tasks !! i = Some task ->
  isResize task = true ->
  (resizeImage env (blob task) (targetWidth task) (targetHeight task)
     (world (stateBefore env tasks w0 i))).1 = Some resized ->
  let before := stateBefore env tasks w0 i in
  let after := processTask env "images_optimized/" (length tasks) before task in
  files after = <[entryName task := resized]> (files before) /\
  (lastOfItsName tasks i task ->
   files (generateOptimizedZip env tasks w0) !! entryName task = Some resized).
Proof.
  intros Hi Hres Hsome before after.
  assert (Hstored : storedBytes env before task = resized).
  { unfold storedBytes. rewrite Hres. unfold before. by rewrite Hsome. }
  split.
  - unfold after. by rewrite processTask_files, Hstored.
  - intros Hlast.
    rewrite (generateOptimizedZip_entry env tasks w0 i task Hi Hlast).
    by rewrite <- Hstored.
Qed.

Lemma resized_bytes_stored_witness :
  files (generateOptimizedZip workingBrowser fallbackTasks tt)
    !! "images_optimized/arm.png" = Some [Byte.x89].
Proof.
  destruct (resized_bytes_stored workingBrowser fallbackTasks tt 0
              (makeTask (sampleStat "arm.jpg" 20 30) armJpg (of_Z 0)) [Byte.x89])
    as [_ H].
  - vm_compute. reflexivity.
  - vm_compute. reflexivity.
  - destruct (world _).
    rewrite (workingBrowser_resizes _ _ _ 20 30); [reflexivity | |];
      vm_compute; reflexivity.
  - apply H. intros j t Hj Ht. destruct j as [|j]; [lia|].
    vm_compute in Ht. discriminate.
Defined.

(** X27: from the sizing policy to the archive.  The file entries of the
    archive made from the tasks of [calculateOptimizationTargets] are the
    names [images_optimized/] followed by the output name of the path of
    a loaded image whose key has a stat; an image without a stat has no
    entry of its own. *)
Theorem archive_names_from_paths {World : Type} (env : Browser World)
    (stats : list GlobalAssetStat) (imgs : list (string * LoadedImage))
    (b : option number) (w : World) (k : string) :
  is_Some (files (generateOptimizedZip env
                    (calculateOptimizationTargets stats imgs b) w) !! k) <->
  exists key original,
    (key, original) ∈ imgs /\ is_Some (buildStatsMap stats !! key) /\
    k = "images_optimized/" +:+ outputFileName (originalPath original).
Proof.
  rewrite <- elem_of_dom, dom_generateOptimizedZip, elem_of_list_to_set.
  rewrite list_elem_of_fmap. unfold entryName. split.
  - intros (t & -> & Ht).
    apply SizingFacts.calculate_elem in Ht as (key & o & s & Hin & Hs & ->).
    exists key, o. cbn [makeTask fileName]. by rewrite Hs.
  - intros (key & o & Hin & [s Hs] & ->).
    exists (makeTask s o (nullish b (of_Z 0))). split; [done|].
    apply SizingFacts.calculate_elem. by exists key, o, s.
Qed.

End PackagerExtras.
